(** * Castro reaction coupling (Source/reactions/Castro_react.cpp)

    A shallow embedding of the two [Castro::react_state] couplers (Strang
    and simplified SDC) and of [Castro::valid_zones_to_burn], together
    with the properties of the coupling protocol.

    Conventions of the embedding.
    - [Real] is modelled by exact rational arithmetic ([Q]); a division
      whose divisor is zero is an error of the error monad [result].
    - An [Array4] is a view of one FAB: a box and a total accessor.  The
      MPI ranks run the same program in lock step; a collective reduction
      is a function of the values contributed by all ranks.
    - The stiff integrator [burner], and the AMReX/Castro services
      [FillCoarsePatch], [FillBoundary] and [sum_of_sources], are
      collaborators: they are parameters of the embedding. *)

From Stdlib Require Import ZArith QArith Qminmax Qfield Lqa Lia.
From stdpp Require Import base list option.

(** ** Real numbers *)

Definition Real : Type := Q.
Bind Scope Q_scope with Real.

Definition real_le (x y : Real) : bool := Qle_bool x y.
Definition real_ge (x y : Real) : bool := Qle_bool y x.
Definition real_lt (x y : Real) : bool := negb (Qle_bool y x).
Definition real_gt (x y : Real) : bool := negb (Qle_bool x y).
Definition real_ne (x y : Real) : bool := negb (Qeq_bool x y).

Arguments real_le (x y)%_Q.
Arguments real_ge (x y)%_Q.
Arguments real_lt (x y)%_Q.
Arguments real_gt (x y)%_Q.
Arguments real_ne (x y)%_Q.

(** [amrex::max] and [amrex::min] *)
Definition amrex_max (a b : Real) : Real := if real_lt a b then b else a.
Definition amrex_min (a b : Real) : Real := if real_lt b a then b else a.

Arguments amrex_max (a b)%_Q.
Arguments amrex_min (a b)%_Q.

(** ** The C++ [int]

    A 32-bit two's complement integer, carried by [Z].  A sum or a
    product that leaves the range wraps around, which is what the
    targets of the code do on signed overflow. *)

Definition int_wrap (z : Z) : Z := ((z + 2 ^ 31) mod 2 ^ 32 - 2 ^ 31)%Z.
Definition int_add (a b : Z) : Z := int_wrap (a + b).
Definition int_mul (a b : Z) : Z := int_wrap (a * b).

(** ** Errors *)

Inductive error : Type :=
| ConfigError      (* amrex::Error: wrong time integration method *)
| DivideByZero     (* a division with a zero divisor *)
| IndexOutOfRange  (* amrex::Vector read past its size *)
| BadFab.          (* an MFIter index that names no FAB *)

Inductive result (A : Type) : Type :=
| Ok (a : A)
| Err (e : error).
Arguments Ok {A} a.
Arguments Err {A} e.

Global Instance result_ret : MRet result := fun A a => Ok a.
Global Instance result_bind : MBind result := fun A B f m =>
  match m with
  | Ok a => f a
  | Err e => Err e
  end.

(** Division.  The reals of the model have no infinities and no NaN: a
    division by zero, which in the floating-point arithmetic of the
    code yields one of them and goes on, ends the computation of the
    model with [DivideByZero].  An outcome [Ok] thus says that no
    division by zero was evaluated on the way. *)
Definition real_div (x y : Real) : result Real :=
  if Qeq_bool y 0 then Err DivideByZero else Ok (x / y)%Q.

Arguments real_div (x y)%_Q.

(** Loops. [for_loop n body] is [for (int i = 0; i < n; ++i) body(i)]. *)

Fixpoint foldM {S A : Type} (f : S -> A -> result S) (l : list A) (s : S)
  : result S :=
  match l with
  | [] => Ok s
  | x :: l' => s' ← f s x; foldM f l' s'
  end.

Definition for_loop {S : Type} (n : nat) (body : nat -> S -> S) (s : S) : S :=
  fold_left (fun s i => body i s) (seq 0 n) s.

Definition for_loopM {S : Type} (n : nat) (body : nat -> S -> result S) (s : S)
  : result S :=
  foldM (fun s i => body i s) (seq 0 n) s.

(** A C array indexed by an int, and the store [a[n] = v]. *)
Definition upd (a : nat -> Real) (n : nat) (v : Real) : nat -> Real :=
  fun m => if (m =? n)%nat then v else a m.

(** ** Index space *)

Definition Cell : Type := (Z * Z * Z)%type.

Record Box : Type := { smallEnd : Cell; bigEnd : Cell }.

Definition box_contains (b : Box) (c : Cell) : bool :=
  let '(i, j, k) := c in
  let '(li, lj, lk) := smallEnd b in
  let '(hi, hj, hk) := bigEnd b in
  (li <=? i)%Z && (i <=? hi)%Z && (lj <=? j)%Z && (j <=? hj)%Z
  && (lk <=? k)%Z && (k <=? hk)%Z.

Definition grow (b : Box) (ng : Z) : Box :=
  let '(li, lj, lk) := smallEnd b in
  let '(hi, hj, hk) := bigEnd b in
  {| smallEnd := (li - ng, lj - ng, lk - ng)%Z;
     bigEnd := (hi + ng, hj + ng, hk + ng)%Z |}.

Definition zrange (l h : Z) : list Z :=
  map (fun n => (l + Z.of_nat n)%Z) (seq 0 (Z.to_nat (h - l + 1))).

(** The cells of a box in loop order: k outermost, i innermost. *)
Definition box_cells (b : Box) : list Cell :=
  let '(li, lj, lk) := smallEnd b in
  let '(hi, hj, hk) := bigEnd b in
  flat_map (fun k =>
    flat_map (fun j =>
      map (fun i => (i, j, k)) (zrange li hi)) (zrange lj hj)) (zrange lk hk).

(** ** Array4, FArrayBox, MultiFab *)

Record Array4 : Type := { a_box : Box; a_val : Cell -> nat -> Real }.

Definition contains (a : Array4) (c : Cell) : bool := box_contains (a_box a) c.

(** [a(i,j,k,n) = v] *)
Definition awrite (a : Array4) (c : Cell) (n : nat) (v : Real) : Array4 :=
  {| a_box := a_box a;
     a_val := fun c' n' =>
       if bool_decide (c' = c) && (n' =? n)%nat then v else a_val a c' n' |}.

Arguments awrite a c n%_nat v%_Q.

(** [a(i,j,k,n) += v] *)
Definition aadd (a : Array4) (c : Cell) (n : nat) (v : Real) : Array4 :=
  awrite a c n (a_val a c n + v)%Q.

Arguments aadd a c n%_nat v%_Q.

(** A view that is never read: it stands in the place of an array
    the build does not take. *)
Definition no_view : Array4 :=
  {| a_box := {| smallEnd := (0, 0, 0)%Z; bigEnd := (-1, -1, -1)%Z |};
     a_val := fun _ _ => 0%Q |}.

Record FArrayBox : Type := { validbox : Box; fab_val : Cell -> nat -> Real }.

(** The part of a MultiFab owned by one rank. *)
Record MultiFab : Type := { nGrow : Z; nComp : nat; fabs : list FArrayBox }.

Definition fabbox (mf : MultiFab) (f : FArrayBox) : Box :=
  grow (validbox f) (nGrow mf).

(** [mf.array(mfi)]: the view of the FAB the iterator points at. *)
Definition mf_array (mf : MultiFab) (idx : nat) : result Array4 :=
  match fabs mf !! idx with
  | Some f => Ok {| a_box := fabbox mf f; a_val := fab_val f |}
  | None => Err BadFab
  end.

(** Writes through a view land in the FAB it aliases. *)
Definition mf_store (mf : MultiFab) (idx : nat) (a : Array4) : MultiFab :=
  {| nGrow := nGrow mf; nComp := nComp mf;
     fabs := alter (fun f => {| validbox := validbox f; fab_val := a_val a |})
               idx (fabs mf) |}.

(** [mf.setVal(v, ng)]: every component, valid region grown by [ng]. *)
Definition setVal (mf : MultiFab) (v : Real) (ng : Z) : MultiFab :=
  {| nGrow := nGrow mf; nComp := nComp mf;
     fabs := map (fun f =>
       {| validbox := validbox f;
          fab_val := fun c n =>
            if box_contains (grow (validbox f) ng) c && (n <? nComp mf)%nat
            then v else fab_val f c n |}) (fabs mf) |}.

Arguments setVal mf v%_Q ng%_Z.

Definition valid_values (mf : MultiFab) (comp : nat) : list Real :=
  flat_map (fun f => map (fun c => fab_val f c comp) (box_cells (validbox f)))
    (fabs mf).

Definition Qsum (l : list Real) : Real := fold_left Qplus l 0%Q.

(** [std::numeric_limits<Real>::max()] for IEEE doubles. *)
Definition Real_max : Real := inject_Z (2 ^ 1024 - 2 ^ 971).
Definition Real_lowest : Real := (- Real_max)%Q.

(** [mf.sum(comp, local = true)], [mf.min(comp, 0, true)] and
    [mf.max(comp, 0, true)]: reductions over the valid cells of the rank. *)
Definition mf_sum_local (mf : MultiFab) (comp : nat) : Real :=
  Qsum (valid_values mf comp).
Definition mf_min_local (mf : MultiFab) (comp : nat) : Real :=
  fold_left amrex_min (valid_values mf comp) Real_max.
Definition mf_max_local (mf : MultiFab) (comp : nat) : Real :=
  fold_left amrex_max (valid_values mf comp) Real_lowest.

(** ** Collective reductions

    Each takes the contribution of the first rank and of the other
    ranks, and yields the value every rank receives. *)

Definition ReduceRealSum (x : Real) (xs : list Real) : Real :=
  fold_left Qplus xs x.

Definition ReduceIntMin (x : Z) (xs : list Z) : Z := fold_left Z.min xs x.

(** Element-wise reductions of vectors of equal size. *)
Definition ReduceRealMin (v : list Real) (vs : list (list Real)) : list Real :=
  fold_left (fun a b => zip_with amrex_min a b) vs v.
Definition ReduceRealMax (v : list Real) (vs : list (list Real)) : list Real :=
  fold_left (fun a b => zip_with amrex_max a b) vs v.

(** [amrex::Vector<Real>]: [push_back] and the unchecked [operator[]],
    whose reads past the end are errors here. *)
Definition push_back (v : list Real) (x : Real) : list Real := v ++ [x].
Definition vec_at (v : list Real) (n : nat) : result Real :=
  match v !! n with
  | Some x => Ok x
  | None => Err IndexOutOfRange
  end.

(** [reduce_op.eval(bx, reduce_data, f)] with [ReduceOpSum]: the value of
    the kernel at each cell is added to the reduction; the kernel also
    writes to the memory [M] it captured.  [ReduceOpSum_cells] is the
    loop over the cells. *)
Definition ReduceOpSum_cells {M : Type} (cells : list Cell)
    (f : Cell -> M -> result (Real * M)) (st : Real * M) : result (Real * M) :=
  foldM (fun '(reduce_data, m) c =>
           '(v, m') ← f c m; Ok ((reduce_data + v)%Q, m'))
        cells st.

Definition ReduceOpSum_eval {M : Type} (bx : Box)
    (f : Cell -> M -> result (Real * M)) (st : Real * M) : result (Real * M) :=
  ReduceOpSum_cells (box_cells bx) f st.

(** [amrex::ParallelFor(bx, f)] *)
Definition ParallelFor {M : Type} (bx : Box) (f : Cell -> M -> M) (m : M) : M :=
  fold_left (fun m c => f c m) (box_cells bx) m.

(** ** Build-time constants and run-time parameters

    The state, integrator and primitive index constants and the
    preprocessor switches come from headers of the build; the run-time
    parameters are the [castro::] inputs and the members of the level. *)

Class Build : Type := {
  NumSpec : nat;  NumAux : nat;
  SHOCK_VAR : bool;  NSE_THERMO : bool;
  URHO : nat;  UMX : nat;  UMY : nat;  UMZ : nat;
  UEDEN : nat;  UEINT : nat;  UTEMP : nat;
  UFS : nat;  UFX : nat;  USHK : nat;
  SRHO : nat;  SMX : nat;  SMY : nat;  SMZ : nat;
  SEDEN : nat;  SEINT : nat;  SFS : nat;  SFX : nat;
  QFX : nat;  QREINT : nat
}.

Inductive TimeIntegrationMethod : Type :=
| CornerTransportUpwind
| UnusedTimeIntegratorMethod
| SpectralDeferredCorrections
| SimplifiedSpectralDeferredCorrections.

Global Instance TimeIntegrationMethod_eq_dec : EqDecision TimeIntegrationMethod.
Proof. solve_decision. Defined.

Class Params : Type := {
  time_integration_method : TimeIntegrationMethod;
  do_react : Z;
  level : Z;
  reactions_max_solve_level : Z;
  disable_shock_burning : Z;
  react_T_min : Real;  react_T_max : Real;
  react_rho_min : Real;  react_rho_max : Real;
  print_update_diagnostics : bool;
  sdc_iteration : Z;  sdc_iters : Z
}.

(** ** Castro::valid_zones_to_burn *)

Section ZoneGate.
Context {bld : Build} {par : Params}.

Definition small : Real := 1e-10%Q.
Definition large : Real := 1e199%Q.

Definition limit_small_rho : bool := real_ge react_rho_min small.
Definition limit_large_rho : bool := real_le react_rho_max large.
Definition limit_rho : bool := limit_small_rho || limit_large_rho.
Definition limit_small_T : bool := real_ge react_T_min small.
Definition limit_large_T : bool := real_le react_T_max large.
Definition limit_T : bool := limit_small_T || limit_large_T.
Definition limit : bool := limit_rho || limit_T.

(** The rank-local collection of the active limiters, in push order. *)
Definition local_small_limiters (State : MultiFab) : list Real :=
  let small_limiters := [] in
  let small_limiters :=
    if limit_small_rho
    then push_back small_limiters (mf_min_local State URHO)
    else small_limiters in
  if limit_small_T
  then push_back small_limiters (mf_min_local State UTEMP)
  else small_limiters.

Definition local_large_limiters (State : MultiFab) : list Real :=
  let large_limiters := [] in
  let large_limiters :=
    if limit_large_rho
    then push_back large_limiters (mf_max_local State URHO)
    else large_limiters in
  if limit_large_T
  then push_back large_limiters (mf_max_local State UTEMP)
  else large_limiters.

Definition valid_zones_to_burn (State : MultiFab) (peers : list MultiFab)
  : result bool :=
  if negb limit then Ok true else
  let smalldens :=
    if limit_small_rho then mf_min_local State URHO else small in
  let largedens :=
    if limit_large_rho then mf_max_local State URHO else large in
  let small_T :=
    if limit_small_T then mf_min_local State UTEMP else small in
  let large_T :=
    if limit_large_T then mf_max_local State UTEMP else large in
  let small_limiters := local_small_limiters State in
  let large_limiters := local_large_limiters State in
  let small_size := length small_limiters in
  '(smalldens, small_T) ←
    (if (0 <? small_size)%nat then
       let small_limiters :=
         ReduceRealMin small_limiters (map local_small_limiters peers) in
       if limit_small_rho then
         smalldens ← vec_at small_limiters 0;
         if limit_small_T then
           small_T ← vec_at small_limiters 1;
           Ok (smalldens, small_T)
         else Ok (smalldens, small_T)
       else
         small_T ← vec_at small_limiters 0;
         Ok (smalldens, small_T)
     else Ok (smalldens, small_T));
  let large_size := length large_limiters in
  '(largedens, large_T) ←
    (if (0 <? large_size)%nat then
       let large_limiters :=
         ReduceRealMax large_limiters (map local_large_limiters peers) in
       if limit_large_rho then
         largedens ← vec_at large_limiters 0;
         if limit_large_T then
           large_T ← vec_at large_limiters 1;
           Ok (largedens, large_T)
         else Ok (largedens, large_T)
       else
         large_T ← vec_at large_limiters 1;
         Ok (largedens, large_T)
     else Ok (largedens, large_T));
  if real_ge largedens react_rho_min && real_le smalldens react_rho_max
     && real_ge large_T react_T_min && real_le small_T react_T_max
  then Ok true
  else Ok false.

End ZoneGate.

Definition int_to_bool (n : Z) : bool := negb (n =? 0)%Z.

(** ** The Strang coupler: Castro::react_state(s, r, time, dt) *)

Module Strang.

(** The fields of [burn_t] the Strang coupler touches. *)
Record burn_t : Type := {
  rho : Real;  T : Real;  e : Real;
  xn : nat -> Real;  aux : nat -> Real;
  success : bool;  n_rhs : Z;  n_jac : Z
}.

Definition set_rho (b : burn_t) (v : Real) : burn_t :=
  {| rho := v; T := T b; e := e b; xn := xn b; aux := aux b;
     success := success b; n_rhs := n_rhs b; n_jac := n_jac b |}.
Definition set_T (b : burn_t) (v : Real) : burn_t :=
  {| rho := rho b; T := v; e := e b; xn := xn b; aux := aux b;
     success := success b; n_rhs := n_rhs b; n_jac := n_jac b |}.
Definition set_e (b : burn_t) (v : Real) : burn_t :=
  {| rho := rho b; T := T b; e := v; xn := xn b; aux := aux b;
     success := success b; n_rhs := n_rhs b; n_jac := n_jac b |}.
Definition set_xn (b : burn_t) (n : nat) (v : Real) : burn_t :=
  {| rho := rho b; T := T b; e := e b; xn := upd (xn b) n v; aux := aux b;
     success := success b; n_rhs := n_rhs b; n_jac := n_jac b |}.
Definition set_aux (b : burn_t) (n : nat) (v : Real) : burn_t :=
  {| rho := rho b; T := T b; e := e b; xn := xn b; aux := upd (aux b) n v;
     success := success b; n_rhs := n_rhs b; n_jac := n_jac b |}.
Definition set_success (b : burn_t) (v : bool) : burn_t :=
  {| rho := rho b; T := T b; e := e b; xn := xn b; aux := aux b;
     success := v; n_rhs := n_rhs b; n_jac := n_jac b |}.
Definition set_n_rhs (b : burn_t) (v : Z) : burn_t :=
  {| rho := rho b; T := T b; e := e b; xn := xn b; aux := aux b;
     success := success b; n_rhs := v; n_jac := n_jac b |}.
Definition set_n_jac (b : burn_t) (v : Z) : burn_t :=
  {| rho := rho b; T := T b; e := e b; xn := xn b; aux := aux b;
     success := success b; n_rhs := n_rhs b; n_jac := v |}.

Arguments set_rho b v%_Q.
Arguments set_T b v%_Q.
Arguments set_e b v%_Q.
Arguments set_xn b n%_nat v%_Q.
Arguments set_aux b n%_nat v%_Q.
Arguments set_n_rhs b v%_Z.
Arguments set_n_jac b v%_Z.

(** What one rank holds: the state [s], the rates [r], and the tiles its
    [MFIter(s, TilingIfNotGPU())] visits, each as the index of the FAB
    and the box [mfi.growntilebox(ng)]. *)
Record Rank : Type := {
  s : MultiFab;
  r : MultiFab;
  mfiter : list (nat * Box)
}.

(** What the call leaves behind: the arrays of every rank, the value
    returned (the same on every rank), and the energy diagnostic if one
    is printed. *)
Record Outcome : Type := {
  ranks_out : list Rank;
  burn_success : bool;
  e_added_printed : option Real
}.

Section Coupler.
Context {bld : Build} {par : Params}.
(** [burner(burn_state, dt)], as the state it leaves in [burn_state] *)
Variable burner : burn_t -> Real -> burn_t.
(** the contents of the declared, not yet assigned, [burn_state] *)
Variable burn_state_decl : burn_t.
(** [FillCoarsePatch(r, 0, time, Reactions_Type, 0, nComp, nGrow)] *)
Variable FillCoarsePatch : MultiFab -> Real -> MultiFab.

(** The kernel of the reduction, lines 83-174.  The loops over the
    auxiliary variables stand under [#if NAUX_NET > 0]; [NumAux] is
    [NAUX_NET], so without that switch they run zero times. *)
Definition react_kernel (U : Array4) (dt : Real) (c : Cell)
    (reactions : Array4) : result (Real * Array4) :=
  let burn_state := burn_state_decl in
  let do_burn := true in
  let burn_state := set_success burn_state true in
  let burn_failed := 0%Q in
  let do_burn :=
    if SHOCK_VAR && (real_gt (a_val U c USHK) 0
                     && (disable_shock_burning =? 1)%Z)
    then false else do_burn in
  rhoInv ← real_div 1 (a_val U c URHO);
  let burn_state := set_rho burn_state (a_val U c URHO) in
  let burn_state := set_T burn_state (a_val U c UTEMP) in
  let burn_state := set_e burn_state 0 in
  let burn_state :=
    for_loop NumSpec (fun n burn_state =>
      set_xn burn_state n (a_val U c (UFS + n) * rhoInv)%Q) burn_state in
  let burn_state :=
    for_loop NumAux (fun n burn_state =>
      set_aux burn_state n (a_val U c (UFX + n) * rhoInv)%Q) burn_state in
  let burn_state := set_n_rhs burn_state 0 in
  let burn_state := set_n_jac burn_state 0 in
  let do_burn :=
    if real_lt (T burn_state) react_T_min
       || real_gt (T burn_state) react_T_max
       || real_lt (rho burn_state) react_rho_min
       || real_gt (rho burn_state) react_rho_max
    then false else do_burn in
  let burn_state := if do_burn then burner burn_state dt else burn_state in
  let burn_failed :=
    if negb (success burn_state) then 1%Q else burn_failed in
  reactions ←
    (if do_burn then
       if contains reactions c then
         reactions ← for_loopM NumSpec (fun n reactions =>
           v ← real_div (a_val U c URHO
                         * (xn burn_state n
                            - a_val U c (UFS + n) * rhoInv))%Q dt;
           Ok (awrite reactions c n v)) reactions;
         reactions ← for_loopM NumAux (fun n reactions =>
           v ← real_div (a_val U c URHO
                         * (aux burn_state n
                            - a_val U c (UFX + n) * rhoInv))%Q dt;
           Ok (awrite reactions c (n + NumSpec) v)) reactions;
         v ← real_div (a_val U c URHO * e burn_state)%Q dt;
         let reactions := awrite reactions c (NumSpec + NumAux) v in
         Ok (awrite reactions c (NumSpec + NumAux + 1)
               (amrex_max 1
                  (inject_Z (int_add (n_rhs burn_state)
                               (int_mul 2 (n_jac burn_state))))))
       else Ok reactions
     else
       if contains reactions c then
         let reactions :=
           for_loop (NumSpec + NumAux + 1) (fun n reactions =>
             awrite reactions c n 0) reactions in
         Ok (awrite reactions c (NumSpec + NumAux + 1) 1)
       else Ok reactions);
  Ok (burn_failed, reactions).

(** The kernel of the update, lines 181-195. *)
Definition update_kernel (reactions : Array4) (dt : Real) (c : Cell)
    (U : Array4) : Array4 :=
  if contains U c && contains reactions c then
    let U :=
      for_loop NumSpec (fun n U =>
        aadd U c (UFS + n) (a_val reactions c n * dt)%Q) U in
    let U :=
      for_loop NumAux (fun n U =>
        aadd U c (UFX + n) (a_val reactions c (n + NumSpec) * dt)%Q) U in
    let U := aadd U c UEINT (a_val reactions c (NumSpec + NumAux) * dt)%Q in
    aadd U c UEDEN (a_val reactions c (NumSpec + NumAux) * dt)%Q
  else U.

(** One iteration of the MFIter loop, lines 73-197, on the arrays of
    the tile and the running [reduce_data]. *)
Definition react_tile (dt : Real) (bx : Box)
    (st : Array4 * Array4 * Real) : result (Array4 * Array4 * Real) :=
  let '(U, reactions, reduce_data) := st in
  '(reduce_data, reactions) ←
    (if (level <=? reactions_max_solve_level)%Z
     then ReduceOpSum_eval bx (react_kernel U dt) (reduce_data, reactions)
     else Ok (reduce_data, reactions));
  let U := ParallelFor bx (update_kernel reactions dt) U in
  Ok (U, reactions, reduce_data).

Definition react_mfi (dt : Real) (st : MultiFab * MultiFab * Real)
    (mfi : nat * Box) : result (MultiFab * MultiFab * Real) :=
  let '(s, r, reduce_data) := st in
  let '(idx, bx) := mfi in
  U ← mf_array s idx;
  reactions ← mf_array r idx;
  '(U, reactions, reduce_data) ←
    react_tile dt bx (U, reactions, reduce_data);
  Ok (mf_store s idx U, mf_store r idx reactions, reduce_data).

(** Lines 53-204 on one rank: the arrays after the loop and the
    rank's [burn_success] before the reduction over the ranks. *)
Definition react_rank (time dt : Real) (rk : Rank) : result (Rank * Z) :=
  let burn_success := 1%Z in
  let r :=
    if (level >? reactions_max_solve_level)%Z && (level >? 0)%Z
    then FillCoarsePatch (r rk) time else r rk in
  '(s, r, reduce_data) ← foldM (react_mfi dt) (mfiter rk) (s rk, r, 0%Q);
  let burn_failed := reduce_data in
  let burn_success :=
    if real_ne burn_failed 0 then 0%Z else burn_success in
  Ok ({| s := s; r := r; mfiter := mfiter rk |}, burn_success).

(** The two early exits, lines 33-51. *)
Definition skip_rank (rk : Rank) : Rank :=
  {| s := s rk; r := setVal (r rk) 0 (nGrow (r rk)); mfiter := mfiter rk |}.

Definition react_state (rk : Rank) (peers : list Rank) (time dt : Real)
  : result Outcome :=
  if bool_decide (time_integration_method <> CornerTransportUpwind)
  then Err ConfigError else
  let burn_success := 1%Z in
  if bool_decide (do_react <> 1%Z) then
    Ok {| ranks_out := map skip_rank (rk :: peers);
          burn_success := int_to_bool burn_success;
          e_added_printed := None |}
  else
  valid ← valid_zones_to_burn (s rk) (map s peers);
  if negb valid then
    Ok {| ranks_out := map skip_rank (rk :: peers);
          burn_success := int_to_bool burn_success;
          e_added_printed := None |}
  else
  '(rk', burn_success) ← react_rank time dt rk;
  peers' ← mapM (react_rank time dt) peers;
  let burn_success := ReduceIntMin burn_success (map snd peers') in
  let printed :=
    if print_update_diagnostics then
      let e_added :=
        ReduceRealSum (mf_sum_local (r rk') (NumSpec + 1))
          (map (fun o => mf_sum_local (r (fst o)) (NumSpec + 1)) peers') in
      if real_ne e_added 0 then Some e_added else None
    else None in
  Ok {| ranks_out := rk' :: map fst peers';
        burn_success := int_to_bool burn_success;
        e_added_printed := printed |}.

End Coupler.

End Strang.

(** ** The simplified-SDC coupler: Castro::react_state(time, dt)
    (compiled under SIMPLIFIED_SDC) *)

Module SDC.

(** The fields of [burn_t] the simplified-SDC coupler touches. *)
Record burn_t : Type := {
  y : nat -> Real;
  ydot_a : nat -> Real;
  T : Real;
  rho : Real;
  T_from_eden : bool;
  i : Z;
  j : Z;
  k : Z;
  sdc_iter : Z;
  num_sdc_iters : Z;
  Iq_aux : nat -> Real;
  Iq_rhoe : Real;
  success : bool;
  n_rhs : Z;
  n_jac : Z
}.

Definition set_y (b : burn_t) (n : nat) (v : Real) : burn_t :=
  {| y := upd (y b) n v; ydot_a := ydot_a b; T := T b; rho := rho b;
     T_from_eden := T_from_eden b; i := i b; j := j b; k := k b;
     sdc_iter := sdc_iter b; num_sdc_iters := num_sdc_iters b;
     Iq_aux := Iq_aux b; Iq_rhoe := Iq_rhoe b; success := success b;
     n_rhs := n_rhs b; n_jac := n_jac b |}.
Definition set_ydot_a (b : burn_t) (n : nat) (v : Real) : burn_t :=
  {| y := y b; ydot_a := upd (ydot_a b) n v; T := T b; rho := rho b;
     T_from_eden := T_from_eden b; i := i b; j := j b; k := k b;
     sdc_iter := sdc_iter b; num_sdc_iters := num_sdc_iters b;
     Iq_aux := Iq_aux b; Iq_rhoe := Iq_rhoe b; success := success b;
     n_rhs := n_rhs b; n_jac := n_jac b |}.
Definition set_T (b : burn_t) (v : Real) : burn_t :=
  {| y := y b; ydot_a := ydot_a b; T := v; rho := rho b;
     T_from_eden := T_from_eden b; i := i b; j := j b; k := k b;
     sdc_iter := sdc_iter b; num_sdc_iters := num_sdc_iters b;
     Iq_aux := Iq_aux b; Iq_rhoe := Iq_rhoe b; success := success b;
     n_rhs := n_rhs b; n_jac := n_jac b |}.
Definition set_rho (b : burn_t) (v : Real) : burn_t :=
  {| y := y b; ydot_a := ydot_a b; T := T b; rho := v;
     T_from_eden := T_from_eden b; i := i b; j := j b; k := k b;
     sdc_iter := sdc_iter b; num_sdc_iters := num_sdc_iters b;
     Iq_aux := Iq_aux b; Iq_rhoe := Iq_rhoe b; success := success b;
     n_rhs := n_rhs b; n_jac := n_jac b |}.
Definition set_T_from_eden (b : burn_t) (v : bool) : burn_t :=
  {| y := y b; ydot_a := ydot_a b; T := T b; rho := rho b;
     T_from_eden := v; i := i b; j := j b; k := k b;
     sdc_iter := sdc_iter b; num_sdc_iters := num_sdc_iters b;
     Iq_aux := Iq_aux b; Iq_rhoe := Iq_rhoe b; success := success b;
     n_rhs := n_rhs b; n_jac := n_jac b |}.
Definition set_i (b : burn_t) (v : Z) : burn_t :=
  {| y := y b; ydot_a := ydot_a b; T := T b; rho := rho b;
     T_from_eden := T_from_eden b; i := v; j := j b; k := k b;
     sdc_iter := sdc_iter b; num_sdc_iters := num_sdc_iters b;
     Iq_aux := Iq_aux b; Iq_rhoe := Iq_rhoe b; success := success b;
     n_rhs := n_rhs b; n_jac := n_jac b |}.
Definition set_j (b : burn_t) (v : Z) : burn_t :=
  {| y := y b; ydot_a := ydot_a b; T := T b; rho := rho b;
     T_from_eden := T_from_eden b; i := i b; j := v; k := k b;
     sdc_iter := sdc_iter b; num_sdc_iters := num_sdc_iters b;
     Iq_aux := Iq_aux b; Iq_rhoe := Iq_rhoe b; success := success b;
     n_rhs := n_rhs b; n_jac := n_jac b |}.
Definition set_k (b : burn_t) (v : Z) : burn_t :=
  {| y := y b; ydot_a := ydot_a b; T := T b; rho := rho b;
     T_from_eden := T_from_eden b; i := i b; j := j b; k := v;
     sdc_iter := sdc_iter b; num_sdc_iters := num_sdc_iters b;
     Iq_aux := Iq_aux b; Iq_rhoe := Iq_rhoe b; success := success b;
     n_rhs := n_rhs b; n_jac := n_jac b |}.
Definition set_sdc_iter (b : burn_t) (v : Z) : burn_t :=
  {| y := y b; ydot_a := ydot_a b; T := T b; rho := rho b;
     T_from_eden := T_from_eden b; i := i b; j := j b; k := k b;
     sdc_iter := v; num_sdc_iters := num_sdc_iters b; Iq_aux := Iq_aux b;
     Iq_rhoe := Iq_rhoe b; success := success b; n_rhs := n_rhs b;
     n_jac := n_jac b |}.
Definition set_num_sdc_iters (b : burn_t) (v : Z) : burn_t :=
  {| y := y b; ydot_a := ydot_a b; T := T b; rho := rho b;
     T_from_eden := T_from_eden b; i := i b; j := j b; k := k b;
     sdc_iter := sdc_iter b; num_sdc_iters := v; Iq_aux := Iq_aux b;
     Iq_rhoe := Iq_rhoe b; success := success b; n_rhs := n_rhs b;
     n_jac := n_jac b |}.
Definition set_Iq_aux (b : burn_t) (n : nat) (v : Real) : burn_t :=
  {| y := y b; ydot_a := ydot_a b; T := T b; rho := rho b;
     T_from_eden := T_from_eden b; i := i b; j := j b; k := k b;
     sdc_iter := sdc_iter b; num_sdc_iters := num_sdc_iters b;
     Iq_aux := upd (Iq_aux b) n v; Iq_rhoe := Iq_rhoe b;
     success := success b; n_rhs := n_rhs b; n_jac := n_jac b |}.
Definition set_Iq_rhoe (b : burn_t) (v : Real) : burn_t :=
  {| y := y b; ydot_a := ydot_a b; T := T b; rho := rho b;
     T_from_eden := T_from_eden b; i := i b; j := j b; k := k b;
     sdc_iter := sdc_iter b; num_sdc_iters := num_sdc_iters b;
     Iq_aux := Iq_aux b; Iq_rhoe := v; success := success b;
     n_rhs := n_rhs b; n_jac := n_jac b |}.
Definition set_success (b : burn_t) (v : bool) : burn_t :=
  {| y := y b; ydot_a := ydot_a b; T := T b; rho := rho b;
     T_from_eden := T_from_eden b; i := i b; j := j b; k := k b;
     sdc_iter := sdc_iter b; num_sdc_iters := num_sdc_iters b;
     Iq_aux := Iq_aux b; Iq_rhoe := Iq_rhoe b; success := v;
     n_rhs := n_rhs b; n_jac := n_jac b |}.
Definition set_n_rhs (b : burn_t) (v : Z) : burn_t :=
  {| y := y b; ydot_a := ydot_a b; T := T b; rho := rho b;
     T_from_eden := T_from_eden b; i := i b; j := j b; k := k b;
     sdc_iter := sdc_iter b; num_sdc_iters := num_sdc_iters b;
     Iq_aux := Iq_aux b; Iq_rhoe := Iq_rhoe b; success := success b;
     n_rhs := v; n_jac := n_jac b |}.
Definition set_n_jac (b : burn_t) (v : Z) : burn_t :=
  {| y := y b; ydot_a := ydot_a b; T := T b; rho := rho b;
     T_from_eden := T_from_eden b; i := i b; j := j b; k := k b;
     sdc_iter := sdc_iter b; num_sdc_iters := num_sdc_iters b;
     Iq_aux := Iq_aux b; Iq_rhoe := Iq_rhoe b; success := success b;
     n_rhs := n_rhs b; n_jac := v |}.

Arguments set_y b n%_nat v%_Q.
Arguments set_ydot_a b n%_nat v%_Q.
Arguments set_T b v%_Q.
Arguments set_rho b v%_Q.
Arguments set_i b v%_Z.
Arguments set_j b v%_Z.
Arguments set_k b v%_Z.
Arguments set_sdc_iter b v%_Z.
Arguments set_num_sdc_iters b v%_Z.
Arguments set_Iq_aux b n%_nat v%_Q.
Arguments set_Iq_rhoe b v%_Q.
Arguments set_n_rhs b v%_Z.
Arguments set_n_jac b v%_Z.

(** What one rank holds: the old and new state data, the non-reacting
    sources [A_src] as [sum_of_sources] fills them, the new reactions
    data, the reactive sources [SDC_react_new] (read under NSE_THERMO),
    and the tiles of [MFIter(S_new, TilingIfNotGPU())]. *)
Record Rank : Type := {
  S_old : MultiFab;
  S_new : MultiFab;
  A_src : MultiFab;
  reactions : MultiFab;
  SDC_react_new : MultiFab;
  mfiter : list (nat * Box)
}.

Record Outcome : Type := {
  ranks_out : list Rank;
  burn_success : bool;
  e_added_printed : option Real
}.

Section Coupler.
Context {bld : Build} {par : Params}.
Variable burner : burn_t -> Real -> burn_t.
Variable burn_state_decl : burn_t.
(** [S_new.FillBoundary(geom.periodicity())]: the new contents of one
    rank's [S_new], given the [S_new] of every rank. *)
Variable FillBoundary : list MultiFab -> MultiFab -> MultiFab.

(** The kernel of the reduction, lines 329-455; it writes to [U_new]
    and to [react_src]. *)
Definition react_kernel (U_old asrc Iq : Array4) (lsdc_iteration : Z)
    (dt : Real) (c : Cell) (mem : Array4 * Array4)
  : result (Real * (Array4 * Array4)) :=
  let '(U_new, react_src) := mem in
  let burn_state := burn_state_decl in
  let do_burn := true in
  let burn_state := set_success burn_state true in
  let burn_failed := 0%Q in
  let do_burn :=
    if SHOCK_VAR && (real_gt (a_val U_new c USHK) 0
                     && (disable_shock_burning =? 1)%Z)
    then false else do_burn in
  let burn_state := set_y burn_state SRHO (a_val U_old c URHO) in
  let burn_state := set_y burn_state SMX (a_val U_old c UMX) in
  let burn_state := set_y burn_state SMY (a_val U_old c UMY) in
  let burn_state := set_y burn_state SMZ (a_val U_old c UMZ) in
  let burn_state := set_y burn_state SEDEN (a_val U_old c UEDEN) in
  let burn_state := set_y burn_state SEINT (a_val U_old c UEINT) in
  let burn_state :=
    for_loop NumSpec (fun n burn_state =>
      set_y burn_state (SFS + n) (a_val U_old c (UFS + n))) burn_state in
  let burn_state :=
    for_loop NumAux (fun n burn_state =>
      set_y burn_state (SFX + n) (a_val U_old c (UFX + n))) burn_state in
  let burn_state :=
    if NSE_THERMO then
      let burn_state :=
        for_loop NumAux (fun n burn_state =>
          set_Iq_aux burn_state n (a_val Iq c (QFX + n))) burn_state in
      set_Iq_rhoe burn_state (a_val Iq c QREINT)
    else burn_state in
  let burn_state := set_T burn_state (a_val U_old c UTEMP) in
  let burn_state := set_rho burn_state (y burn_state SRHO) in
  let do_burn :=
    if real_lt (a_val U_old c UTEMP) react_T_min
       || real_gt (a_val U_old c UTEMP) react_T_max
       || real_lt (a_val U_old c URHO) react_rho_min
       || real_gt (a_val U_old c URHO) react_rho_max
    then false else do_burn in
  let burn_state := set_ydot_a burn_state SRHO (a_val asrc c URHO) in
  let burn_state := set_ydot_a burn_state SMX (a_val asrc c UMX) in
  let burn_state := set_ydot_a burn_state SMY (a_val asrc c UMY) in
  let burn_state := set_ydot_a burn_state SMZ (a_val asrc c UMZ) in
  let burn_state := set_ydot_a burn_state SEDEN (a_val asrc c UEDEN) in
  let burn_state := set_ydot_a burn_state SEINT (a_val asrc c UEINT) in
  let burn_state :=
    for_loop NumSpec (fun n burn_state =>
      set_ydot_a burn_state (SFS + n) (a_val asrc c (UFS + n)))
      burn_state in
  let burn_state :=
    for_loop NumAux (fun n burn_state =>
      set_ydot_a burn_state (SFX + n) (a_val asrc c (UFX + n)))
      burn_state in
  let burn_state := set_T_from_eden burn_state false in
  let burn_state := set_i burn_state (c.1.1) in
  let burn_state := set_j burn_state (c.1.2) in
  let burn_state := set_k burn_state (c.2) in
  let burn_state := set_sdc_iter burn_state lsdc_iteration in
  let burn_state := set_num_sdc_iters burn_state sdc_iters in
  let burn_state := if do_burn then burner burn_state dt else burn_state in
  let burn_failed :=
    if negb (success burn_state) then 1%Q else burn_failed in
  '(U_new, react_src) ←
    (if do_burn then
       let U_new := awrite U_new c UEDEN (y burn_state SEDEN) in
       let U_new := awrite U_new c UEINT (y burn_state SEINT) in
       let U_new :=
         for_loop NumSpec (fun n U_new =>
           awrite U_new c (UFS + n) (y burn_state (SFS + n))) U_new in
       let U_new :=
         for_loop NumAux (fun n U_new =>
           awrite U_new c (UFX + n) (y burn_state (SFX + n))) U_new in
       if contains react_src c then
         react_src ← for_loopM NumSpec (fun n react_src =>
           v ← real_div (a_val U_new c (UFS + n)
                         - a_val U_old c (UFS + n))%Q dt;
           Ok (awrite react_src c n v)) react_src;
         react_src ← for_loopM NumAux (fun n react_src =>
           v ← real_div (a_val U_new c (UFX + n)
                         - a_val U_old c (UFX + n))%Q dt;
           Ok (awrite react_src c (n + NumSpec) v)) react_src;
         v ← real_div (a_val U_new c UEINT - a_val U_old c UEINT)%Q dt;
         let react_src := awrite react_src c (NumSpec + NumAux) v in
         Ok (U_new,
             awrite react_src c (NumSpec + NumAux + 1)
               (amrex_max 1
                  (inject_Z (int_add (n_rhs burn_state)
                               (int_mul 2 (n_jac burn_state))))))
       else Ok (U_new, react_src)
     else Ok (U_new, react_src));
  Ok (burn_failed, (U_new, react_src)).

(** One iteration of the MFIter loop, lines 314-457. *)
Definition react_mfi (S_old A_src SDC_react_new : MultiFab) (dt : Real)
    (st : MultiFab * MultiFab * Real) (mfi : nat * Box)
  : result (MultiFab * MultiFab * Real) :=
  let '(S_new, reactions, reduce_data) := st in
  let '(idx, bx) := mfi in
  U_old ← mf_array S_old idx;
  U_new ← mf_array S_new idx;
  asrc ← mf_array A_src idx;
  react_src ← mf_array reactions idx;
  (* [Iq] exists under NSE_THERMO only *)
  Iq ← (if NSE_THERMO then mf_array SDC_react_new idx else Ok no_view);
  let lsdc_iteration := sdc_iteration in
  '(reduce_data, (U_new, react_src)) ←
    ReduceOpSum_eval bx (react_kernel U_old asrc Iq lsdc_iteration dt)
      (reduce_data, (U_new, react_src));
  Ok (mf_store S_new idx U_new, mf_store reactions idx react_src,
      reduce_data).

(** Lines 302-462 on one rank. *)
Definition react_rank (dt : Real) (rk : Rank) : result (Rank * Z) :=
  let reactions := setVal (reactions rk) 0 (nGrow (reactions rk)) in
  let burn_success := 1%Z in
  '(S_new, reactions, reduce_data) ←
    foldM (react_mfi (S_old rk) (A_src rk) (SDC_react_new rk) dt)
      (mfiter rk) (S_new rk, reactions, 0%Q);
  let burn_failed := reduce_data in
  let burn_success :=
    if real_ne burn_failed 0 then 0%Z else burn_success in
  Ok ({| S_old := S_old rk; S_new := S_new; A_src := A_src rk;
         reactions := reactions; SDC_react_new := SDC_react_new rk;
         mfiter := mfiter rk |}, burn_success).

(** Lines 466-468 on every rank: [ng] is [S_new.nGrow()]. *)
Definition fill_boundary (rks : list Rank) : list Rank :=
  map (fun rk =>
    if (nGrow (S_new rk) >? 0)%Z then
      {| S_old := S_old rk;
         S_new := FillBoundary (map S_new rks) (S_new rk);
         A_src := A_src rk; reactions := reactions rk;
         SDC_react_new := SDC_react_new rk; mfiter := mfiter rk |}
    else rk) rks.

Definition react_state (rk : Rank) (peers : list Rank) (time dt : Real)
  : result Outcome :=
  if bool_decide (time_integration_method
                  <> SimplifiedSpectralDeferredCorrections)
  then Err ConfigError else
  '(rk', burn_success) ← react_rank dt rk;
  peers' ← mapM (react_rank dt) peers;
  let burn_success := ReduceIntMin burn_success (map snd peers') in
  let rks := fill_boundary (rk' :: map fst peers') in
  let printed :=
    if print_update_diagnostics then
      let e_added :=
        ReduceRealSum (mf_sum_local (reactions rk') (NumSpec + 1))
          (map (fun o => mf_sum_local (reactions (fst o)) (NumSpec + 1))
             peers') in
      if real_ne e_added 0 then Some e_added else None
    else None in
  Ok {| ranks_out := rks;
        burn_success := if int_to_bool burn_success then true else false;
        e_added_printed := printed |}.

End Coupler.

End SDC.

(** ** Derived notions for the zone gate *)

Section ZoneGateNotions.
Context {bld : Build} {par : Params}.

(** The extremes of a component over the valid cells of all ranks. *)
Definition global_min (comp : nat) (State : MultiFab) (peers : list MultiFab)
  : Real :=
  fold_left amrex_min (map (fun S => mf_min_local S comp) peers)
    (mf_min_local State comp).
Definition global_max (comp : nat) (State : MultiFab) (peers : list MultiFab)
  : Real :=
  fold_left amrex_max (map (fun S => mf_max_local S comp) peers)
    (mf_max_local State comp).

(** The composite overlap test on the globally reduced extremes. *)
Definition overlap_test (State : MultiFab) (peers : list MultiFab) : bool :=
  real_ge (global_max URHO State peers) react_rho_min
  && real_le (global_min URHO State peers) react_rho_max
  && real_ge (global_max UTEMP State peers) react_T_min
  && real_le (global_min UTEMP State peers) react_T_max.

(** The values the code compares: a reduced extreme where the limiter
    that collects it is active, the default otherwise. *)
Definition compared_smalldens (State : MultiFab) (peers : list MultiFab) :=
  if limit_small_rho then global_min URHO State peers else small.
Definition compared_largedens (State : MultiFab) (peers : list MultiFab) :=
  if limit_large_rho then global_max URHO State peers else large.
Definition compared_small_T (State : MultiFab) (peers : list MultiFab) :=
  if limit_small_T then global_min UTEMP State peers else small.
Definition compared_large_T (State : MultiFab) (peers : list MultiFab) :=
  if limit_large_T then global_max UTEMP State peers else large.

Definition compared_overlap_test (State : MultiFab) (peers : list MultiFab)
  : bool :=
  real_ge (compared_largedens State peers) react_rho_min
  && real_le (compared_smalldens State peers) react_rho_max
  && real_ge (compared_large_T State peers) react_T_min
  && real_le (compared_small_T State peers) react_T_max.

End ZoneGateNotions.

(** ** Derived notions for the Strang coupler

    The values of the locals of the Strang kernel at a cell, as
    functions of the state vector [u] of the cell ([u n] is
    [U(i,j,k,n)]). *)

Section StrangNotions.
Context {bld : Build} {par : Params}.
Variable burner : Strang.burn_t -> Real -> Strang.burn_t.
Variable burn_state_decl : Strang.burn_t.

(** [do_burn] after the shock test and the window test *)
Definition strang_do_burn (u : nat -> Real) : bool :=
  negb (SHOCK_VAR && (real_gt (u USHK) 0 && (disable_shock_burning =? 1)%Z))
  && negb (real_lt (u UTEMP) react_T_min || real_gt (u UTEMP) react_T_max
           || real_lt (u URHO) react_rho_min
           || real_gt (u URHO) react_rho_max).

(** [burn_state] as it is handed to the integrator *)
Definition strang_state_in (u : nat -> Real) : Strang.burn_t :=
  {| Strang.rho := u URHO;
     Strang.T := u UTEMP;
     Strang.e := 0;
     Strang.xn :=
       for_loop NumSpec (fun n xn => upd xn n (u (UFS + n) * (1 / u URHO)))
         (Strang.xn burn_state_decl);
     Strang.aux :=
       for_loop NumAux (fun n aux => upd aux n (u (UFX + n) * (1 / u URHO)))
         (Strang.aux burn_state_decl);
     Strang.success := true;
     Strang.n_rhs := 0;
     Strang.n_jac := 0 |}.

(** [burn_state] after the conditional call of the integrator *)
Definition strang_state_out (u : nat -> Real) (dt : Real) : Strang.burn_t :=
  if strang_do_burn u then burner (strang_state_in u) dt
  else strang_state_in u.

(** the cell reports an integrator failure *)
Definition strang_cell_failed (u : nat -> Real) (dt : Real) : bool :=
  negb (Strang.success (strang_state_out u dt)).

(** the divisions of the kernel at a cell have nonzero divisors;
    [inside] tells whether the cell lies inside the rate array *)
Definition strang_cell_defined (u : nat -> Real) (dt : Real) (inside : bool)
  : Prop :=
  ~ (u URHO == 0)%Q
  /\ (~ (dt == 0)%Q \/ strang_do_burn u && inside = false).

(** the value the kernel contributes to the reduction *)
Definition strang_burn_failed (u : nat -> Real) (dt : Real) : Real :=
  if strang_cell_failed u dt then 1 else 0.

(** what the kernel leaves in component [n] of the rates of a cell
    inside the rate array, where [old] was stored *)
Definition strang_rate (u : nat -> Real) (dt : Real) (n : nat) (old : Real)
  : Real :=
  let out := strang_state_out u dt in
  if strang_do_burn u then
    if (n <? NumSpec)%nat then
      u URHO * (Strang.xn out n - u (UFS + n) * (1 / u URHO)) / dt
    else if (n <? NumSpec + NumAux)%nat then
      u URHO * (Strang.aux out (n - NumSpec)
                - u (UFX + (n - NumSpec)) * (1 / u URHO)) / dt
    else if (n =? NumSpec + NumAux)%nat then
      u URHO * Strang.e out / dt
    else if (n =? NumSpec + NumAux + 1)%nat then
      amrex_max 1
        (inject_Z (int_add (Strang.n_rhs out) (int_mul 2 (Strang.n_jac out))))
    else old
  else
    if (n <? NumSpec + NumAux + 1)%nat then 0
    else if (n =? NumSpec + NumAux + 1)%nat then 1
    else old.

(** what the update kernel leaves in component [n] of the state of a
    cell inside both arrays, where [old] was stored, given the rates
    [rt] of the cell *)
Definition strang_updated (rt : nat -> Real) (dt : Real) (n : nat)
    (old : Real) : Real :=
  if ((UFS <=? n) && (n <? UFS + NumSpec))%nat then
    old + rt (n - UFS)%nat * dt
  else if ((UFX <=? n) && (n <? UFX + NumAux))%nat then
    old + rt (n - UFX + NumSpec)%nat * dt
  else if ((n =? UEINT) || (n =? UEDEN))%nat then
    old + rt (NumSpec + NumAux)%nat * dt
  else old.

End StrangNotions.

(** The ordering of the state components: the seven hydrodynamic slots
    come first, then the species, then the auxiliaries, and the shock
    flag, when the build has one, comes last. *)
Definition layout_ok {bld : Build} : Prop :=
  NoDup [URHO; UMX; UMY; UMZ; UEDEN; UEINT; UTEMP]
  /\ (URHO < UFS /\ UMX < UFS /\ UMY < UFS /\ UMZ < UFS
      /\ UEDEN < UFS /\ UEINT < UFS /\ UTEMP < UFS)%nat
  /\ (UFS + NumSpec <= UFX)%nat
  /\ (SHOCK_VAR = true -> (UFX + NumAux <= USHK)%nat).

(** The values of FAB [idx] of a MultiFab (0 when the rank has no such
    FAB): [mf_val mf idx c n] is component [n] of cell [c]. *)
Definition mf_val (mf : MultiFab) (idx : nat) : Cell -> nat -> Real :=
  match fabs mf !! idx with
  | Some f => fab_val f
  | None => fun _ _ => 0%Q
  end.

(** [c] lies in the allocated region of FAB [idx]. *)
Definition mf_contains (mf : MultiFab) (idx : nat) (c : Cell) : bool :=
  match fabs mf !! idx with
  | Some f => box_contains (fabbox mf f) c
  | None => false
  end.

(** Two MultiFabs over the same boxes with the same ghost width and
    number of components. *)
Definition mf_same_shape (mf mf' : MultiFab) : Prop :=
  nGrow mf' = nGrow mf /\ nComp mf' = nComp mf
  /\ map validbox (fabs mf') = map validbox (fabs mf).

(** The tiles of an iterator never share a cell of a FAB. *)
Definition tile_cells (tiles : list (nat * Box)) : list (nat * Cell) :=
  flat_map (fun '(idx, bx) => map (fun c => (idx, c)) (box_cells bx)) tiles.
Definition tiles_disjoint (tiles : list (nat * Box)) : Prop :=
  NoDup (tile_cells tiles).

(** ** Derived notions for the simplified-SDC coupler

    The values of the locals of the SDC kernel at a cell, as functions
    of the vectors of the cell in the old state ([uo]), the new state
    ([un]), the non-reacting sources ([va]) and the reactive sources
    ([vq]). *)

Section SDCNotions.
Context {bld : Build} {par : Params}.
Variable burner : SDC.burn_t -> Real -> SDC.burn_t.
Variable burn_state_decl : SDC.burn_t.

(** [do_burn] after the shock test and the window test *)
Definition sdc_do_burn (uo un : nat -> Real) : bool :=
  negb (SHOCK_VAR && (real_gt (un USHK) 0 && (disable_shock_burning =? 1)%Z))
  && negb (real_lt (uo UTEMP) react_T_min || real_gt (uo UTEMP) react_T_max
           || real_lt (uo URHO) react_rho_min
           || real_gt (uo URHO) react_rho_max).

(** [burn_state] as it is handed to the integrator *)
Definition sdc_state_in (uo va vq : nat -> Real) (c : Cell)
    (lsdc_iteration : Z) : SDC.burn_t :=
  let burn_state := SDC.set_success burn_state_decl true in
  let burn_state := SDC.set_y burn_state SRHO (uo URHO) in
  let burn_state := SDC.set_y burn_state SMX (uo UMX) in
  let burn_state := SDC.set_y burn_state SMY (uo UMY) in
  let burn_state := SDC.set_y burn_state SMZ (uo UMZ) in
  let burn_state := SDC.set_y burn_state SEDEN (uo UEDEN) in
  let burn_state := SDC.set_y burn_state SEINT (uo UEINT) in
  let burn_state :=
    for_loop NumSpec (fun n burn_state =>
      SDC.set_y burn_state (SFS + n) (uo (UFS + n))) burn_state in
  let burn_state :=
    for_loop NumAux (fun n burn_state =>
      SDC.set_y burn_state (SFX + n) (uo (UFX + n))) burn_state in
  let burn_state :=
    if NSE_THERMO then
      let burn_state :=
        for_loop NumAux (fun n burn_state =>
          SDC.set_Iq_aux burn_state n (vq (QFX + n))) burn_state in
      SDC.set_Iq_rhoe burn_state (vq QREINT)
    else burn_state in
  let burn_state := SDC.set_T burn_state (uo UTEMP) in
  let burn_state := SDC.set_rho burn_state (SDC.y burn_state SRHO) in
  let burn_state := SDC.set_ydot_a burn_state SRHO (va URHO) in
  let burn_state := SDC.set_ydot_a burn_state SMX (va UMX) in
  let burn_state := SDC.set_ydot_a burn_state SMY (va UMY) in
  let burn_state := SDC.set_ydot_a burn_state SMZ (va UMZ) in
  let burn_state := SDC.set_ydot_a burn_state SEDEN (va UEDEN) in
  let burn_state := SDC.set_ydot_a burn_state SEINT (va UEINT) in
  let burn_state :=
    for_loop NumSpec (fun n burn_state =>
      SDC.set_ydot_a burn_state (SFS + n) (va (UFS + n))) burn_state in
  let burn_state :=
    for_loop NumAux (fun n burn_state =>
      SDC.set_ydot_a burn_state (SFX + n) (va (UFX + n))) burn_state in
  let burn_state := SDC.set_T_from_eden burn_state false in
  let burn_state := SDC.set_i burn_state (c.1.1) in
  let burn_state := SDC.set_j burn_state (c.1.2) in
  let burn_state := SDC.set_k burn_state (c.2) in
  let burn_state := SDC.set_sdc_iter burn_state lsdc_iteration in
  SDC.set_num_sdc_iters burn_state sdc_iters.

(** [burn_state] after the conditional call of the integrator *)
Definition sdc_state_out (uo un va vq : nat -> Real) (c : Cell) (dt : Real)
  : SDC.burn_t :=
  if sdc_do_burn uo un
  then burner (sdc_state_in uo va vq c sdc_iteration) dt
  else sdc_state_in uo va vq c sdc_iteration.

(** the cell reports an integrator failure *)
Definition sdc_cell_failed (uo un va vq : nat -> Real) (c : Cell) (dt : Real)
  : bool :=
  negb (SDC.success (sdc_state_out uo un va vq c dt)).

(** the value the kernel contributes to the reduction *)
Definition sdc_burn_failed (uo un va vq : nat -> Real) (c : Cell) (dt : Real)
  : Real :=
  if sdc_cell_failed uo un va vq c dt then 1 else 0.

(** what the kernel leaves in component [n] of the new state of a
    burned cell, where [old] was stored: the stores are made in the
    order total energy, internal energy, species, auxiliaries *)
Definition sdc_stored (out : SDC.burn_t) (n : nat) (old : Real) : Real :=
  if ((UFX <=? n) && (n <? UFX + NumAux))%nat then
    SDC.y out (SFX + (n - UFX))
  else if ((UFS <=? n) && (n <? UFS + NumSpec))%nat then
    SDC.y out (SFS + (n - UFS))
  else if (n =? UEINT)%nat then SDC.y out SEINT
  else if (n =? UEDEN)%nat then SDC.y out SEDEN
  else old.

(** The new state of a burned cell after the four groups of stores. *)
Definition sdc_stores (out : SDC.burn_t) (c : Cell) (U_new : Array4)
  : Array4 :=
  for_loop NumAux (fun n U_new =>
    awrite U_new c (UFX + n) (SDC.y out (SFX + n)))
    (for_loop NumSpec (fun n U_new =>
       awrite U_new c (UFS + n) (SDC.y out (SFS + n)))
       (awrite (awrite U_new c UEDEN (SDC.y out SEDEN)) c UEINT
          (SDC.y out SEINT))).

(** what the kernel leaves in component [n] of the rates of a burned
    cell inside the rate array, where [old] was stored; [un'] is the
    new state of the cell after the stores *)
Definition sdc_rate (uo un' : nat -> Real) (out : SDC.burn_t) (dt : Real)
    (n : nat) (old : Real) : Real :=
  if (n <? NumSpec)%nat then (un' (UFS + n) - uo (UFS + n)) / dt
  else if (n <? NumSpec + NumAux)%nat then
    (un' (UFX + (n - NumSpec)) - uo (UFX + (n - NumSpec))) / dt
  else if (n =? NumSpec + NumAux)%nat then (un' UEINT - uo UEINT) / dt
  else if (n =? NumSpec + NumAux + 1)%nat then
    amrex_max 1
      (inject_Z (int_add (SDC.n_rhs out) (int_mul 2 (SDC.n_jac out))))
  else old.

End SDCNotions.

(** ** Failure reports of a rank

    Some cell of some tile of the rank reports an integrator failure;
    the vectors of the cell are those of the arrays the call receives. *)

Definition strang_rank_failed {bld : Build} {par : Params}
    (burner : Strang.burn_t -> Real -> Strang.burn_t)
    (burn_state_decl : Strang.burn_t) (dt : Real) (rk : Strang.Rank) : bool :=
  existsb (fun ic =>
             strang_cell_failed burner burn_state_decl
               (mf_val (Strang.s rk) ic.1 ic.2) dt)
    (tile_cells (Strang.mfiter rk)).

Definition sdc_rank_failed {bld : Build} {par : Params}
    (burner : SDC.burn_t -> Real -> SDC.burn_t)
    (burn_state_decl : SDC.burn_t) (dt : Real) (rk : SDC.Rank) : bool :=
  existsb (fun ic =>
             sdc_cell_failed burner burn_state_decl
               (mf_val (SDC.S_old rk) ic.1 ic.2)
               (mf_val (SDC.S_new rk) ic.1 ic.2)
               (mf_val (SDC.A_src rk) ic.1 ic.2)
               (mf_val (SDC.SDC_react_new rk) ic.1 ic.2) ic.2 dt)
    (tile_cells (SDC.mfiter rk)).

(** ** What the SDC coupler does to the new state of one cell

    [S'] is the new state after the pass over the tiles of rank [rk];
    [uo], [un] are the vectors of cell [c] of FAB [idx] in the old and
    the new state the call receives, [out] is [burn_state] after the
    kernel's conditional call of the integrator. *)
Definition sdc_cell_frame {bld : Build} {par : Params}
    (burner : SDC.burn_t -> Real -> SDC.burn_t)
    (burn_state_decl : SDC.burn_t) (dt : Real) (rk : SDC.Rank)
    (S' : MultiFab) (idx : nat) (c : Cell) : Prop :=
  let uo := mf_val (SDC.S_old rk) idx c in
  let un := mf_val (SDC.S_new rk) idx c in
  let out :=
    sdc_state_out burner burn_state_decl uo un (mf_val (SDC.A_src rk) idx c)
      (mf_val (SDC.SDC_react_new rk) idx c) c dt in
  (* density and momentum are never written *)
  (mf_val S' idx c URHO = un URHO /\ mf_val S' idx c UMX = un UMX
   /\ mf_val S' idx c UMY = un UMY /\ mf_val S' idx c UMZ = un UMZ)
  (* a cell that is not burned keeps every component *)
  /\ (sdc_do_burn uo un = false \/ (idx, c) ∉ tile_cells (SDC.mfiter rk) ->
      forall n, mf_val S' idx c n = un n)
  (* a burned cell receives the integrator's energies and composition
     and keeps every other component *)
  /\ (sdc_do_burn uo un = true -> (idx, c) ∈ tile_cells (SDC.mfiter rk) ->
      mf_val S' idx c UEDEN = SDC.y out SEDEN
      /\ mf_val S' idx c UEINT = SDC.y out SEINT
      /\ (forall n, (n < NumSpec)%nat ->
            mf_val S' idx c (UFS + n) = SDC.y out (SFS + n))
      /\ (forall n, (n < NumAux)%nat ->
            mf_val S' idx c (UFX + n) = SDC.y out (SFX + n))
      /\ (forall n, n <> UEDEN -> n <> UEINT ->
            ~ (UFS <= n < UFS + NumSpec)%nat ->
            ~ (UFX <= n < UFX + NumAux)%nat ->
            mf_val S' idx c n = un n)).

(** ** The halo exchange

    [c] is a valid cell of FAB [idx]: a cell of the box the FAB owns,
    not a ghost cell. *)
Definition mf_valid (mf : MultiFab) (idx : nat) (c : Cell) : bool :=
  match fabs mf !! idx with
  | Some f => box_contains (validbox f) c
  | None => false
  end.

(** What is assumed of [FillBoundary]: it fills ghost cells and nothing
    else, so the boxes, the ghost width, the number of components and
    the values of the valid cells are the ones it was given. *)
Definition fills_ghost_cells_only
    (FillBoundary : list MultiFab -> MultiFab -> MultiFab) : Prop :=
  forall all mf,
    mf_same_shape mf (FillBoundary all mf)
    /\ forall idx c n,
        mf_valid mf idx c = true ->
        mf_val (FillBoundary all mf) idx c n = mf_val mf idx c n.
(** ** Valid zones

    [u] is the state vector of a valid cell (a cell of the valid box of
    a FAB, no ghost cell) of one of the [States], the states of the
    ranks. *)
Definition valid_zone (States : list MultiFab) (u : nat -> Real) : Prop :=
  exists S f c,
    S ∈ States /\ f ∈ fabs S /\ box_contains (validbox f) c = true
    /\ u = fab_val f c.


(** ** Concrete builds, parameters and grids

    The standard ordering of the conserved state (density, momenta,
    energies, temperature, species, auxiliaries, shock flag) and small
    grids on which the definitions are evaluated. *)

Definition castro_build (nspec naux : nat) (shock nse : bool) : Build := {|
  NumSpec := nspec;  NumAux := naux;
  SHOCK_VAR := shock;  NSE_THERMO := nse;
  URHO := 0;  UMX := 1;  UMY := 2;  UMZ := 3;
  UEDEN := 4;  UEINT := 5;  UTEMP := 6;
  UFS := 7;  UFX := 7 + nspec;  USHK := 7 + nspec + naux;
  SRHO := 0;  SMX := 1;  SMY := 2;  SMZ := 3;
  SEDEN := 4;  SEINT := 5;  SFS := 6;  SFX := 6 + nspec;
  QFX := 8;  QREINT := 7
|}.

Definition castro_params (method : TimeIntegrationMethod) (react : Z)
    (T_min T_max rho_min rho_max : Real) (diagnostics : bool) : Params := {|
  time_integration_method := method;
  do_react := react;
  level := 0;
  reactions_max_solve_level := 100;
  disable_shock_burning := 0;
  react_T_min := T_min;  react_T_max := T_max;
  react_rho_min := rho_min;  react_rho_max := rho_max;
  print_update_diagnostics := diagnostics;
  sdc_iteration := 0;  sdc_iters := 2
|}.

(** The default limiters: 0 and 1.e200. *)
Definition default_params (method : TimeIntegrationMethod) (diagnostics : bool)
  : Params :=
  castro_params method 1 0 1e200%Q 0 1e200%Q diagnostics.

(** A FAB whose cells all hold the same vector. *)
Definition uniform_fab (bx : Box) (u : nat -> Real) : FArrayBox :=
  {| validbox := bx; fab_val := fun _ n => u n |}.

(** A cell vector in the standard ordering: density, temperature, one
    value for every species and auxiliary slot, zero elsewhere. *)
Definition cell_vector (dens temp part : Real) : nat -> Real :=
  fun n =>
    match n with
    | 0 => dens
    | 1 | 2 | 3 | 4 | 5 => 0%Q
    | 6 => temp
    | _ => part
    end.

Definition one_cell : Box := {| smallEnd := (0, 0, 0)%Z; bigEnd := (0, 0, 0)%Z |}.
Definition two_cells : Box := {| smallEnd := (0, 0, 0)%Z; bigEnd := (1, 0, 0)%Z |}.

(** A state of one rank: one FAB of one cell, without ghost cells. *)
Definition one_cell_state (dens temp : Real) : MultiFab :=
  {| nGrow := 0; nComp := 9;
     fabs := [uniform_fab one_cell (cell_vector dens temp (dens / 2))] |}.

(** An integrator for the examples: it halves every mass fraction,
    releases the energy [3 * dt], counts five right-hand sides and one
    Jacobian, and fails on cells hotter than 100. *)
Definition toy_burner (b : Strang.burn_t) (dt : Real) : Strang.burn_t :=
  {| Strang.rho := Strang.rho b;
     Strang.T := Strang.T b;
     Strang.e := 3 * dt;
     Strang.xn := fun n => (Strang.xn b n / 2)%Q;
     Strang.aux := fun n => (Strang.aux b n / 2)%Q;
     Strang.success := negb (real_gt (Strang.T b) 100);
     Strang.n_rhs := 5;
     Strang.n_jac := 1 |}.

Definition blank_burn_state : Strang.burn_t :=
  {| Strang.rho := 0; Strang.T := 0; Strang.e := 0;
     Strang.xn := fun _ => 0%Q; Strang.aux := fun _ => 0%Q;
     Strang.success := false; Strang.n_rhs := 0; Strang.n_jac := 0 |}.

(** Two cells in a row: density 2 and temperature 10 in the first,
    density 4 and temperature 200 in the second. *)
Definition two_cell_values (c : Cell) : nat -> Real :=
  if (c.1.1 =? 0)%Z then cell_vector 2 10 1 else cell_vector 4 200 1.

Definition two_cell_U : Array4 := {| a_box := two_cells; a_val := two_cell_values |}.

(** A rate array over the same two cells that holds 7 everywhere. *)
Definition stale_rates : Array4 := {| a_box := two_cells; a_val := fun _ _ => 7%Q |}.

(** The same integrator for the SDC coupler: it adds [dt] times the
    non-reacting rate and 1 to every component of [y]. *)
Definition toy_sdc_burner (b : SDC.burn_t) (dt : Real) : SDC.burn_t :=
  SDC.set_n_jac
    (SDC.set_n_rhs
       (SDC.set_success
          {| SDC.y := fun n => (SDC.y b n + dt * SDC.ydot_a b n + 1)%Q;
             SDC.ydot_a := SDC.ydot_a b; SDC.T := SDC.T b;
             SDC.rho := SDC.rho b; SDC.T_from_eden := SDC.T_from_eden b;
             SDC.i := SDC.i b; SDC.j := SDC.j b; SDC.k := SDC.k b;
             SDC.sdc_iter := SDC.sdc_iter b;
             SDC.num_sdc_iters := SDC.num_sdc_iters b;
             SDC.Iq_aux := SDC.Iq_aux b; SDC.Iq_rhoe := SDC.Iq_rhoe b;
             SDC.success := SDC.success b; SDC.n_rhs := SDC.n_rhs b;
             SDC.n_jac := SDC.n_jac b |}
          (negb (real_gt (SDC.T b) 100))) 5) 1.

Definition blank_sdc_burn_state : SDC.burn_t :=
  {| SDC.y := fun _ => 0%Q; SDC.ydot_a := fun _ => 0%Q; SDC.T := 0;
     SDC.rho := 0; SDC.T_from_eden := true; SDC.i := 0; SDC.j := 0;
     SDC.k := 0; SDC.sdc_iter := 0; SDC.num_sdc_iters := 0;
     SDC.Iq_aux := fun _ => 0%Q; SDC.Iq_rhoe := 0; SDC.success := false;
     SDC.n_rhs := 0; SDC.n_jac := 0 |}.

(** The build of the examples: two species, no auxiliaries, no shock
    flag. *)
Definition demo_build : Build := castro_build 2 0 false false.

(** A state of two cells without ghost cells, and a stale rate array
    (species, species, energy, cost) over the same cells with [ng]
    ghost cells, holding 7 everywhere. *)
Definition demo_state : MultiFab :=
  {| nGrow := 0; nComp := 9;
     fabs := [{| validbox := two_cells; fab_val := two_cell_values |}] |}.
Definition demo_rates (ng : Z) : MultiFab :=
  {| nGrow := ng; nComp := 4;
     fabs := [{| validbox := two_cells; fab_val := fun _ _ => 7%Q |}] |}.
Definition demo_zero : MultiFab :=
  {| nGrow := 0; nComp := 9;
     fabs := [{| validbox := two_cells; fab_val := fun _ _ => 0%Q |}] |}.

Definition demo_rank (ng : Z) : Strang.Rank :=
  {| Strang.s := demo_state; Strang.r := demo_rates ng;
     Strang.mfiter := [(0%nat, two_cells)] |}.

Definition demo_sdc_rank : SDC.Rank :=
  {| SDC.S_old := demo_state; SDC.S_new := demo_state; SDC.A_src := demo_zero;
     SDC.reactions := demo_rates 0; SDC.SDC_react_new := demo_zero;
     SDC.mfiter := [(0%nat, two_cells)] |}.

(** The collaborators of the examples leave their argument alone. *)
Definition no_coarse_patch (r : MultiFab) (time : Real) : MultiFab := r.
Definition no_fill_boundary (all : list MultiFab) (mf : MultiFab) : MultiFab :=
  mf.

(** Only the upper density bound is set (to 5). *)
Definition rho_max_only : Params :=
  castro_params CornerTransportUpwind 1 0 1e200%Q 0 5%Q false.

(** Only the upper temperature bound is set. *)
Definition T_max_only : Params :=
  castro_params CornerTransportUpwind 1 0 1e9%Q 0 1e200%Q false.

(** Reactions switched off. *)
Definition no_react_params : Params :=
  castro_params CornerTransportUpwind 0 0 1e200%Q 0 1e200%Q false.

(** The SDC method with a window that starts at temperature 100. *)
Definition sdc_window_params : Params :=
  castro_params SimplifiedSpectralDeferredCorrections 1 100 1e200%Q 0 1e200%Q
    true.

(** The outcomes of the example calls. *)
Definition demo_strang_call (par : Params) (ng : Z) : result Strang.Outcome :=
  @Strang.react_state demo_build par toy_burner blank_burn_state
    no_coarse_patch (demo_rank ng) [] 0 (1 # 2).

Definition demo_sdc_call (par : Params) : result SDC.Outcome :=
  @SDC.react_state demo_build par toy_sdc_burner blank_sdc_burn_state
    no_fill_boundary demo_sdc_rank [] 0 (1 # 2).

(** The sum of a component of the rate arrays over the valid cells of
    all ranks. *)
Definition strang_rate_sum (rks : list Strang.Rank) (comp : nat) : Real :=
  Qsum (map (fun rk => mf_sum_local (Strang.r rk) comp) rks).
Definition sdc_rate_sum (rks : list SDC.Rank) (comp : nat) : Real :=
  Qsum (map (fun rk => mf_sum_local (SDC.reactions rk) comp) rks).
(** ** More examples *)

(** Both density bounds are set: the window is [1, 5]. *)
Definition rho_window_params : Params :=
  castro_params CornerTransportUpwind 1 0 1e200%Q 1 5%Q false.

(** All four bounds are set: temperature in [5, 100], density in
    [1, 50]. *)
Definition full_window_params : Params :=
  castro_params CornerTransportUpwind 1 5 100 1 50 false.

(** A level above [reactions_max_solve_level]: level 1, with only level
    0 solving its reactions. *)
Definition unsolved_level_params : Params := {|
  time_integration_method := CornerTransportUpwind;
  do_react := 1;
  level := 1;
  reactions_max_solve_level := 0;
  disable_shock_burning := 0;
  react_T_min := 0;  react_T_max := 1e200;
  react_rho_min := 0;  react_rho_max := 1e200;
  print_update_diagnostics := false;
  sdc_iteration := 0;  sdc_iters := 2
|}.

(** An integrator that fails on every cell and changes nothing else. *)
Definition failing_burner (b : Strang.burn_t) (dt : Real) : Strang.burn_t :=
  Strang.set_success b false.


(** ** A periodic domain with ghost cells *)

(** The periodic image of an index in the range [lo..hi]. *)
Definition wrap_index (lo hi i : Z) : Z :=
  (lo + (i - lo) mod (hi - lo + 1))%Z.

Definition periodic_image (b : Box) (c : Cell) : Cell :=
  let '(i, j, k) := c in
  let '(li, lj, lk) := smallEnd b in
  let '(hi, hj, hk) := bigEnd b in
  (wrap_index li hi i, wrap_index lj hj j, wrap_index lk hk k).

(** The halo exchange of a rank whose FABs each cover a whole periodic
    domain: a ghost cell takes the values of its periodic image among
    the valid cells of the FAB. *)
Definition periodic_fill (all : list MultiFab) (mf : MultiFab) : MultiFab :=
  {| nGrow := nGrow mf; nComp := nComp mf;
     fabs := map (fun f =>
       {| validbox := validbox f;
          fab_val := fun c n =>
            if box_contains (fabbox mf f) c
            then fab_val f (periodic_image (validbox f) c) n
            else fab_val f c n |}) (fabs mf) |}.

(** The two cells of the examples with one layer of ghost cells, which
    hold what [two_cell_values] gives them: the ghost cell (2, 0, 0)
    has density 4, its periodic image (0, 0, 0) has density 2. *)
Definition ghost_state : MultiFab :=
  {| nGrow := 1; nComp := 9;
     fabs := [{| validbox := two_cells; fab_val := two_cell_values |}] |}.
Definition ghost_zero : MultiFab :=
  {| nGrow := 1; nComp := 9;
     fabs := [{| validbox := two_cells; fab_val := fun _ _ => 0%Q |}] |}.

(** The tile is the grown tile box: the valid cells and their ghost
    cells. *)
Definition ghost_sdc_rank : SDC.Rank :=
  {| SDC.S_old := ghost_state; SDC.S_new := ghost_state;
     SDC.A_src := ghost_zero; SDC.reactions := demo_rates 0;
     SDC.SDC_react_new := ghost_zero;
     SDC.mfiter := [(0%nat, grow two_cells 1)] |}.

(** * Properties *)

(** ** Arithmetic and loops *)

Lemma real_div_ok x y : ~ (y == 0)%Q -> real_div x y = Ok (x / y)%Q.
Proof.
  intros H. unfold real_div. destruct (Qeq_bool y 0) eqn:E; [|done].
  apply Qeq_bool_eq in E. contradiction.
Qed.

Lemma real_div_zero x y : (y == 0)%Q -> real_div x y = Err DivideByZero.
Proof. intros H. unfold real_div. by rewrite (Qeq_eq_bool _ _ H). Qed.

Lemma for_loop_S {S} n (body : nat -> S -> S) s :
  for_loop (Datatypes.S n) body s = body n (for_loop n body s).
Proof. unfold for_loop. rewrite seq_S, fold_left_app. reflexivity. Qed.

Lemma foldM_app {S A} (f : S -> A -> result S) l1 l2 s :
  foldM f (l1 ++ l2) s = (s' ← foldM f l1 s; foldM f l2 s').
Proof.
  revert s; induction l1 as [|x l1 IH]; intros s; simpl; [done|].
  destruct (f s x); simpl; [apply IH|done].
Qed.

Lemma for_loopM_S {S} n (body : nat -> S -> result S) s :
  for_loopM (Datatypes.S n) body s = (s' ← for_loopM n body s; body n s').
Proof.
  unfold for_loopM. rewrite seq_S, foldM_app. simpl.
  destruct (foldM _ (seq 0 n) s); simpl; [|done].
  destruct (body n a); done.
Qed.

(** ** The zone gate *)

Section ZoneGateFacts.
Context {bld : Build} {par : Params}.

Lemma reduce_lookup {A} (f : Real -> Real -> Real) (L : A -> list Real)
    (m : A -> Real) (peers : list A) (v : list Real) (n : nat) (x : Real) :
  v !! n = Some x ->
  (forall S, L S !! n = Some (m S)) ->
  fold_left (fun a b => zip_with f a b) (map L peers) v !! n
  = Some (fold_left f (map m peers) x).
Proof.
  intros Hv HL. revert v x Hv.
  induction peers as [|S peers IH]; intros v x Hv; simpl; [done|].
  apply IH. rewrite lookup_zip_with, Hv, HL. done.
Qed.

Lemma reduce_length {A} (f : Real -> Real -> Real) (L : A -> list Real)
    (peers : list A) (v : list Real) :
  (forall S, length (L S) = length v) ->
  length (fold_left (fun a b => zip_with f a b) (map L peers) v) = length v.
Proof.
  intros HL. revert v HL.
  induction peers as [|S peers IH]; intros v HL; simpl; [done|].
  rewrite IH.
  - rewrite length_zip_with, HL. lia.
  - intros S'. rewrite length_zip_with, !HL. lia.
Qed.

Lemma vec_at_small0_rho State peers :
  limit_small_rho = true ->
  vec_at (ReduceRealMin (local_small_limiters State)
            (map local_small_limiters peers)) 0
  = Ok (global_min URHO State peers).
Proof.
  intros H. unfold vec_at, ReduceRealMin, global_min.
  erewrite (reduce_lookup amrex_min local_small_limiters
              (fun S => mf_min_local S URHO)); [done| |].
  - unfold local_small_limiters. rewrite H. by destruct limit_small_T.
  - intros S. unfold local_small_limiters. rewrite H.
    by destruct limit_small_T.
Qed.

Lemma vec_at_small1_T State peers :
  limit_small_rho = true -> limit_small_T = true ->
  vec_at (ReduceRealMin (local_small_limiters State)
            (map local_small_limiters peers)) 1
  = Ok (global_min UTEMP State peers).
Proof.
  intros H1 H2. unfold vec_at, ReduceRealMin, global_min.
  erewrite (reduce_lookup amrex_min local_small_limiters
              (fun S => mf_min_local S UTEMP)); [done| |].
  - unfold local_small_limiters. by rewrite H1, H2.
  - intros S. unfold local_small_limiters. by rewrite H1, H2.
Qed.

Lemma vec_at_small0_T State peers :
  limit_small_rho = false -> limit_small_T = true ->
  vec_at (ReduceRealMin (local_small_limiters State)
            (map local_small_limiters peers)) 0
  = Ok (global_min UTEMP State peers).
Proof.
  intros H1 H2. unfold vec_at, ReduceRealMin, global_min.
  erewrite (reduce_lookup amrex_min local_small_limiters
              (fun S => mf_min_local S UTEMP)); [done| |].
  - unfold local_small_limiters. by rewrite H1, H2.
  - intros S. unfold local_small_limiters. by rewrite H1, H2.
Qed.

Lemma vec_at_large0_rho State peers :
  limit_large_rho = true ->
  vec_at (ReduceRealMax (local_large_limiters State)
            (map local_large_limiters peers)) 0
  = Ok (global_max URHO State peers).
Proof.
  intros H. unfold vec_at, ReduceRealMax, global_max.
  erewrite (reduce_lookup amrex_max local_large_limiters
              (fun S => mf_max_local S URHO)); [done| |].
  - unfold local_large_limiters. rewrite H. by destruct limit_large_T.
  - intros S. unfold local_large_limiters. rewrite H.
    by destruct limit_large_T.
Qed.

Lemma vec_at_large1_T State peers :
  limit_large_rho = true -> limit_large_T = true ->
  vec_at (ReduceRealMax (local_large_limiters State)
            (map local_large_limiters peers)) 1
  = Ok (global_max UTEMP State peers).
Proof.
  intros H1 H2. unfold vec_at, ReduceRealMax, global_max.
  erewrite (reduce_lookup amrex_max local_large_limiters
              (fun S => mf_max_local S UTEMP)); [done| |].
  - unfold local_large_limiters. by rewrite H1, H2.
  - intros S. unfold local_large_limiters. by rewrite H1, H2.
Qed.

(** With only the large-temperature limiter pushed, the reduced vector
    has one element and the read at index 1 is past its end. *)
Lemma vec_at_large1_alone State peers :
  limit_large_rho = false -> limit_large_T = true ->
  vec_at (ReduceRealMax (local_large_limiters State)
            (map local_large_limiters peers)) 1
  = Err IndexOutOfRange.
Proof.
  intros H1 H2. unfold vec_at, ReduceRealMax.
  rewrite lookup_ge_None_2; [done|].
  rewrite reduce_length.
  - unfold local_large_limiters. rewrite H1, H2. simpl. lia.
  - intros S. unfold local_large_limiters. by rewrite H1, H2.
Qed.

Lemma gate_small_part State peers :
  (if (0 <? length (local_small_limiters State))%nat then
     let small_limiters :=
       ReduceRealMin (local_small_limiters State)
         (map local_small_limiters peers) in
     if limit_small_rho then
       smalldens ← vec_at small_limiters 0;
       if limit_small_T then
         small_T ← vec_at small_limiters 1;
         Ok (smalldens, small_T)
       else Ok (smalldens,
                if limit_small_T then mf_min_local State UTEMP else small)
     else
       small_T ← vec_at small_limiters 0;
       Ok (if limit_small_rho then mf_min_local State URHO else small,
           small_T)
   else Ok (if limit_small_rho then mf_min_local State URHO else small,
            if limit_small_T then mf_min_local State UTEMP else small))
  = Ok (compared_smalldens State peers, compared_small_T State peers).
Proof.
  unfold compared_smalldens, compared_small_T.
  destruct limit_small_rho eqn:H1, limit_small_T eqn:H2.
  - assert (length (local_small_limiters State) = 2%nat) as ->
      by (unfold local_small_limiters; by rewrite H1, H2).
    simpl. rewrite vec_at_small0_rho by done. simpl.
    rewrite vec_at_small1_T by done. done.
  - assert (length (local_small_limiters State) = 1%nat) as ->
      by (unfold local_small_limiters; by rewrite H1, H2).
    simpl. rewrite vec_at_small0_rho by done. done.
  - assert (length (local_small_limiters State) = 1%nat) as ->
      by (unfold local_small_limiters; by rewrite H1, H2).
    simpl. rewrite vec_at_small0_T by done. done.
  - assert (length (local_small_limiters State) = 0%nat) as ->
      by (unfold local_small_limiters; by rewrite H1, H2).
    done.
Qed.

Lemma valid_zones_to_burn_unlimited State peers :
  limit = false -> valid_zones_to_burn State peers = Ok true.
Proof. intros H. unfold valid_zones_to_burn. by rewrite H. Qed.

Lemma valid_zones_to_burn_in_range State peers :
  limit = true ->
  (limit_large_T = true -> limit_large_rho = true) ->
  valid_zones_to_burn State peers
  = Ok (compared_overlap_test State peers).
Proof.
  intros Hl Hin. unfold valid_zones_to_burn. rewrite Hl. simpl negb. cbv iota.
  cbv zeta. rewrite gate_small_part. simpl.
  unfold compared_overlap_test, compared_largedens, compared_large_T.
  destruct limit_large_rho eqn:H1, limit_large_T eqn:H2.
  - assert (length (local_large_limiters State) = 2%nat) as ->
      by (unfold local_large_limiters; by rewrite H1, H2).
    simpl. rewrite vec_at_large0_rho by done. simpl.
    rewrite vec_at_large1_T by done. simpl.
    by destruct (_ && _).
  - assert (length (local_large_limiters State) = 1%nat) as ->
      by (unfold local_large_limiters; by rewrite H1, H2).
    simpl. rewrite vec_at_large0_rho by done. simpl.
    by destruct (_ && _).
  - by specialize (Hin eq_refl).
  - assert (length (local_large_limiters State) = 0%nat) as ->
      by (unfold local_large_limiters; by rewrite H1, H2).
    simpl. by destruct (_ && _).
Qed.

Lemma valid_zones_to_burn_out_of_range State peers :
  limit_large_rho = false -> limit_large_T = true ->
  valid_zones_to_burn State peers = Err IndexOutOfRange.
Proof.
  intros H1 H2. unfold valid_zones_to_burn.
  assert (limit = true) as ->.
  { unfold limit, limit_T. rewrite H2. by rewrite !orb_true_r. }
  simpl negb. cbv iota. cbv zeta. rewrite gate_small_part. simpl.
  assert (length (local_large_limiters State) = 1%nat) as ->
    by (unfold local_large_limiters; by rewrite H1, H2).
  simpl. rewrite H1. rewrite vec_at_large1_alone by done. done.
Qed.

End ZoneGateFacts.

(** ** Arrays and boxes *)

Lemma for_loop_ext {S} n (body body' : nat -> S -> S) s :
  (forall i s, (i < n)%nat -> body i s = body' i s) ->
  for_loop n body s = for_loop n body' s.
Proof.
  induction n as [|n IH]; intros H; [done|].
  rewrite !for_loop_S, IH by (intros; apply H; lia). apply H. lia.
Qed.

Lemma for_loopM_pure {S} n (body : nat -> S -> result S)
    (body' : nat -> S -> S) s :
  (forall i s, (i < n)%nat -> body i s = Ok (body' i s)) ->
  for_loopM n body s = Ok (for_loop n body' s).
Proof.
  induction n as [|n IH]; intros H; [done|].
  rewrite for_loopM_S, for_loop_S, IH by (intros; apply H; lia).
  simpl. apply H. lia.
Qed.

Lemma ReduceOpSum_cells_cons {M} c cells
    (f : Cell -> M -> result (Real * M)) acc m :
  ReduceOpSum_cells (c :: cells) f (acc, m)
  = ('(v, m') ← f c m; ReduceOpSum_cells cells f ((acc + v)%Q, m')).
Proof.
  unfold ReduceOpSum_cells. cbn [foldM]. cbn [mbind result_bind].
  by destruct (f c m) as [[v m']|].
Qed.

Lemma a_val_awrite a c n v c' n' :
  a_val (awrite a c n v) c' n'
  = if bool_decide (c' = c) && (n' =? n)%nat then v else a_val a c' n'.
Proof. reflexivity. Qed.

Lemma a_box_for_loop n (body : nat -> Array4 -> Array4) a :
  (forall i a, a_box (body i a) = a_box a) ->
  a_box (for_loop n body a) = a_box a.
Proof.
  intros H. induction n as [|n IH]; [done|]. by rewrite for_loop_S, H.
Qed.

(** A loop that stores [g n] in component [b + n] of cell [c]. *)
Lemma a_val_for_loop_awrite N b (g : nat -> Real) a c c' m :
  a_val (for_loop N (fun n a => awrite a c (b + n) (g n)) a) c' m
  = if bool_decide (c' = c) && ((b <=? m) && (m <? b + N))%nat
    then g (m - b)%nat else a_val a c' m.
Proof.
  induction N as [|N IH].
  - unfold for_loop; simpl.
    replace ((b <=? m) && (m <? b + 0))%nat with false
      by (symmetry; apply andb_false_iff;
          rewrite Nat.leb_gt, Nat.ltb_ge; lia).
    by rewrite andb_false_r.
  - rewrite for_loop_S, a_val_awrite, IH.
    destruct (bool_decide (c' = c)); simpl; [|done].
    destruct (Nat.eqb_spec m (b + N)) as [->|Hne].
    + replace (b + N - b)%nat with N by lia.
      replace ((b <=? b + N) && (b + N <? b + S N))%nat with true; [done|].
      symmetry; apply andb_true_iff; rewrite Nat.leb_le, Nat.ltb_lt; lia.
    + destruct (Nat.leb_spec b m); simpl; [|done].
      destruct (Nat.ltb_spec m (b + N)), (Nat.ltb_spec m (b + S N));
        try done; lia.
Qed.

(** A loop that adds [g n] to component [b + n] of cell [c]. *)
Lemma a_val_for_loop_aadd N b (g : nat -> Real) a c c' m :
  a_val (for_loop N (fun n a => aadd a c (b + n) (g n)) a) c' m
  = if bool_decide (c' = c) && ((b <=? m) && (m <? b + N))%nat
    then (a_val a c m + g (m - b)%nat)%Q else a_val a c' m.
Proof.
  induction N as [|N IH].
  - unfold for_loop; simpl.
    replace ((b <=? m) && (m <? b + 0))%nat with false
      by (symmetry; apply andb_false_iff;
          rewrite Nat.leb_gt, Nat.ltb_ge; lia).
    by rewrite andb_false_r.
  - rewrite for_loop_S. unfold aadd at 1. rewrite a_val_awrite, IH.
    destruct (bool_decide_reflect (c' = c)) as [->|Hc]; simpl; [|done].
    destruct (Nat.eqb_spec m (b + N)) as [->|Hne].
    + replace (b + N - b)%nat with N by lia.
      replace ((b <=? b + N) && (b + N <? b + S N))%nat with true
        by (symmetry; apply andb_true_iff; rewrite Nat.leb_le, Nat.ltb_lt; lia).
      clear IH.
      assert (forall M, a_val (for_loop M (fun n a => aadd a c (b + n) (g n)) a)
                c (b + N)%nat
              = if (b + N <? b + M)%nat
                then (a_val a c (b + N)%nat + g N)%Q
                else a_val a c (b + N)%nat) as Hrd.
      { induction M as [|M IHM].
        - unfold for_loop; simpl.
          destruct (Nat.ltb_spec (b + N) (b + 0)); [lia|done].
        - rewrite for_loop_S. unfold aadd at 1. rewrite a_val_awrite.
          rewrite bool_decide_eq_true_2 by done. simpl.
          destruct (Nat.eqb_spec (b + N) (b + M)) as [He|He].
          + assert (N = M) as -> by lia. rewrite IHM.
            destruct (Nat.ltb_spec (b + M) (b + M)); [lia|].
            destruct (Nat.ltb_spec (b + M) (b + S M)); [done|lia].
          + rewrite IHM.
            destruct (Nat.ltb_spec (b + N) (b + M)),
              (Nat.ltb_spec (b + N) (b + S M)); try done; lia. }
      rewrite Hrd. destruct (Nat.ltb_spec (b + N) (b + N)); [lia|done].
    + destruct (Nat.leb_spec b m); simpl; [|done].
      destruct (Nat.ltb_spec m (b + N)), (Nat.ltb_spec m (b + S N));
        try done; lia.
Qed.

Lemma elem_of_zrange l h x : x ∈ zrange l h <-> (l <= x <= h)%Z.
Proof.
  unfold zrange. change (map ?f ?l) with (f <$> l).
  rewrite list_elem_of_fmap. split.
  - intros (n & -> & Hn). apply elem_of_seq in Hn. lia.
  - intros Hx. exists (Z.to_nat (x - l)). split; [lia|].
    apply elem_of_seq. lia.
Qed.

Lemma NoDup_zrange l h : NoDup (zrange l h).
Proof.
  unfold zrange. change (map ?f ?l) with (f <$> l).
  apply NoDup_fmap_2; [|apply NoDup_seq].
  intros x y Hxy. lia.
Qed.

Lemma elem_of_box_cells b c : c ∈ box_cells b <-> box_contains b c = true.
Proof.
  destruct b as [[[li lj] lk] [[hi hj] hk]], c as [[i j] k].
  unfold box_cells, box_contains; simpl.
  rewrite !andb_true_iff, !Z.leb_le.
  change (flat_map ?f ?l) with (l ≫= f).
  rewrite list_elem_of_bind. split.
  - intros (k' & H & Hk).
    change (flat_map ?f ?l) with (l ≫= f) in H.
    apply list_elem_of_bind in H as (j' & H & Hj).
    change (map ?f ?l) with (f <$> l) in H.
    apply list_elem_of_fmap in H as (i' & [= -> -> ->] & Hi).
    apply elem_of_zrange in Hk, Hj, Hi. lia.
  - intros H. exists k. split; [|apply elem_of_zrange; lia].
    change (flat_map ?f ?l) with (l ≫= f).
    apply list_elem_of_bind. exists j. split; [|apply elem_of_zrange; lia].
    change (map ?f ?l) with (f <$> l).
    apply list_elem_of_fmap. exists i. split; [done|].
    apply elem_of_zrange. lia.
Qed.

Lemma NoDup_box_cells b : NoDup (box_cells b).
Proof.
  destruct b as [[[li lj] lk] [[hi hj] hk]]. unfold box_cells; simpl.
  change (flat_map ?f ?l) with (l ≫= f).
  apply NoDup_bind; [| |apply NoDup_zrange].
  - intros k k' z _ _ Hz Hz'.
    change (flat_map ?f ?l) with (l ≫= f) in Hz, Hz'.
    apply list_elem_of_bind in Hz as (? & Hz & _).
    apply list_elem_of_bind in Hz' as (? & Hz' & _).
    change (map ?f ?l) with (f <$> l) in Hz, Hz'.
    apply list_elem_of_fmap in Hz as (? & -> & _).
    apply list_elem_of_fmap in Hz' as (? & [=] & _). done.
  - intros k _. change (flat_map ?f ?l) with (l ≫= f).
    apply NoDup_bind; [| |apply NoDup_zrange].
    + intros j j' z _ _ Hz Hz'.
      change (map ?f ?l) with (f <$> l) in Hz, Hz'.
      apply list_elem_of_fmap in Hz as (? & -> & _).
      apply list_elem_of_fmap in Hz' as (? & [=] & _). done.
    + intros j _. change (map ?f ?l) with (f <$> l).
      apply NoDup_fmap_2; [|apply NoDup_zrange].
      intros x y [=]. done.
Qed.

(** ** The Strang kernel *)

Section StrangKernelFacts.
Context {bld : Build} {par : Params}.
Variable burner : Strang.burn_t -> Real -> Strang.burn_t.
Variable burn_state_decl : Strang.burn_t.

Lemma for_loop_set_xn N (v : nat -> Real) bs :
  for_loop N (fun n b => Strang.set_xn b n (v n)) bs
  = {| Strang.rho := Strang.rho bs; Strang.T := Strang.T bs;
       Strang.e := Strang.e bs;
       Strang.xn := for_loop N (fun n x => upd x n (v n)) (Strang.xn bs);
       Strang.aux := Strang.aux bs; Strang.success := Strang.success bs;
       Strang.n_rhs := Strang.n_rhs bs; Strang.n_jac := Strang.n_jac bs |}.
Proof.
  induction N as [|N IH]; [by destruct bs|].
  rewrite !for_loop_S, IH. reflexivity.
Qed.

Lemma for_loop_set_aux N (v : nat -> Real) bs :
  for_loop N (fun n b => Strang.set_aux b n (v n)) bs
  = {| Strang.rho := Strang.rho bs; Strang.T := Strang.T bs;
       Strang.e := Strang.e bs; Strang.xn := Strang.xn bs;
       Strang.aux := for_loop N (fun n x => upd x n (v n)) (Strang.aux bs);
       Strang.success := Strang.success bs;
       Strang.n_rhs := Strang.n_rhs bs; Strang.n_jac := Strang.n_jac bs |}.
Proof.
  induction N as [|N IH]; [by destruct bs|].
  rewrite !for_loop_S, IH. reflexivity.
Qed.

(** The kernel in terms of the derived notions. *)
Lemma strang_kernel_unfold U dt c reactions :
  Strang.react_kernel burner burn_state_decl U dt c reactions
  = (let u := a_val U c in
     _ ← real_div 1 (u URHO);
     let out := strang_state_out burner burn_state_decl u dt in
     reactions ←
       (if strang_do_burn u then
          if contains reactions c then
            reactions ← for_loopM NumSpec (fun n reactions =>
              v ← real_div (u URHO * (Strang.xn out n
                                      - u (UFS + n) * (1 / u URHO))) dt;
              Ok (awrite reactions c n v)) reactions;
            reactions ← for_loopM NumAux (fun n reactions =>
              v ← real_div (u URHO * (Strang.aux out n
                                      - u (UFX + n) * (1 / u URHO))) dt;
              Ok (awrite reactions c (n + NumSpec) v)) reactions;
            v ← real_div (u URHO * Strang.e out) dt;
            Ok (awrite (awrite reactions c (NumSpec + NumAux) v) c
                  (NumSpec + NumAux + 1)
                  (amrex_max 1
                     (inject_Z (int_add (Strang.n_rhs out)
                                  (int_mul 2 (Strang.n_jac out))))))
          else Ok reactions
        else
          if contains reactions c then
            Ok (awrite
                  (for_loop (NumSpec + NumAux + 1) (fun n reactions =>
                     awrite reactions c n 0) reactions)
                  c (NumSpec + NumAux + 1) 1)
          else Ok reactions);
     Ok (if strang_cell_failed burner burn_state_decl u dt then 1%Q else 0%Q,
         reactions)).
Proof.
  unfold Strang.react_kernel. cbv zeta.
  destruct (Qeq_bool (a_val U c URHO) 0) eqn:E.
  { apply Qeq_bool_eq in E. by rewrite !(real_div_zero _ _ E). }
  apply Qeq_bool_neq in E. rewrite !(real_div_ok 1 _ E).
  cbn [mbind result_bind].
  rewrite for_loop_set_xn, for_loop_set_aux. simpl.
  unfold strang_cell_failed, strang_state_out, strang_do_burn,
    strang_state_in.
  destruct (SHOCK_VAR && _); simpl.
  - by destruct (_ || _).
  - destruct (_ || _ || _ || _); reflexivity.
Qed.

Lemma strang_kernel_rho_zero U dt c reactions :
  (a_val U c URHO == 0)%Q ->
  Strang.react_kernel burner burn_state_decl U dt c reactions
  = Err DivideByZero.
Proof.
  intros H. rewrite strang_kernel_unfold. cbv zeta.
  by rewrite (real_div_zero _ _ H).
Qed.

Lemma for_loopM_div_zero {S} N (g : nat -> Real) (k : nat -> S -> Real -> S)
    dt s :
  (dt == 0)%Q ->
  for_loopM N (fun n s => v ← real_div (g n) dt; Ok (k n s v)) s
  = match N with O => Ok s | _ => Err DivideByZero end.
Proof.
  intros H. induction N as [|N IH]; [done|].
  rewrite for_loopM_S, IH. destruct N; simpl.
  - by rewrite (real_div_zero _ _ H).
  - done.
Qed.

Lemma strang_kernel_dt_zero U dt c reactions :
  ~ (a_val U c URHO == 0)%Q -> (dt == 0)%Q ->
  strang_do_burn (a_val U c) = true -> contains reactions c = true ->
  Strang.react_kernel burner burn_state_decl U dt c reactions
  = Err DivideByZero.
Proof.
  intros Hrho Hdt Hb Hc. rewrite strang_kernel_unfold. cbv zeta.
  rewrite (real_div_ok _ _ Hrho), Hb, Hc. cbn [mbind result_bind].
  set (out := strang_state_out burner burn_state_decl (a_val U c) dt).
  pose proof (fun s => for_loopM_div_zero NumAux
    (fun n => a_val U c URHO
              * (Strang.aux out n - a_val U c (UFX + n) * (1 / a_val U c URHO)))%Q
    (fun n r v => awrite r c (n + NumSpec) v) dt s Hdt) as E2.
  rewrite (for_loopM_div_zero NumSpec
    (fun n => a_val U c URHO
              * (Strang.xn out n - a_val U c (UFS + n) * (1 / a_val U c URHO)))%Q
    (fun n r v => awrite r c n v) dt reactions Hdt).
  revert E2. destruct NumSpec; [|done]. intros E2.
  cbn [mbind result_bind]. rewrite E2.
  destruct NumAux; [|done]. cbn [mbind result_bind].
  by rewrite (real_div_zero _ _ Hdt).
Qed.

Lemma strang_kernel_ok U dt c reactions :
  ~ (a_val U c URHO == 0)%Q ->
  (~ (dt == 0)%Q
   \/ strang_do_burn (a_val U c) && contains reactions c = false) ->
  exists reactions',
    Strang.react_kernel burner burn_state_decl U dt c reactions
    = Ok (strang_burn_failed burner burn_state_decl (a_val U c) dt,
          reactions')
    /\ a_box reactions' = a_box reactions
    /\ forall c' n,
        a_val reactions' c' n
        = if bool_decide (c' = c) && contains reactions c
          then strang_rate burner burn_state_decl (a_val U c) dt n
                 (a_val reactions c n)
          else a_val reactions c' n.
Proof.
  intros Hrho Hdt. rewrite strang_kernel_unfold. cbv zeta.
  rewrite (real_div_ok _ _ Hrho). cbn [mbind result_bind].
  unfold strang_rate.
  destruct (strang_do_burn (a_val U c)) eqn:Hb;
    destruct (contains reactions c) eqn:Hc.
  - destruct Hdt as [Hdt|[=]].
    rewrite (for_loopM_pure NumSpec _
               (fun n r => awrite r c (0 + n)
                  (a_val U c URHO
                   * (Strang.xn (strang_state_out burner burn_state_decl
                                   (a_val U c) dt) n
                      - a_val U c (UFS + n) * (1 / a_val U c URHO)) / dt)))
      by (intros; by rewrite (real_div_ok _ _ Hdt)).
    cbn [mbind result_bind].
    rewrite (for_loopM_pure NumAux _
               (fun n r => awrite r c (NumSpec + n)
                  (a_val U c URHO
                   * (Strang.aux (strang_state_out burner burn_state_decl
                                    (a_val U c) dt) n
                      - a_val U c (UFX + n) * (1 / a_val U c URHO)) / dt)))
      by (intros; rewrite (real_div_ok _ _ Hdt); simpl;
          by rewrite (Nat.add_comm NumSpec)).
    cbn [mbind result_bind]. rewrite (real_div_ok _ _ Hdt).
    cbn [mbind result_bind].
    eexists. split; [reflexivity|]. split.
    { simpl. rewrite !a_box_for_loop; done. }
    intros c' n. rewrite !a_val_awrite.
    rewrite (a_val_for_loop_awrite NumAux NumSpec).
    rewrite (a_val_for_loop_awrite NumSpec 0).
    destruct (bool_decide_reflect (c' = c)) as [->|Hne]; simpl; [|done].
    destruct (Nat.eqb_spec n (NumSpec + NumAux + 1)),
      (Nat.eqb_spec n (NumSpec + NumAux)),
      (Nat.ltb_spec n (NumSpec + NumAux)), (Nat.ltb_spec n NumSpec),
      (Nat.leb_spec NumSpec n), (Nat.ltb_spec n (0 + NumSpec));
      simpl; try lia; try done.
    by rewrite Nat.sub_0_r.
  - eexists. split; [reflexivity|]. split; [done|].
    intros c' n. by rewrite andb_false_r.
  - eexists. split; [reflexivity|]. split.
    { simpl. rewrite a_box_for_loop; done. }
    intros c' n. rewrite a_val_awrite.
    rewrite (a_val_for_loop_awrite (NumSpec + NumAux + 1) 0).
    destruct (bool_decide_reflect (c' = c)) as [->|Hne]; simpl; [|done].
    destruct (Nat.eqb_spec n (NumSpec + NumAux + 1)),
      (Nat.ltb_spec n (NumSpec + NumAux + 1)); simpl; try lia; done.
  - eexists. split; [reflexivity|]. split; [done|].
    intros c' n. by rewrite andb_false_r.
Qed.

End StrangKernelFacts.

(** ** The Strang tile: reduction pass and update pass *)

Section StrangTileFacts.
Context {bld : Build} {par : Params}.
Variable burner : Strang.burn_t -> Real -> Strang.burn_t.
Variable burn_state_decl : Strang.burn_t.

Local Abbreviation kernel := (Strang.react_kernel burner burn_state_decl).
Local Abbreviation rate := (strang_rate burner burn_state_decl).
Local Abbreviation burn_failed := (strang_burn_failed burner burn_state_decl).

Lemma strang_kernel_inv U dt c reactions v reactions' :
  kernel U dt c reactions = Ok (v, reactions') ->
  strang_cell_defined (a_val U c) dt (contains reactions c)
  /\ v = burn_failed (a_val U c) dt
  /\ a_box reactions' = a_box reactions
  /\ forall c' n,
      a_val reactions' c' n
      = if bool_decide (c' = c) && contains reactions c
        then rate (a_val U c) dt n (a_val reactions c n)
        else a_val reactions c' n.
Proof.
  intros H.
  destruct (Qeq_bool (a_val U c URHO) 0) eqn:Hrho.
  { apply Qeq_bool_eq in Hrho.
    by rewrite (strang_kernel_rho_zero _ _ _ _ _ _ Hrho) in H. }
  apply Qeq_bool_neq in Hrho.
  assert (~ (dt == 0)%Q
          \/ strang_do_burn (a_val U c) && contains reactions c = false)
    as Hdt.
  { destruct (Qeq_bool dt 0) eqn:Hdt;
      [|left; by apply Qeq_bool_neq].
    apply Qeq_bool_eq in Hdt.
    destruct (strang_do_burn (a_val U c)) eqn:Hb;
      destruct (contains reactions c) eqn:Hc; auto.
    by rewrite (strang_kernel_dt_zero _ _ _ _ _ _ Hrho Hdt Hb Hc) in H. }
  destruct (strang_kernel_ok burner burn_state_decl U dt c reactions
              Hrho Hdt) as (R & HR & Hbox & Hval).
  rewrite HR in H. injection H as <- <-. done.
Qed.

Lemma strang_rate_idem u dt n old :
  rate u dt n (rate u dt n old) = rate u dt n old.
Proof.
  unfold strang_rate.
  destruct (strang_do_burn u); repeat (destruct (_ <? _)%nat; [done|]);
    repeat (destruct (_ =? _)%nat; [done|]); done.
Qed.

(** The reduction pass over a list of cells. *)
Lemma strang_pass1_inv U dt cells acc reactions acc' reactions' :
  ReduceOpSum_cells cells (kernel U dt) (acc, reactions)
  = Ok (acc', reactions') ->
  (forall c, c ∈ cells ->
     strang_cell_defined (a_val U c) dt (contains reactions c))
  /\ acc' = fold_left Qplus (map (fun c => burn_failed (a_val U c) dt) cells)
              acc
  /\ a_box reactions' = a_box reactions
  /\ forall c n,
      a_val reactions' c n
      = if bool_decide (c ∈ cells) && contains reactions c
        then rate (a_val U c) dt n (a_val reactions c n)
        else a_val reactions c n.
Proof.
  revert acc reactions.
  induction cells as [|c cells IH]; intros acc reactions H.
  - injection H as <- <-. split; [intros c Hc; by apply elem_of_nil in Hc|].
    done.
  - rewrite ReduceOpSum_cells_cons in H.
    destruct (kernel U dt c reactions) as [[v R1]|] eqn:Hk; [|cbn [mbind result_bind] in H; discriminate].
    cbn [mbind result_bind] in H. apply strang_kernel_inv in Hk as (Hdef & -> & Hbox & Hval).
    apply IH in H as (Hdefs & -> & Hbox' & Hval').
    assert (forall c', contains R1 c' = contains reactions c') as Hcont
      by (intros; unfold contains; by rewrite Hbox).
    split; [|split; [done|split; [congruence|]]].
    + intros c' [->|Hc']%elem_of_cons; [done|].
      rewrite <- Hcont. by apply Hdefs.
    + intros c' n. rewrite Hval', Hcont, !Hval.
      destruct (contains reactions c') eqn:Hc'.
      2:{ rewrite !andb_false_r.
          destruct (bool_decide_reflect (c' = c)) as [->|Hne]; [|done].
          by rewrite Hc'. }
      rewrite !andb_true_r.
      destruct (bool_decide_reflect (c' = c)) as [->|Hne].
      * rewrite Hc'. simpl. rewrite strang_rate_idem.
        rewrite (bool_decide_eq_true_2 (c ∈ c :: cells))
          by (apply elem_of_cons; by left).
        by destruct (bool_decide (c ∈ cells)).
      * simpl.
        destruct (bool_decide_reflect (c' ∈ cells)) as [Hin|Hin].
        -- by rewrite bool_decide_eq_true_2 by (apply elem_of_cons; by right).
        -- rewrite bool_decide_eq_false_2; [done|].
           by intros [?|?]%elem_of_cons.
Qed.

Lemma strang_pass1_ok U dt cells acc reactions :
  (forall c, c ∈ cells ->
     strang_cell_defined (a_val U c) dt (contains reactions c)) ->
  exists res,
    ReduceOpSum_cells cells (kernel U dt) (acc, reactions) = Ok res.
Proof.
  revert acc reactions.
  induction cells as [|c cells IH]; intros acc reactions Hdef; [by eexists|].
  rewrite ReduceOpSum_cells_cons.
  destruct (Hdef c) as [Hrho Hdt]; [apply elem_of_cons; by left|].
  destruct (strang_kernel_ok burner burn_state_decl U dt c reactions
              Hrho Hdt) as (R & -> & Hbox & _).
  cbn [mbind result_bind]. apply (IH (acc + _)%Q R). intros c' Hc'. unfold contains.
  rewrite Hbox.
  apply Hdef. apply elem_of_cons; by right.
Qed.

End StrangTileFacts.

(** Decide the index comparisons of a goal one at a time, dropping the
    branches the ordering of the components excludes. *)
Ltac case_nat_test :=
  match goal with
  | |- context [(?a =? ?b)%nat] =>
      destruct (Nat.eqb_spec a b); try lia; cbn [andb orb]; cbv iota
  | |- context [(?a <=? ?b)%nat] =>
      destruct (Nat.leb_spec a b); try lia; cbn [andb orb]; cbv iota
  | |- context [(?a <? ?b)%nat] =>
      destruct (Nat.ltb_spec a b); try lia; cbn [andb orb]; cbv iota
  end.

(** What the update needs of the ordering of the components. *)
Lemma layout_ok_energy {bld : Build} :
  layout_ok ->
  (UEDEN <> UEINT /\ UEDEN < UFS /\ UEINT < UFS /\ UFS + NumSpec <= UFX)%nat.
Proof.
  intros (Hnd & Hlt & Hfx & _).
  rewrite !list.NoDup_cons, !not_elem_of_cons in Hnd.
  destruct_and!. auto.
Qed.

Ltac layout_facts H :=
  let H1 := fresh "Hlay_ne" in
  let H2 := fresh "Hlay_eden" in
  let H3 := fresh "Hlay_eint" in
  let H4 := fresh "Hlay_fx" in
  pose proof (layout_ok_energy H) as (H1 & H2 & H3 & H4).

Lemma a_val_aadd a c n v c' n' :
  a_val (aadd a c n v) c' n'
  = if bool_decide (c' = c) && (n' =? n)%nat then (a_val a c n + v)%Q
    else a_val a c' n'.
Proof. reflexivity. Qed.

Section StrangUpdateFacts.
Context {bld : Build} {par : Params}.
Hypothesis Hlayout : layout_ok.

Lemma update_kernel_box reactions dt c U :
  a_box (Strang.update_kernel reactions dt c U) = a_box U.
Proof.
  unfold Strang.update_kernel. destruct (_ && _); [|done].
  simpl. rewrite !a_box_for_loop; done.
Qed.

Lemma update_kernel_val reactions dt c U c' n :
  a_val (Strang.update_kernel reactions dt c U) c' n
  = if bool_decide (c' = c) && (contains U c && contains reactions c)
    then strang_updated (a_val reactions c) dt n (a_val U c n)
    else a_val U c' n.
Proof using Hlayout.
  unfold Strang.update_kernel.
  destruct (contains U c && contains reactions c);
    [|by rewrite andb_false_r].
  rewrite andb_true_r. layout_facts Hlayout.
  rewrite !a_val_aadd.
  rewrite !(a_val_for_loop_aadd NumAux UFX (fun n => a_val reactions c (n + NumSpec) * dt)%Q).
  rewrite !(a_val_for_loop_aadd NumSpec UFS (fun n => a_val reactions c n * dt)%Q).
  rewrite !(bool_decide_eq_true_2 (c = c)) by done. simpl.
  unfold strang_updated.
  destruct (bool_decide_reflect (c' = c)) as [->|Hne]; simpl.
  - repeat case_nat_test; subst; done.
  - done.
Qed.
End StrangUpdateFacts.

Section StrangPassFacts.
Context {bld : Build} {par : Params}.

Lemma update_kernel_frame reactions dt c U c' n :
  c' <> c -> a_val (Strang.update_kernel reactions dt c U) c' n = a_val U c' n.
Proof.
  intros Hne. unfold Strang.update_kernel. destruct (_ && _); [|done].
  rewrite !a_val_aadd.
  rewrite (bool_decide_eq_false_2 (c' = c)) by done. cbn [andb]. cbv iota.
  rewrite (a_val_for_loop_aadd NumAux UFX
             (fun n => a_val reactions c (n + NumSpec) * dt)%Q).
  rewrite (bool_decide_eq_false_2 (c' = c)) by done. cbn [andb]. cbv iota.
  rewrite (a_val_for_loop_aadd NumSpec UFS
             (fun n => a_val reactions c n * dt)%Q).
  rewrite (bool_decide_eq_false_2 (c' = c)) by done. done.
Qed.

Lemma strang_pass2_box reactions dt cells U :
  a_box (fold_left (fun m c => Strang.update_kernel reactions dt c m) cells U)
  = a_box U.
Proof.
  revert U. induction cells as [|c cells IH]; intros U; [done|].
  simpl. by rewrite IH, update_kernel_box.
Qed.

Lemma strang_pass2_frame reactions dt cells U c n :
  c ∉ cells ->
  a_val (fold_left (fun m c => Strang.update_kernel reactions dt c m) cells U)
    c n = a_val U c n.
Proof.
  revert U. induction cells as [|c0 cells IH]; intros U Hc; [done|].
  apply not_elem_of_cons in Hc as [Hne Hc].
  simpl. by rewrite IH, update_kernel_frame.
Qed.

Lemma strang_pass2_val reactions dt cells U c n :
  layout_ok -> NoDup cells ->
  a_val (fold_left (fun m c => Strang.update_kernel reactions dt c m) cells U)
    c n
  = if bool_decide (c ∈ cells) && (contains U c && contains reactions c)
    then strang_updated (a_val reactions c) dt n (a_val U c n)
    else a_val U c n.
Proof.
  intros Hlayout Hnd. revert U.
  induction Hnd as [|c0 cells Hc0 Hnd IH]; intros U; [done|].
  simpl. rewrite IH.
  assert (forall c', contains (Strang.update_kernel reactions dt c0 U) c'
                     = contains U c') as Hcont
    by (intros; unfold contains; by rewrite update_kernel_box).
  rewrite Hcont, (update_kernel_val Hlayout).
  destruct (bool_decide_reflect (c = c0)) as [->|Hne].
  - rewrite (bool_decide_eq_false_2 (c0 ∈ cells)) by done.
    rewrite (bool_decide_eq_true_2 (c0 ∈ c0 :: cells))
      by (apply elem_of_cons; by left).
    done.
  - simpl. destruct (bool_decide_reflect (c ∈ cells)) as [Hin|Hin].
    + by rewrite bool_decide_eq_true_2 by (apply elem_of_cons; by right).
    + rewrite bool_decide_eq_false_2; [done|].
      by intros [?|?]%elem_of_cons.
Qed.

End StrangPassFacts.


(** ** The simplified-SDC kernel *)

Section SDCKernelFacts.
Context {bld : Build} {par : Params}.
Variable burner : SDC.burn_t -> Real -> SDC.burn_t.
Variable burn_state_decl : SDC.burn_t.

(** The kernel in terms of the derived notions. *)
Lemma sdc_kernel_unfold U_old asrc Iq dt c U_new react_src :
  SDC.react_kernel burner burn_state_decl U_old asrc Iq sdc_iteration dt c
    (U_new, react_src)
  = (let uo := a_val U_old c in
     let un := a_val U_new c in
     let out :=
       sdc_state_out burner burn_state_decl uo un (a_val asrc c)
         (a_val Iq c) c dt in
     '(U_new, react_src) ←
       (if sdc_do_burn uo un then
          let U_new := sdc_stores out c U_new in
          if contains react_src c then
            react_src ← for_loopM NumSpec (fun n react_src =>
              v ← real_div (a_val U_new c (UFS + n) - uo (UFS + n)) dt;
              Ok (awrite react_src c n v)) react_src;
            react_src ← for_loopM NumAux (fun n react_src =>
              v ← real_div (a_val U_new c (UFX + n) - uo (UFX + n)) dt;
              Ok (awrite react_src c (n + NumSpec) v)) react_src;
            v ← real_div (a_val U_new c UEINT - uo UEINT) dt;
            Ok (U_new,
                awrite (awrite react_src c (NumSpec + NumAux) v) c
                  (NumSpec + NumAux + 1)
                  (amrex_max 1
                     (inject_Z (int_add (SDC.n_rhs out)
                                  (int_mul 2 (SDC.n_jac out))))))
          else Ok (U_new, react_src)
        else Ok (U_new, react_src));
     Ok (sdc_burn_failed burner burn_state_decl uo un (a_val asrc c)
           (a_val Iq c) c dt, (U_new, react_src))).
Proof.
  unfold SDC.react_kernel, sdc_burn_failed, sdc_cell_failed, sdc_state_out,
    sdc_do_burn, sdc_state_in, sdc_stores.
  cbv zeta.
  destruct (SHOCK_VAR && _); cbn [negb andb].
  - by destruct (_ || _ || _ || _).
  - destruct (_ || _ || _ || _); cbn [negb]; [done|].
    destruct (contains react_src c); [|by destruct (SDC.success _)].
    destruct (for_loopM NumSpec _ react_src); [|done].
    cbn [mbind result_bind].
    destruct (for_loopM NumAux _ a); [|done].
    cbn [mbind result_bind].
    destruct (real_div _ dt); [|done].
    cbn [mbind result_bind]. by destruct (SDC.success _).
Qed.

Lemma sdc_stores_box out c U_new :
  a_box (sdc_stores out c U_new) = a_box U_new.
Proof. unfold sdc_stores. rewrite !a_box_for_loop; done. Qed.

Lemma sdc_stores_val out c U_new c' n :
  a_val (sdc_stores out c U_new) c' n
  = if bool_decide (c' = c) then sdc_stored out n (a_val U_new c n)
    else a_val U_new c' n.
Proof.
  unfold sdc_stores.
  rewrite (a_val_for_loop_awrite NumAux UFX (fun n => SDC.y out (SFX + n))).
  rewrite (a_val_for_loop_awrite NumSpec UFS (fun n => SDC.y out (SFS + n))).
  rewrite !a_val_awrite. unfold sdc_stored.
  destruct (bool_decide_reflect (c' = c)) as [->|Hne]; [|done].
  cbn [andb].
  destruct ((UFX <=? n) && (n <? UFX + NumAux))%nat; [done|].
  destruct ((UFS <=? n) && (n <? UFS + NumSpec))%nat; [done|].
  destruct (n =? UEINT)%nat; [done|]. by destruct (n =? UEDEN)%nat.
Qed.

Lemma sdc_kernel_dt_zero U_old asrc Iq dt c U_new react_src :
  (dt == 0)%Q ->
  sdc_do_burn (a_val U_old c) (a_val U_new c) = true ->
  contains react_src c = true ->
  SDC.react_kernel burner burn_state_decl U_old asrc Iq sdc_iteration dt c
    (U_new, react_src) = Err DivideByZero.
Proof.
  intros Hdt Hb Hc. rewrite sdc_kernel_unfold. cbv zeta.
  rewrite Hb, Hc.
  set (out := sdc_state_out _ _ _ _ _ _ _ _).
  set (U' := sdc_stores out c U_new).
  pose proof (fun s => for_loopM_div_zero NumAux
    (fun n => a_val U' c (UFX + n) - a_val U_old c (UFX + n))%Q
    (fun n r v => awrite r c (n + NumSpec) v) dt s Hdt) as E2.
  rewrite (for_loopM_div_zero NumSpec
    (fun n => a_val U' c (UFS + n) - a_val U_old c (UFS + n))%Q
    (fun n r v => awrite r c n v) dt react_src Hdt).
  revert E2. destruct NumSpec; [|done]. intros E2.
  cbn [mbind result_bind]. rewrite E2.
  destruct NumAux; [|done]. cbn [mbind result_bind].
  by rewrite (real_div_zero _ _ Hdt).
Qed.

Lemma sdc_kernel_ok U_old asrc Iq dt c U_new react_src :
  (~ (dt == 0)%Q
   \/ sdc_do_burn (a_val U_old c) (a_val U_new c) && contains react_src c
      = false) ->
  exists U_new' react_src',
    SDC.react_kernel burner burn_state_decl U_old asrc Iq sdc_iteration dt c
      (U_new, react_src)
    = Ok (sdc_burn_failed burner burn_state_decl (a_val U_old c)
            (a_val U_new c) (a_val asrc c) (a_val Iq c) c dt,
          (U_new', react_src'))
    /\ a_box U_new' = a_box U_new
    /\ a_box react_src' = a_box react_src
    /\ (forall c' n,
          a_val U_new' c' n
          = if bool_decide (c' = c)
               && sdc_do_burn (a_val U_old c) (a_val U_new c)
            then sdc_stored
                   (sdc_state_out burner burn_state_decl (a_val U_old c)
                      (a_val U_new c) (a_val asrc c) (a_val Iq c) c dt)
                   n (a_val U_new c n)
            else a_val U_new c' n)
    /\ (forall c' n,
          a_val react_src' c' n
          = if bool_decide (c' = c)
               && (sdc_do_burn (a_val U_old c) (a_val U_new c)
                   && contains react_src c)
            then sdc_rate (a_val U_old c) (a_val U_new' c)
                   (sdc_state_out burner burn_state_decl (a_val U_old c)
                      (a_val U_new c) (a_val asrc c) (a_val Iq c) c dt)
                   dt n (a_val react_src c n)
            else a_val react_src c' n).
Proof.
  intros Hdt. rewrite sdc_kernel_unfold. cbv zeta.
  set (out := sdc_state_out _ _ _ _ _ _ _ _).
  destruct (sdc_do_burn (a_val U_old c) (a_val U_new c)) eqn:Hb.
  2:{ eexists _, _. split; [reflexivity|]. repeat split; try done.
      - intros. by rewrite andb_false_r.
      - intros. by rewrite andb_false_r. }
  set (U' := sdc_stores out c U_new).
  assert (forall c' n,
            a_val U' c' n
            = if bool_decide (c' = c) && true
              then sdc_stored out n (a_val U_new c n) else a_val U_new c' n)
    as HU by (intros; unfold U'; by rewrite sdc_stores_val, andb_true_r).
  destruct (contains react_src c) eqn:Hc.
  2:{ eexists _, _. split; [reflexivity|]. repeat split; try done.
      - apply sdc_stores_box.
      - intros. by rewrite andb_false_r. }
  destruct Hdt as [Hdt|[=]].
  rewrite (for_loopM_pure NumSpec _
             (fun n r => awrite r c (0 + n)
                ((a_val U' c (UFS + n) - a_val U_old c (UFS + n)) / dt)))
    by (intros; by rewrite (real_div_ok _ _ Hdt)).
  cbn [mbind result_bind].
  rewrite (for_loopM_pure NumAux _
             (fun n r => awrite r c (NumSpec + n)
                ((a_val U' c (UFX + n) - a_val U_old c (UFX + n)) / dt)))
    by (intros; rewrite (real_div_ok _ _ Hdt); simpl;
        by rewrite (Nat.add_comm NumSpec)).
  cbn [mbind result_bind]. rewrite (real_div_ok _ _ Hdt).
  cbn [mbind result_bind].
  eexists _, _. split; [reflexivity|]. repeat split; try done.
  - apply sdc_stores_box.
  - simpl. rewrite !a_box_for_loop; done.
  - intros c' n. rewrite !a_val_awrite.
    rewrite (a_val_for_loop_awrite NumAux NumSpec).
    rewrite (a_val_for_loop_awrite NumSpec 0).
    unfold sdc_rate.
    destruct (bool_decide_reflect (c' = c)) as [->|Hne]; simpl; [|done].
    repeat case_nat_test; try done.
    + by rewrite Nat.sub_0_r.
Qed.

End SDCKernelFacts.

(** ** The simplified-SDC reduction pass *)

Lemma layout_ok_shock {bld : Build} :
  layout_ok -> SHOCK_VAR = true ->
  (USHK <> UEDEN /\ USHK <> UEINT /\ UFS + NumSpec <= USHK
   /\ UFX + NumAux <= USHK)%nat.
Proof.
  intros Hl Hs. pose proof (layout_ok_energy Hl) as (_ & ? & ? & ?).
  destruct Hl as (_ & _ & _ & Hshk). specialize (Hshk Hs). lia.
Qed.

Section SDCPassFacts.
Context {bld : Build} {par : Params}.
Variable burner : SDC.burn_t -> Real -> SDC.burn_t.
Variable burn_state_decl : SDC.burn_t.

Local Abbreviation kernel := (SDC.react_kernel burner burn_state_decl).
Local Abbreviation state_out := (sdc_state_out burner burn_state_decl).
Local Abbreviation burn_failed := (sdc_burn_failed burner burn_state_decl).

Lemma sdc_do_burn_ext uo un un' :
  (SHOCK_VAR = true -> un USHK = un' USHK) ->
  sdc_do_burn uo un = sdc_do_burn uo un'.
Proof.
  intros H. unfold sdc_do_burn. destruct SHOCK_VAR; [|done].
  by rewrite H.
Qed.

Lemma sdc_state_out_ext uo un un' va vq c dt :
  (SHOCK_VAR = true -> un USHK = un' USHK) ->
  state_out uo un va vq c dt = state_out uo un' va vq c dt.
Proof.
  intros H. unfold sdc_state_out. by rewrite (sdc_do_burn_ext uo un un' H).
Qed.

Lemma sdc_burn_failed_ext uo un un' va vq c dt :
  (SHOCK_VAR = true -> un USHK = un' USHK) ->
  burn_failed uo un va vq c dt = burn_failed uo un' va vq c dt.
Proof.
  intros H. unfold sdc_burn_failed, sdc_cell_failed.
  by rewrite (sdc_state_out_ext uo un un' va vq c dt H).
Qed.

Lemma sdc_rate_ext uo un1 un2 out dt n old :
  (forall m, un1 m = un2 m) ->
  sdc_rate uo un1 out dt n old = sdc_rate uo un2 out dt n old.
Proof. intros H. unfold sdc_rate. by rewrite !H. Qed.

Lemma sdc_stored_idem out n old :
  sdc_stored out n (sdc_stored out n old) = sdc_stored out n old.
Proof.
  unfold sdc_stored.
  repeat (destruct (_ && _)%nat; [done|]).
  repeat (destruct (_ =? _)%nat; [done|]). done.
Qed.

Lemma sdc_rate_idem uo un out dt n old :
  sdc_rate uo un out dt n (sdc_rate uo un out dt n old)
  = sdc_rate uo un out dt n old.
Proof.
  unfold sdc_rate.
  repeat (destruct (_ <? _)%nat; [done|]).
  repeat (destruct (_ =? _)%nat; [done|]). done.
Qed.

(** The stores of a burned cell leave the shock flag alone. *)
Lemma sdc_stored_shock out old :
  layout_ok -> SHOCK_VAR = true -> sdc_stored out USHK old = old.
Proof.
  intros Hl Hs. pose proof (layout_ok_shock Hl Hs) as (? & ? & ? & ?).
  unfold sdc_stored. repeat case_nat_test; done.
Qed.

Lemma sdc_kernel_inv U_old asrc Iq dt c U_new react_src v U_new' react_src' :
  kernel U_old asrc Iq sdc_iteration dt c (U_new, react_src)
  = Ok (v, (U_new', react_src')) ->
  (~ (dt == 0)%Q
   \/ sdc_do_burn (a_val U_old c) (a_val U_new c) && contains react_src c
      = false)
  /\ v = burn_failed (a_val U_old c) (a_val U_new c) (a_val asrc c)
           (a_val Iq c) c dt
  /\ a_box U_new' = a_box U_new
  /\ a_box react_src' = a_box react_src
  /\ (forall c' n,
        a_val U_new' c' n
        = if bool_decide (c' = c)
             && sdc_do_burn (a_val U_old c) (a_val U_new c)
          then sdc_stored
                 (state_out (a_val U_old c) (a_val U_new c) (a_val asrc c)
                    (a_val Iq c) c dt)
                 n (a_val U_new c n)
          else a_val U_new c' n)
  /\ (forall c' n,
        a_val react_src' c' n
        = if bool_decide (c' = c)
             && (sdc_do_burn (a_val U_old c) (a_val U_new c)
                 && contains react_src c)
          then sdc_rate (a_val U_old c) (a_val U_new' c)
                 (state_out (a_val U_old c) (a_val U_new c) (a_val asrc c)
                    (a_val Iq c) c dt)
                 dt n (a_val react_src c n)
          else a_val react_src c' n).
Proof.
  intros H.
  assert (~ (dt == 0)%Q
          \/ sdc_do_burn (a_val U_old c) (a_val U_new c)
             && contains react_src c = false) as Hdt.
  { destruct (Qeq_bool dt 0) eqn:Hdt; [|left; by apply Qeq_bool_neq].
    apply Qeq_bool_eq in Hdt.
    destruct (sdc_do_burn (a_val U_old c) (a_val U_new c)) eqn:Hb;
      destruct (contains react_src c) eqn:Hc; auto.
    by rewrite (sdc_kernel_dt_zero _ _ _ _ _ _ _ _ _ Hdt Hb Hc) in H. }
  destruct (sdc_kernel_ok burner burn_state_decl U_old asrc Iq dt c U_new
              react_src Hdt) as (U1 & R1 & HR & HbU & HbR & HvU & HvR).
  rewrite HR in H. injection H as <- <- <-. done.
Qed.

Section Pass.
Variables (U_old asrc Iq : Array4) (dt : Real).

Local Abbreviation db U c := (sdc_do_burn (a_val U_old c) (a_val U c)).
Local Abbreviation out U c :=
  (state_out (a_val U_old c) (a_val U c) (a_val asrc c) (a_val Iq c) c dt).
Local Abbreviation bf U c :=
  (burn_failed (a_val U_old c) (a_val U c) (a_val asrc c) (a_val Iq c) c
     dt).

Lemma sdc_pass_inv cells acc U R acc' U' R' :
  layout_ok ->
  ReduceOpSum_cells cells (kernel U_old asrc Iq sdc_iteration dt)
    (acc, (U, R)) = Ok (acc', (U', R')) ->
  (forall c, c ∈ cells ->
     ~ (dt == 0)%Q \/ db U c && contains R c = false)
  /\ acc' = fold_left Qplus (map (fun c => bf U c) cells) acc
  /\ a_box U' = a_box U
  /\ a_box R' = a_box R
  /\ (forall c n,
        a_val U' c n
        = if bool_decide (c ∈ cells) && db U c
          then sdc_stored (out U c) n (a_val U c n)
          else a_val U c n)
  /\ (forall c n,
        a_val R' c n
        = if bool_decide (c ∈ cells) && (db U c && contains R c)
          then sdc_rate (a_val U_old c)
                 (fun m => sdc_stored (out U c) m (a_val U c m))
                 (out U c) dt n (a_val R c n)
          else a_val R c n).
Proof.
  intros Hlayout. revert acc U R.
  induction cells as [|c0 cells IH]; intros acc U R H.
  { injection H as <- <- <-.
    split; [intros c Hc; by apply elem_of_nil in Hc|]. done. }
  rewrite ReduceOpSum_cells_cons in H.
  destruct (kernel U_old asrc Iq sdc_iteration dt c0 (U, R))
    as [[v [U1 R1]]|] eqn:Hk; [|cbn [mbind result_bind] in H; discriminate].
  cbn [mbind result_bind] in H.
  apply sdc_kernel_inv in Hk as (Hdef & -> & HbU & HbR & HvU & HvR).
  apply IH in H as (Hdefs & -> & HbU' & HbR' & HvU' & HvR').
  assert (forall c, SHOCK_VAR = true -> a_val U1 c USHK = a_val U c USHK)
    as Hshk.
  { intros c Hs. rewrite HvU.
    destruct (bool_decide_reflect (c = c0)) as [->|?]; [|done].
    destruct (db U c0); [|done]. by apply sdc_stored_shock. }
  assert (forall c, db U1 c = db U c) as Hdb
    by (intros; apply sdc_do_burn_ext; auto).
  assert (forall c, out U1 c = out U c) as Hout
    by (intros; apply sdc_state_out_ext; auto).
  assert (forall c, bf U1 c = bf U c) as Hbf
    by (intros; apply sdc_burn_failed_ext; auto).
  assert (forall c, contains R1 c = contains R c) as Hcont
    by (intros; unfold contains; by rewrite HbR).
  assert (forall c m,
            sdc_stored (out U c) m (a_val U1 c m)
            = sdc_stored (out U c) m (a_val U c m)) as Hst.
  { intros c m. rewrite HvU.
    destruct (bool_decide_reflect (c = c0)) as [->|?]; [|done].
    destruct (db U c0); [|done]. apply sdc_stored_idem. }
  split; [|split; [|split; [congruence|split; [congruence|split]]]].
  - intros c [->|Hc]%elem_of_cons; [done|].
    rewrite <- Hdb, <- Hcont. by apply Hdefs.
  - cbn [map fold_left].
    by rewrite (map_ext (fun c => bf U1 c) (fun c => bf U c) Hbf).
  - intros c n. rewrite HvU', Hdb, Hout, Hst, HvU.
    destruct (bool_decide_reflect (c = c0)) as [->|Hne].
    + rewrite (bool_decide_eq_true_2 (c0 ∈ c0 :: cells))
        by (apply elem_of_cons; by left).
      destruct (db U c0); [|by rewrite !andb_false_r].
      rewrite !andb_true_r. cbn [andb].
      by destruct (bool_decide (c0 ∈ cells)).
    + cbn [andb].
      destruct (bool_decide_reflect (c ∈ cells)) as [Hin|Hin].
      * by rewrite bool_decide_eq_true_2 by (apply elem_of_cons; by right).
      * rewrite bool_decide_eq_false_2; [done|].
        by intros [?|?]%elem_of_cons.
  - intros c n. rewrite HvR', Hdb, Hout, Hcont.
    rewrite (sdc_rate_ext _ _ (fun m => sdc_stored (out U c) m (a_val U c m)))
      by (intros m; cbn beta; apply Hst).
    rewrite HvR.
    destruct (bool_decide_reflect (c = c0)) as [->|Hne].
    + rewrite (bool_decide_eq_true_2 (c0 ∈ c0 :: cells))
        by (apply elem_of_cons; by left).
      destruct (db U c0 && contains R c0) eqn:E;
        [|by rewrite !andb_false_r].
      rewrite !andb_true_r. cbn [andb].
      rewrite (sdc_rate_ext _ (a_val U1 c0)
                 (fun m => sdc_stored (out U c0) m (a_val U c0 m))).
      2:{ intros m. rewrite HvU.
          apply andb_true_iff in E as [-> _].
          by rewrite bool_decide_eq_true_2. }
      destruct (bool_decide (c0 ∈ cells)); [|done].
      apply sdc_rate_idem.
    + cbn [andb].
      destruct (bool_decide_reflect (c ∈ cells)) as [Hin|Hin].
      * by rewrite bool_decide_eq_true_2 by (apply elem_of_cons; by right).
      * rewrite bool_decide_eq_false_2; [done|].
        by intros [?|?]%elem_of_cons.
Qed.

Lemma sdc_pass_ok cells acc U R :
  layout_ok ->
  (forall c, c ∈ cells ->
     ~ (dt == 0)%Q \/ db U c && contains R c = false) ->
  exists res,
    ReduceOpSum_cells cells (kernel U_old asrc Iq sdc_iteration dt)
      (acc, (U, R)) = Ok res.
Proof.
  intros Hlayout. revert acc U R.
  induction cells as [|c0 cells IH]; intros acc U R Hdef; [by eexists|].
  rewrite ReduceOpSum_cells_cons.
  destruct (sdc_kernel_ok burner burn_state_decl U_old asrc Iq dt c0 U R)
    as (U1 & R1 & -> & HbU & HbR & HvU & _).
  { apply Hdef. apply elem_of_cons; by left. }
  cbn [mbind result_bind]. apply (IH (acc + _)%Q U1 R1). intros c Hc.
  assert (db U1 c = db U c) as ->.
  { apply sdc_do_burn_ext. intros Hs. rewrite HvU.
    destruct (bool_decide_reflect (c = c0)) as [->|?]; [|done].
    destruct (db U c0); [|done]. by apply sdc_stored_shock. }
  unfold contains. rewrite HbR. apply Hdef. apply elem_of_cons; by right.
Qed.

End Pass.

End SDCPassFacts.

(** ** Claims about the zone gate *)

(** C2, as stated, fails: with only [react_rho_max = 5] active and every
    density equal to 10, the overlap test on the globally reduced extremes
    fails ([global_min(rho) = 10 > 5]) and yet the gate returns true,
    because the minimum of the density is not collected when the lower
    density limiter is inactive. *)
Lemma gate_ignores_uncollected_extremes :
  ~ (@valid_zones_to_burn (castro_build 2 0 false false) rho_max_only
       (one_cell_state 10 1) [] = Ok false
     <-> @overlap_test (castro_build 2 0 false false) rho_max_only
           (one_cell_state 10 1) [] = false).
Proof.
  intros [_ H].
  assert (@overlap_test (castro_build 2 0 false false) rho_max_only
            (one_cell_state 10 1) [] = false) as Ht by (vm_compute; reflexivity).
  specialize (H Ht). vm_compute in H. discriminate.
Qed.

(** C2, amended.  The gate returns true whenever no limiter is active.
    When some limiter is active and the read-back of the large limiters
    stays inside the vector (the large-temperature limiter is not active
    alone), the gate returns false if and only if the composite test
    fails on the values the code compares: each extreme is the globally
    reduced one when the limiter that collects it is active (the minimum
    with the lower bound, the maximum with the upper bound) and the
    default 1e-10 or 1e199 otherwise. *)
Theorem gate_decides_compared_overlap {bld : Build} {par : Params}
    (State : MultiFab) (peers : list MultiFab) :
  (limit = false -> valid_zones_to_burn State peers = Ok true)
  /\ (limit = true ->
      (limit_large_T = true -> limit_large_rho = true) ->
      (valid_zones_to_burn State peers = Ok true
       \/ valid_zones_to_burn State peers = Ok false)
      /\ (valid_zones_to_burn State peers = Ok false
          <-> compared_overlap_test State peers = false)).
Proof.
  split.
  - apply valid_zones_to_burn_unlimited.
  - intros Hl Hin. rewrite (valid_zones_to_burn_in_range _ _ Hl Hin).
    destruct (compared_overlap_test State peers); split; auto.
    + split; [intros [=]|done].
    + split; done.
Qed.

Lemma gate_decides_compared_overlap_witness :
  (@limit rho_max_only = true
   /\ (@limit_large_T rho_max_only = true -> @limit_large_rho rho_max_only = true))
  /\ (@valid_zones_to_burn (castro_build 2 0 false false) rho_max_only
        (one_cell_state 10 1) [] = Ok false
      <-> @compared_overlap_test (castro_build 2 0 false false) rho_max_only
            (one_cell_state 10 1) [] = false).
Proof.
  assert (@limit rho_max_only = true) as Hl by (vm_compute; reflexivity).
  assert (@limit_large_T rho_max_only = true
          -> @limit_large_rho rho_max_only = true) as Hin
    by (intros _; vm_compute; reflexivity).
  split; [split; assumption|].
  exact (proj2 (proj2 (@gate_decides_compared_overlap
                         (castro_build 2 0 false false) rho_max_only
                         (one_cell_state 10 1) []) Hl Hin)).
Defined.

(** C3, evaluated where it fails: with only the large-temperature bound
    active, the vector of large limiters has one element and the code
    reads the reduced temperature at index 1, past its end. *)
Theorem large_T_alone_reads_past_end :
  @local_large_limiters (castro_build 2 0 false false) T_max_only
    (one_cell_state 1 1e8) = [1e8%Q]
  /\ @valid_zones_to_burn (castro_build 2 0 false false) T_max_only
       (one_cell_state 1 1e8) [] = Err IndexOutOfRange.
Proof. split; vm_compute; reflexivity. Qed.
(** ** The standard ordering on the examples *)

Lemma castro_layout_ok nspec naux shock nse :
  @layout_ok (castro_build nspec naux shock nse).
Proof.
  unfold layout_ok; simpl. split; [|lia].
  rewrite !list.NoDup_cons, !not_elem_of_cons.
  repeat split; try lia; try apply not_elem_of_nil. apply NoDup_nil_2.
Qed.

(** ** MultiFabs, views and write-back *)

Lemma mf_array_inv mf idx A :
  mf_array mf idx = Ok A ->
  exists f, fabs mf !! idx = Some f
            /\ A = {| a_box := fabbox mf f; a_val := fab_val f |}.
Proof.
  unfold mf_array. destruct (fabs mf !! idx) as [f|]; [|done].
  intros [= <-]. by exists f.
Qed.

Lemma mf_array_val mf idx A : mf_array mf idx = Ok A -> a_val A = mf_val mf idx.
Proof.
  intros (f & Hf & ->)%mf_array_inv. unfold mf_val. by rewrite Hf.
Qed.

Lemma mf_array_contains mf idx A c :
  mf_array mf idx = Ok A -> contains A c = mf_contains mf idx c.
Proof.
  intros (f & Hf & ->)%mf_array_inv. unfold mf_contains, contains.
  by rewrite Hf.
Qed.

Lemma mf_array_is_Ok mf idx :
  (exists A, mf_array mf idx = Ok A) <-> idx < length (fabs mf).
Proof.
  unfold mf_array. split.
  - intros [A H]. destruct (fabs mf !! idx) eqn:E; [|done].
    by apply lookup_lt_Some in E.
  - intros [f Hf]%lookup_lt_is_Some_2. rewrite Hf. by eexists.
Qed.

Lemma mf_store_length mf idx A :
  length (fabs (mf_store mf idx A)) = length (fabs mf).
Proof. unfold mf_store; simpl. by rewrite length_alter. Qed.

Lemma mf_store_nGrow mf idx A : nGrow (mf_store mf idx A) = nGrow mf.
Proof. done. Qed.

Lemma mf_store_nComp mf idx A : nComp (mf_store mf idx A) = nComp mf.
Proof. done. Qed.

Lemma mf_store_val mf idx A idx' :
  mf_val (mf_store mf idx A) idx'
  = if bool_decide (idx' = idx) && bool_decide (idx < length (fabs mf))
    then a_val A else mf_val mf idx'.
Proof.
  unfold mf_val, mf_store; simpl.
  destruct (bool_decide_reflect (idx' = idx)) as [->|Hne]; simpl.
  - rewrite list_lookup_alter_eq.
    destruct (fabs mf !! idx) eqn:E; simpl.
    + by rewrite bool_decide_eq_true_2 by by eapply lookup_lt_Some.
    + by rewrite bool_decide_eq_false_2
        by (apply lookup_ge_None in E; lia).
  - by rewrite list_lookup_alter_ne.
Qed.

Lemma mf_store_contains mf idx A idx' c :
  mf_contains (mf_store mf idx A) idx' c = mf_contains mf idx' c.
Proof.
  unfold mf_contains, mf_store, fabbox; simpl.
  destruct (decide (idx' = idx)) as [->|Hne].
  - rewrite list_lookup_alter_eq. by destruct (fabs mf !! idx).
  - by rewrite list_lookup_alter_ne.
Qed.

Lemma mf_store_validbox mf idx A :
  map validbox (fabs (mf_store mf idx A)) = map validbox (fabs mf).
Proof.
  unfold mf_store; simpl. apply list_eq. intros i.
  change (map ?f ?l) with (f <$> l). rewrite !list_lookup_fmap.
  destruct (decide (i = idx)) as [->|Hne].
  - rewrite list_lookup_alter_eq. by destruct (fabs mf !! idx).
  - by rewrite list_lookup_alter_ne.
Qed.

Lemma elem_of_tile_cells tiles idx c :
  (idx, c) ∈ tile_cells tiles
  <-> exists bx, (idx, bx) ∈ tiles /\ c ∈ box_cells bx.
Proof.
  unfold tile_cells. change (flat_map ?f ?l) with (l ≫= f).
  rewrite list_elem_of_bind. split.
  - intros ([idx' bx] & H & Hin). change (map ?f ?l) with (f <$> l) in H.
    apply list_elem_of_fmap in H as (c' & [= -> ->] & Hc). eauto.
  - intros (bx & Hin & Hc). exists (idx, bx). split; [|done].
    change (map ?f ?l) with (f <$> l). apply list_elem_of_fmap. eauto.
Qed.

Lemma tile_cells_cons idx bx tiles :
  tile_cells ((idx, bx) :: tiles)
  = map (fun c => (idx, c)) (box_cells bx) ++ tile_cells tiles.
Proof. done. Qed.

Lemma elem_of_tile_cells_cons tiles idx bx idx' c :
  (idx', c) ∈ tile_cells ((idx, bx) :: tiles)
  <-> (idx' = idx /\ c ∈ box_cells bx) \/ (idx', c) ∈ tile_cells tiles.
Proof.
  rewrite tile_cells_cons, elem_of_app.
  change (map ?f ?l) with (f <$> l). rewrite list_elem_of_fmap.
  split; intros [H|H]; auto.
  - destruct H as (c' & [= -> ->] & Hc). auto.
  - destruct H as [-> Hc]. left. eauto.
Qed.

Lemma mf_same_shape_refl mf : mf_same_shape mf mf.
Proof. done. Qed.

Lemma mf_same_shape_trans mf1 mf2 mf3 :
  mf_same_shape mf1 mf2 -> mf_same_shape mf2 mf3 -> mf_same_shape mf1 mf3.
Proof. intros (? & ? & ?) (? & ? & ?). repeat split; congruence. Qed.

Lemma mf_same_shape_store mf idx A : mf_same_shape mf (mf_store mf idx A).
Proof. repeat split. apply mf_store_validbox. Qed.

Lemma mf_same_shape_length mf mf' :
  mf_same_shape mf mf' -> length (fabs mf') = length (fabs mf).
Proof.
  intros (_ & _ & H). apply (f_equal length) in H.
  by rewrite !length_map in H.
Qed.

Lemma mf_same_shape_contains mf mf' idx c :
  mf_same_shape mf mf' -> mf_contains mf' idx c = mf_contains mf idx c.
Proof.
  intros (Hg & _ & H). unfold mf_contains, fabbox. rewrite Hg.
  apply (f_equal (fun l => l !! idx)) in H.
  change (map ?f ?l) with (f <$> l) in H. rewrite !list_lookup_fmap in H.
  destruct (fabs mf' !! idx), (fabs mf !! idx); simpl in H; try done.
  by injection H as ->.
Qed.

Lemma bool_decide_tile_cells_cons tiles idx bx idx' c :
  bool_decide ((idx', c) ∈ tile_cells ((idx, bx) :: tiles))
  = bool_decide (idx' = idx) && bool_decide (c ∈ box_cells bx)
    || bool_decide ((idx', c) ∈ tile_cells tiles).
Proof.
  apply eq_true_iff_eq.
  rewrite orb_true_iff, andb_true_iff, !bool_decide_eq_true.
  apply elem_of_tile_cells_cons.
Qed.

Lemma map_tile_cells_cons {A} (g : nat -> Cell -> A) idx bx tiles :
  map (fun ic => g ic.1 ic.2) (tile_cells ((idx, bx) :: tiles))
  = map (g idx) (box_cells bx) ++ map (fun ic => g ic.1 ic.2) (tile_cells tiles).
Proof. by rewrite tile_cells_cons, map_app, map_map. Qed.

(** ** The simplified-SDC loop over the tiles of a rank *)

Section SDCRankFacts.
Context {bld : Build} {par : Params}.
Variable burner : SDC.burn_t -> Real -> SDC.burn_t.
Variable burn_state_decl : SDC.burn_t.
Variables (S_old A_src Iq : MultiFab) (dt : Real).
Hypothesis Hlayout : layout_ok.

Local Abbreviation DB S idx c :=
  (sdc_do_burn (mf_val S_old idx c) (mf_val S idx c)).
Local Abbreviation OUT S idx c :=
  (sdc_state_out burner burn_state_decl (mf_val S_old idx c) (mf_val S idx c)
     (mf_val A_src idx c) (mf_val Iq idx c) c dt).
Local Abbreviation BF S idx c :=
  (sdc_burn_failed burner burn_state_decl (mf_val S_old idx c)
     (mf_val S idx c) (mf_val A_src idx c) (mf_val Iq idx c) c dt).
Local Abbreviation RATE S R idx c n :=
  (sdc_rate (mf_val S_old idx c)
     (fun m => sdc_stored (OUT S idx c) m (mf_val S idx c m))
     (OUT S idx c) dt n (mf_val R idx c n)).

(** Without NSE_THERMO the reactive sources are not read. *)
Lemma sdc_state_in_no_nse uo va vq vq' c it :
  NSE_THERMO = false ->
  sdc_state_in burn_state_decl uo va vq c it
  = sdc_state_in burn_state_decl uo va vq' c it.
Proof. intros H. unfold sdc_state_in. by rewrite H. Qed.

Lemma sdc_state_out_no_nse uo un va vq vq' c :
  NSE_THERMO = false ->
  sdc_state_out burner burn_state_decl uo un va vq c dt
  = sdc_state_out burner burn_state_decl uo un va vq' c dt.
Proof.
  intros H. unfold sdc_state_out.
  by rewrite (sdc_state_in_no_nse uo va vq vq' c sdc_iteration H).
Qed.

Lemma sdc_mfi_inv S R acc idx bx S' R' acc' :
  SDC.react_mfi burner burn_state_decl S_old A_src Iq dt (S, R, acc)
    (idx, bx) = Ok (S', R', acc') ->
  (forall c, c ∈ box_cells bx ->
     ~ (dt == 0)%Q \/ DB S idx c && mf_contains R idx c = false)
  /\ acc' = fold_left Qplus (map (fun c => BF S idx c) (box_cells bx)) acc
  /\ mf_same_shape S S' /\ mf_same_shape R R'
  /\ (forall idx' c n,
        mf_val S' idx' c n
        = if bool_decide (idx' = idx) && bool_decide (c ∈ box_cells bx)
             && DB S idx' c
          then sdc_stored (OUT S idx' c) n (mf_val S idx' c n)
          else mf_val S idx' c n)
  /\ (forall idx' c n,
        mf_val R' idx' c n
        = if bool_decide (idx' = idx) && bool_decide (c ∈ box_cells bx)
             && (DB S idx' c && mf_contains R idx' c)
          then RATE S R idx' c n
          else mf_val R idx' c n).
Proof using Hlayout.
  unfold SDC.react_mfi.
  destruct (mf_array S_old idx) as [U_old|] eqn:E1; [|done].
  destruct (mf_array S idx) as [U_new|] eqn:E2; [|done].
  destruct (mf_array A_src idx) as [asrc|] eqn:E3; [|done].
  destruct (mf_array R idx) as [react_src|] eqn:E4; [|done].
  destruct (if NSE_THERMO then mf_array Iq idx else Ok no_view)
    as [Iqa|] eqn:E5; [|done].
  cbn [mbind result_bind]. unfold ReduceOpSum_eval.
  destruct (ReduceOpSum_cells _ _ _) as [[a [U' R1]]|] eqn:Hp; [|done].
  cbn [mbind result_bind]. intros [= <- <- <-].
  apply (sdc_pass_inv _ _ _ _ _ _ _ _ _ _ _ _ _ Hlayout) in Hp
    as (Hdef & -> & HbU & HbR & HvU & HvR).
  rewrite (mf_array_val _ _ _ E1), (mf_array_val _ _ _ E3) in *.
  rewrite (mf_array_val _ _ _ E2) in Hdef, HvU, HvR |- *.
  rewrite (mf_array_val _ _ _ E4) in HvR.
  assert (forall uo un va c,
            sdc_state_out burner burn_state_decl uo un va (a_val Iqa c) c dt
            = sdc_state_out burner burn_state_decl uo un va (mf_val Iq idx c)
                c dt) as Hq.
  { intros uo un va c. destruct NSE_THERMO eqn:Hnse.
    - by rewrite (mf_array_val _ _ _ E5).
    - by apply sdc_state_out_no_nse. }
  assert (forall c,
            sdc_burn_failed burner burn_state_decl (mf_val S_old idx c)
              (mf_val S idx c) (mf_val A_src idx c) (a_val Iqa c) c dt
            = BF S idx c) as Hqf.
  { intros c. unfold sdc_burn_failed, sdc_cell_failed. by rewrite Hq. }
  assert (forall c, contains react_src c = mf_contains R idx c) as Hcont
    by (intros; by apply mf_array_contains).
  assert (idx < length (fabs S)) as HlS
    by (apply mf_array_is_Ok; eauto).
  assert (idx < length (fabs R)) as HlR
    by (apply mf_array_is_Ok; eauto).
  split; [|split; [|split; [apply mf_same_shape_store|
          split; [apply mf_same_shape_store|split]]]].
  - intros c Hc. rewrite <- Hcont. by apply Hdef.
  - f_equal. apply map_ext. intros c. apply Hqf.
  - intros idx' c n. rewrite mf_store_val.
    rewrite (bool_decide_eq_true_2 _ HlS), andb_true_r.
    destruct (bool_decide_reflect (idx' = idx)) as [->|Hne]; [|done].
    cbn [andb]. by rewrite HvU, Hq.
  - intros idx' c n. rewrite mf_store_val.
    rewrite (bool_decide_eq_true_2 _ HlR), andb_true_r.
    destruct (bool_decide_reflect (idx' = idx)) as [->|Hne]; [|done].
    cbn [andb]. rewrite HvR, Hcont, !Hq. done.
Qed.

Lemma sdc_tiles_inv tiles S R acc S' R' acc' :
  foldM (SDC.react_mfi burner burn_state_decl S_old A_src Iq dt) tiles
    (S, R, acc) = Ok (S', R', acc') ->
  (forall idx c, (idx, c) ∈ tile_cells tiles ->
     ~ (dt == 0)%Q \/ DB S idx c && mf_contains R idx c = false)
  /\ acc' = fold_left Qplus
              (map (fun ic => BF S ic.1 ic.2) (tile_cells tiles)) acc
  /\ mf_same_shape S S' /\ mf_same_shape R R'
  /\ (forall idx c n,
        mf_val S' idx c n
        = if bool_decide ((idx, c) ∈ tile_cells tiles) && DB S idx c
          then sdc_stored (OUT S idx c) n (mf_val S idx c n)
          else mf_val S idx c n)
  /\ (forall idx c n,
        mf_val R' idx c n
        = if bool_decide ((idx, c) ∈ tile_cells tiles)
             && (DB S idx c && mf_contains R idx c)
          then RATE S R idx c n
          else mf_val R idx c n).
Proof using Hlayout.
  revert S R acc.
  induction tiles as [|[idx0 bx0] tiles IH]; intros S R acc H.
  { injection H as <- <- <-.
    split; [intros idx c Hc; by apply elem_of_nil in Hc|]. done. }
  cbn [foldM] in H.
  destruct (SDC.react_mfi _ _ _ _ _ _ (S, R, acc) (idx0, bx0))
    as [[[S1 R1] acc1]|] eqn:Hk;
    [|cbn [mbind result_bind] in H; discriminate].
  cbn [mbind result_bind] in H.
  apply sdc_mfi_inv in Hk as (Hdef & -> & HsS & HsR & HvS & HvR).
  apply IH in H as (Hdefs & -> & HsS' & HsR' & HvS' & HvR').
  assert (forall idx c,
            SHOCK_VAR = true -> mf_val S1 idx c USHK = mf_val S idx c USHK)
    as Hshk.
  { intros idx c Hs. rewrite HvS. destruct (_ && _ && _); [|done].
    by apply sdc_stored_shock. }
  assert (forall idx c, DB S1 idx c = DB S idx c) as Hdb
    by (intros; apply sdc_do_burn_ext; auto).
  assert (forall idx c, OUT S1 idx c = OUT S idx c) as Hout
    by (intros; apply sdc_state_out_ext; auto).
  assert (forall idx c, BF S1 idx c = BF S idx c) as Hbf
    by (intros; apply sdc_burn_failed_ext; auto).
  assert (forall idx c, mf_contains R1 idx c = mf_contains R idx c) as Hcont
    by (intros; by apply mf_same_shape_contains).
  assert (forall idx c m,
            sdc_stored (OUT S idx c) m (mf_val S1 idx c m)
            = sdc_stored (OUT S idx c) m (mf_val S idx c m)) as Hst.
  { intros idx c m. rewrite HvS. destruct (_ && _ && _); [|done].
    apply sdc_stored_idem. }
  split; [|split; [|split; [by eapply mf_same_shape_trans|
          split; [by eapply mf_same_shape_trans|split]]]].
  - intros idx c [[-> Hc]|Hc]%elem_of_tile_cells_cons; [by apply Hdef|].
    rewrite <- Hdb, <- Hcont. by apply Hdefs.
  - rewrite (map_tile_cells_cons (fun idx c => BF S idx c)).
    rewrite fold_left_app.
    by rewrite (map_ext (fun ic => BF S1 ic.1 ic.2)
                  (fun ic => BF S ic.1 ic.2)) by (intros; apply Hbf).
  - intros idx c n.
    rewrite HvS', Hdb, Hout, Hst, HvS, bool_decide_tile_cells_cons.
    destruct (bool_decide (idx = idx0) && bool_decide (c ∈ box_cells bx0)),
      (bool_decide ((idx, c) ∈ tile_cells tiles)), (DB S idx c);
      cbn [andb orb]; done.
  - intros idx c n.
    rewrite HvR', Hdb, Hout, Hcont, bool_decide_tile_cells_cons.
    rewrite (sdc_rate_ext _ _
               (fun m => sdc_stored (OUT S idx c) m (mf_val S idx c m)))
      by (intros m; cbn beta; apply Hst).
    rewrite HvR.
    destruct (bool_decide (idx = idx0) && bool_decide (c ∈ box_cells bx0)),
      (bool_decide ((idx, c) ∈ tile_cells tiles)),
      (DB S idx c && mf_contains R idx c);
      cbn [andb orb]; try done.
    apply sdc_rate_idem.
Qed.

End SDCRankFacts.

(** ** The Strang loop over the tiles of a rank *)

Section StrangRankFacts.
Context {bld : Build} {par : Params}.
Variable burner : Strang.burn_t -> Real -> Strang.burn_t.
Variable burn_state_decl : Strang.burn_t.
Variable dt : Real.

Local Abbreviation SBF u := (strang_burn_failed burner burn_state_decl u dt).
Local Abbreviation RATE u := (strang_rate burner burn_state_decl u dt).
Local Abbreviation lv := (level <=? reactions_max_solve_level)%Z.

(** The notions of a cell depend on the values of its vector only. *)
Lemma strang_do_burn_ext u u' :
  (forall n, u n = u' n) -> strang_do_burn u = strang_do_burn u'.
Proof. intros H. unfold strang_do_burn. by rewrite !H. Qed.

Lemma strang_state_in_ext u u' :
  (forall n, u n = u' n) ->
  strang_state_in burn_state_decl u = strang_state_in burn_state_decl u'.
Proof.
  intros H. unfold strang_state_in. rewrite !H.
  rewrite (for_loop_ext NumSpec _
             (fun n xn => upd xn n (u' (UFS + n)%nat * (1 / u' URHO))%Q))
    by (intros; by rewrite !H).
  by rewrite (for_loop_ext NumAux _
                (fun n aux => upd aux n (u' (UFX + n)%nat * (1 / u' URHO))%Q))
    by (intros; by rewrite !H).
Qed.

Lemma strang_state_out_ext u u' :
  (forall n, u n = u' n) ->
  strang_state_out burner burn_state_decl u dt
  = strang_state_out burner burn_state_decl u' dt.
Proof.
  intros H. unfold strang_state_out.
  by rewrite (strang_do_burn_ext _ _ H), (strang_state_in_ext _ _ H).
Qed.

Lemma strang_burn_failed_ext u u' : (forall n, u n = u' n) -> SBF u = SBF u'.
Proof.
  intros H. unfold strang_burn_failed, strang_cell_failed.
  by rewrite (strang_state_out_ext _ _ H).
Qed.

Lemma strang_rate_ext u u' n old :
  (forall n, u n = u' n) -> RATE u n old = RATE u' n old.
Proof.
  intros H. unfold strang_rate.
  by rewrite (strang_do_burn_ext _ _ H), (strang_state_out_ext _ _ H), !H.
Qed.

Lemma strang_cell_defined_ext u u' inside :
  (forall n, u n = u' n) ->
  strang_cell_defined u dt inside -> strang_cell_defined u' dt inside.
Proof.
  intros H. unfold strang_cell_defined.
  by rewrite (strang_do_burn_ext _ _ H), !H.
Qed.

Lemma strang_mfi_inv s r acc idx bx s' r' acc' :
  Strang.react_mfi burner burn_state_decl dt (s, r, acc) (idx, bx)
  = Ok (s', r', acc') ->
  (lv = true -> forall c, c ∈ box_cells bx ->
     strang_cell_defined (mf_val s idx c) dt (mf_contains r idx c))
  /\ acc' = (if lv
             then fold_left Qplus
                    (map (fun c => SBF (mf_val s idx c)) (box_cells bx)) acc
             else acc)
  /\ mf_same_shape s s' /\ mf_same_shape r r'
  /\ (forall idx' c n,
        ~ (idx' = idx /\ c ∈ box_cells bx) ->
        mf_val s' idx' c n = mf_val s idx' c n)
  /\ (forall idx' c n,
        mf_val r' idx' c n
        = if lv && (bool_decide (idx' = idx) && bool_decide (c ∈ box_cells bx))
             && mf_contains r idx' c
          then RATE (mf_val s idx' c) n (mf_val r idx' c n)
          else mf_val r idx' c n).
Proof.
  unfold Strang.react_mfi.
  destruct (mf_array s idx) as [U|] eqn:E1; [|done].
  destruct (mf_array r idx) as [reactions|] eqn:E2; [|done].
  cbn [mbind result_bind]. unfold Strang.react_tile, ReduceOpSum_eval.
  assert (idx < length (fabs s)) as Hls by (apply mf_array_is_Ok; eauto).
  assert (idx < length (fabs r)) as Hlr by (apply mf_array_is_Ok; eauto).
  assert (forall c, contains reactions c = mf_contains r idx c) as Hcont
    by (intros; by apply mf_array_contains).
  destruct lv eqn:Hlv.
  - destruct (ReduceOpSum_cells _ _ _) as [[a R1]|] eqn:Hp; [|done].
    cbn [mbind result_bind]. intros [= <- <- <-].
    apply strang_pass1_inv in Hp as (Hdef & -> & HbR & HvR).
    rewrite (mf_array_val _ _ _ E1) in Hdef, HvR |- *.
    rewrite (mf_array_val _ _ _ E2) in HvR.
    split; [|split; [done|split; [apply mf_same_shape_store|
            split; [apply mf_same_shape_store|split]]]].
    + intros _ c Hc. rewrite <- Hcont. by apply Hdef.
    + intros idx' c n Hnot. rewrite mf_store_val.
      rewrite (bool_decide_eq_true_2 _ Hls), andb_true_r.
      destruct (bool_decide_reflect (idx' = idx)) as [->|Hne]; [|done].
      unfold ParallelFor. rewrite strang_pass2_frame by tauto.
      by rewrite (mf_array_val _ _ _ E1).
    + intros idx' c n. rewrite mf_store_val.
      rewrite (bool_decide_eq_true_2 _ Hlr), andb_true_r.
      destruct (bool_decide_reflect (idx' = idx)) as [->|Hne]; [|done].
      cbn [andb]. by rewrite HvR, Hcont.
  - cbn [mbind result_bind]. intros [= <- <- <-].
    split; [done|split; [done|split; [apply mf_same_shape_store|
            split; [apply mf_same_shape_store|split]]]].
    + intros idx' c n Hnot. rewrite mf_store_val.
      rewrite (bool_decide_eq_true_2 _ Hls), andb_true_r.
      destruct (bool_decide_reflect (idx' = idx)) as [->|Hne]; [|done].
      unfold ParallelFor. rewrite strang_pass2_frame by tauto.
      by rewrite (mf_array_val _ _ _ E1).
    + intros idx' c n. rewrite mf_store_val.
      rewrite (bool_decide_eq_true_2 _ Hlr), andb_true_r.
      destruct (bool_decide_reflect (idx' = idx)) as [->|Hne]; [|done].
      cbn [andb]. by rewrite (mf_array_val _ _ _ E2).
Qed.

Lemma tiles_disjoint_cons idx bx tiles :
  tiles_disjoint ((idx, bx) :: tiles) ->
  tiles_disjoint tiles
  /\ forall c, c ∈ box_cells bx -> (idx, c) ∉ tile_cells tiles.
Proof.
  unfold tiles_disjoint. rewrite tile_cells_cons.
  intros (_ & Hd & Hnd)%list.NoDup_app. split; [done|].
  intros c Hc. apply Hd. change (map ?f ?l) with (f <$> l).
  apply list_elem_of_fmap. eauto.
Qed.

Lemma strang_tiles_inv tiles s r acc s' r' acc' :
  tiles_disjoint tiles ->
  foldM (Strang.react_mfi burner burn_state_decl dt) tiles (s, r, acc)
  = Ok (s', r', acc') ->
  (lv = true -> forall idx c, (idx, c) ∈ tile_cells tiles ->
     strang_cell_defined (mf_val s idx c) dt (mf_contains r idx c))
  /\ acc' = (if lv
             then fold_left Qplus
                    (map (fun ic => SBF (mf_val s ic.1 ic.2))
                       (tile_cells tiles)) acc
             else acc)
  /\ mf_same_shape s s' /\ mf_same_shape r r'
  /\ (forall idx c n,
        (idx, c) ∉ tile_cells tiles -> mf_val s' idx c n = mf_val s idx c n)
  /\ (forall idx c n,
        mf_val r' idx c n
        = if lv && bool_decide ((idx, c) ∈ tile_cells tiles)
             && mf_contains r idx c
          then RATE (mf_val s idx c) n (mf_val r idx c n)
          else mf_val r idx c n).
Proof.
  revert s r acc.
  induction tiles as [|[idx0 bx0] tiles IH]; intros s r acc Hdis H.
  { injection H as <- <- <-.
    split; [intros _ idx c Hc; by apply elem_of_nil in Hc|].
    split; [by destruct lv|]. split; [done|]. split; [done|].
    split; [done|]. intros. by rewrite andb_false_r. }
  apply tiles_disjoint_cons in Hdis as [Hdis Hfresh].
  cbn [foldM] in H.
  destruct (Strang.react_mfi _ _ _ (s, r, acc) (idx0, bx0))
    as [[[s1 r1] acc1]|] eqn:Hk;
    [|cbn [mbind result_bind] in H; discriminate].
  cbn [mbind result_bind] in H.
  apply strang_mfi_inv in Hk as (Hdef & -> & Hss & Hsr & Hfs & Hvr).
  apply (IH _ _ _ Hdis) in H as (Hdefs & -> & Hss' & Hsr' & Hfs' & Hvr').
  assert (forall idx c n, (idx, c) ∈ tile_cells tiles ->
            mf_val s1 idx c n = mf_val s idx c n) as Hsame.
  { intros idx c n Hin. apply Hfs. intros [-> Hc].
    by apply (Hfresh c Hc). }
  assert (forall idx c, mf_contains r1 idx c = mf_contains r idx c) as Hcont
    by (intros; by apply mf_same_shape_contains).
  split; [|split; [|split; [by eapply mf_same_shape_trans|
          split; [by eapply mf_same_shape_trans|split]]]].
  - intros Hlv idx c [[-> Hc]|Hc]%elem_of_tile_cells_cons;
      [by apply Hdef|].
    rewrite <- Hcont.
    apply (strang_cell_defined_ext (mf_val s1 idx c)); [|by apply Hdefs].
    intros n. by apply Hsame.
  - destruct lv; [|done].
    rewrite (map_tile_cells_cons (fun idx c => SBF (mf_val s idx c))).
    rewrite fold_left_app. f_equal.
    apply map_ext_in. intros [idx c] Hin%list_elem_of_In.
    apply strang_burn_failed_ext. intros n. by apply Hsame.
  - intros idx c n Hnot.
    rewrite Hfs' by (intros Hin; apply Hnot; apply elem_of_tile_cells_cons;
                     by right).
    apply Hfs. intros [-> Hc]. apply Hnot.
    apply elem_of_tile_cells_cons. by left.
  - intros idx c n. rewrite Hvr', Hcont, Hvr, bool_decide_tile_cells_cons.
    destruct (bool_decide_reflect ((idx, c) ∈ tile_cells tiles))
      as [Hin|Hin].
    + assert (bool_decide (idx = idx0) && bool_decide (c ∈ box_cells bx0)
              = false) as ->.
      { apply andb_false_iff.
        destruct (bool_decide_reflect (idx = idx0)) as [->|]; [|by left].
        right. apply bool_decide_eq_false_2. intros Hc.
        by apply (Hfresh c Hc). }
      rewrite andb_false_r. cbn [andb orb].
      destruct (lv && true && mf_contains r idx c); [|done].
      apply strang_rate_ext. intros m. by apply Hsame.
    + rewrite orb_false_r, !andb_false_r. cbn [andb]. done.
Qed.

End StrangRankFacts.

(** ** Reductions *)

Lemma real_ne_true x y : real_ne x y = true <-> ~ (x == y)%Q.
Proof.
  unfold real_ne. rewrite negb_true_iff. split.
  - intros H. by apply Qeq_bool_neq.
  - intros H. destruct (Qeq_bool x y) eqn:E; [|done].
    by apply Qeq_bool_eq in E.
Qed.

Lemma real_ne_false x y : real_ne x y = false <-> (x == y)%Q.
Proof.
  unfold real_ne. rewrite negb_false_iff. apply Qeq_bool_iff.
Qed.

(** A sum of 0/1 indicators is nonzero exactly when one of them is 1. *)
Lemma sum_indicators_from {A} (f : A -> bool) (l : list A) (a : Real) :
  (0 <= a)%Q ->
  real_ne (fold_left Qplus (map (fun x => if f x then 1 else 0)%Q l) a) 0
  = real_ne a 0 || existsb f l.
Proof.
  revert a. induction l as [|x l IH]; intros a Ha; simpl.
  { by rewrite orb_false_r. }
  rewrite IH by (destruct (f x); lra).
  destruct (f x); simpl.
  - rewrite orb_true_r.
    assert (real_ne (a + 1) 0 = true) as -> by (apply real_ne_true; lra).
    done.
  - f_equal. apply eq_true_iff_eq. rewrite !real_ne_true.
    split; intros H H'; apply H; lra.
Qed.

Lemma sum_indicators {A} (f : A -> bool) (l : list A) :
  real_ne (fold_left Qplus (map (fun x => if f x then 1 else 0)%Q l) 0%Q) 0
  = existsb f l.
Proof. rewrite sum_indicators_from by lra. done. Qed.

(** The minimum of 0/1 flags is 1 exactly when all of them are 1. *)
Lemma ReduceIntMin_flags (bs : list bool) (b : bool) :
  int_to_bool
    (ReduceIntMin (if b then 0%Z else 1%Z)
       (map (fun b : bool => if b then 0%Z else 1%Z) bs))
  = negb (b || existsb id bs).
Proof.
  unfold ReduceIntMin. revert b.
  induction bs as [|b' bs IH]; intros b; simpl.
  { destruct b; done. }
  replace (Z.min (if b then 0 else 1) (if b' then 0 else 1))%Z
    with (if b || b' then 0%Z else 1%Z) by (by destruct b, b').
  rewrite IH. unfold id. by rewrite orb_assoc.
Qed.

Lemma mapM_result_inv {A B} (f : A -> result B) (l : list A) (l' : list B) :
  mapM f l = Ok l' -> Forall2 (fun x y => f x = Ok y) l l'.
Proof.
  revert l'. induction l as [|x l IH]; intros l'; simpl.
  { intros [= <-]. constructor. }
  destruct (f x) as [y|] eqn:Hy; [|done]. cbn [mbind result_bind].
  destruct (mapM f l) as [k|]; [|done]. cbn [mbind result_bind].
  intros [= <-]. constructor; [done|]. by apply IH.
Qed.

Lemma mapM_result_ok {A B} (f : A -> result B) (l : list A) :
  Forall (fun x => exists y, f x = Ok y) l -> exists l', mapM f l = Ok l'.
Proof.
  induction 1 as [|x l [y Hy] _ [k Hk]]; simpl; [by eexists|].
  rewrite Hy. cbn [mbind result_bind]. rewrite Hk. by eexists.
Qed.

Lemma existsb_elem_of {A} (f : A -> bool) (l : list A) :
  existsb f l = true <-> exists x, x ∈ l /\ f x = true.
Proof.
  rewrite existsb_exists. split; intros (x & H1 & H2); exists x;
    split; try done; by apply list_elem_of_In.
Qed.

(** ** setVal *)

Lemma setVal_same_shape mf v ng : mf_same_shape mf (setVal mf v ng).
Proof.
  repeat split. unfold setVal; simpl. rewrite map_map. by apply map_ext.
Qed.

Lemma setVal_val mf v idx c n :
  mf_val (setVal mf v (nGrow mf)) idx c n
  = if mf_contains mf idx c && (n <? nComp mf)%nat then v
    else mf_val mf idx c n.
Proof.
  unfold mf_val, mf_contains, setVal, fabbox; simpl.
  change (map ?f ?l) with (f <$> l). rewrite list_lookup_fmap.
  by destruct (fabs mf !! idx).
Qed.

Lemma Forall2_map_snd {A B C} (f : A -> result (B * C)) (g : A -> C)
    (l : list A) (l' : list (B * C)) :
  Forall2 (fun x y => f x = Ok y) l l' ->
  (forall x y, x ∈ l -> f x = Ok y -> y.2 = g x) ->
  map snd l' = map g l.
Proof.
  induction 1 as [|x y l l' Hxy _ IH]; intros Hg; [done|].
  simpl. f_equal.
  - apply (Hg x y); [apply elem_of_cons; by left|done].
  - apply IH. intros x' y' Hin. apply Hg. apply elem_of_cons; by right.
Qed.

(** ** One rank and the whole call: Strang *)

Section StrangCallFacts.
Context {bld : Build} {par : Params}.
Variable burner : Strang.burn_t -> Real -> Strang.burn_t.
Variable burn_state_decl : Strang.burn_t.
Variable FillCoarsePatch : MultiFab -> Real -> MultiFab.

Local Abbreviation lv := (level <=? reactions_max_solve_level)%Z.

(** The rate array the loop over the tiles starts from. *)
Lemma strang_rank_inv time dt rk rk' b :
  Strang.react_rank burner burn_state_decl FillCoarsePatch time dt rk
  = Ok (rk', b) ->
  exists s' r' acc',
    foldM (Strang.react_mfi burner burn_state_decl dt) (Strang.mfiter rk)
      (Strang.s rk,
       if (level >? reactions_max_solve_level)%Z && (level >? 0)%Z
       then FillCoarsePatch (Strang.r rk) time else Strang.r rk,
       0%Q) = Ok (s', r', acc')
    /\ rk' = {| Strang.s := s'; Strang.r := r';
                Strang.mfiter := Strang.mfiter rk |}
    /\ b = if real_ne acc' 0 then 0%Z else 1%Z.
Proof.
  unfold Strang.react_rank.
  destruct (foldM _ _ _) as [[[s' r'] acc']|]; [|done].
  cbn [mbind result_bind]. intros [= <- <-]. by eexists _, _, _.
Qed.

Lemma strang_rank_flag time dt rk rk' b :
  tiles_disjoint (Strang.mfiter rk) ->
  Strang.react_rank burner burn_state_decl FillCoarsePatch time dt rk
  = Ok (rk', b) ->
  b = if lv && strang_rank_failed burner burn_state_decl dt rk
      then 0%Z else 1%Z.
Proof.
  intros Hdis (s' & r' & acc' & Hf & -> & ->)%strang_rank_inv.
  apply (strang_tiles_inv _ _ _ _ _ _ _ _ _ _ Hdis) in Hf
    as (_ & -> & _).
  destruct lv; [|done]. cbn [andb].
  unfold strang_burn_failed.
  by rewrite (sum_indicators
                (fun ic => strang_cell_failed burner burn_state_decl
                             (mf_val (Strang.s rk) ic.1 ic.2) dt)).
Qed.

(** The three ways the call returns. *)
Lemma strang_call_inv rk peers time dt out :
  Strang.react_state burner burn_state_decl FillCoarsePatch rk peers time dt
  = Ok out ->
  time_integration_method = CornerTransportUpwind
  /\ (((do_react <> 1%Z
        \/ (do_react = 1%Z
            /\ valid_zones_to_burn (Strang.s rk) (map Strang.s peers)
               = Ok false))
       /\ out = {| Strang.ranks_out := map Strang.skip_rank (rk :: peers);
                   Strang.burn_success := true;
                   Strang.e_added_printed := None |})
      \/ (do_react = 1%Z
          /\ valid_zones_to_burn (Strang.s rk) (map Strang.s peers) = Ok true
          /\ exists rk' b peers',
              Strang.react_rank burner burn_state_decl FillCoarsePatch time
                dt rk = Ok (rk', b)
              /\ mapM (Strang.react_rank burner burn_state_decl
                         FillCoarsePatch time dt) peers = Ok peers'
              /\ Strang.ranks_out out = rk' :: map fst peers'
              /\ Strang.burn_success out
                 = int_to_bool (ReduceIntMin b (map snd peers')))).
Proof.
  intros H. unfold Strang.react_state in H.
  destruct (bool_decide_reflect
              (time_integration_method <> CornerTransportUpwind))
    as [|Hm]; [done|].
  apply dec_stable in Hm. split; [done|].
  destruct (bool_decide_reflect (do_react <> 1%Z)) as [Hr|Hr].
  { injection H as <-. left. auto. }
  apply dec_stable in Hr.
  destruct (valid_zones_to_burn _ _) as [[|]|] eqn:Hg;
    cbn [mbind result_bind negb] in H; [| |done].
  - destruct (Strang.react_rank _ _ _ _ _ rk) as [[rk' b]|]; [|done].
    cbn [mbind result_bind] in H.
    destruct (mapM _ peers) as [peers'|]; [|done].
    cbn [mbind result_bind] in H. injection H as <-.
    right. split; [done|]. split; [done|]. by eexists _, _, _.
  - injection H as <-. left. auto.
Qed.

End StrangCallFacts.

(** ** One rank and the whole call: simplified SDC *)

Section SDCCallFacts.
Context {bld : Build} {par : Params}.
Variable burner : SDC.burn_t -> Real -> SDC.burn_t.
Variable burn_state_decl : SDC.burn_t.
Variable FillBoundary : list MultiFab -> MultiFab -> MultiFab.

Lemma sdc_rank_inv dt rk rk' b :
  SDC.react_rank burner burn_state_decl dt rk = Ok (rk', b) ->
  exists S' R' acc',
    foldM (SDC.react_mfi burner burn_state_decl (SDC.S_old rk)
             (SDC.A_src rk) (SDC.SDC_react_new rk) dt) (SDC.mfiter rk)
      (SDC.S_new rk,
       setVal (SDC.reactions rk) 0 (nGrow (SDC.reactions rk)), 0%Q)
    = Ok (S', R', acc')
    /\ rk' = {| SDC.S_old := SDC.S_old rk; SDC.S_new := S';
                SDC.A_src := SDC.A_src rk; SDC.reactions := R';
                SDC.SDC_react_new := SDC.SDC_react_new rk;
                SDC.mfiter := SDC.mfiter rk |}
    /\ b = if real_ne acc' 0 then 0%Z else 1%Z.
Proof.
  unfold SDC.react_rank.
  destruct (foldM _ _ _) as [[[S' R'] acc']|]; [|done].
  cbn [mbind result_bind]. intros [= <- <-]. by eexists _, _, _.
Qed.

Lemma sdc_rank_flag dt rk rk' b :
  layout_ok ->
  SDC.react_rank burner burn_state_decl dt rk = Ok (rk', b) ->
  b = if sdc_rank_failed burner burn_state_decl dt rk then 0%Z else 1%Z.
Proof.
  intros Hlayout (S' & R' & acc' & Hf & -> & ->)%sdc_rank_inv.
  apply (sdc_tiles_inv _ _ _ _ _ _ Hlayout) in Hf as (_ & -> & _).
  unfold sdc_burn_failed.
  by rewrite (sum_indicators
                (fun ic => sdc_cell_failed burner burn_state_decl
                             (mf_val (SDC.S_old rk) ic.1 ic.2)
                             (mf_val (SDC.S_new rk) ic.1 ic.2)
                             (mf_val (SDC.A_src rk) ic.1 ic.2)
                             (mf_val (SDC.SDC_react_new rk) ic.1 ic.2)
                             ic.2 dt)).
Qed.

Lemma sdc_call_inv rk peers time dt out :
  SDC.react_state burner burn_state_decl FillBoundary rk peers time dt
  = Ok out ->
  time_integration_method = SimplifiedSpectralDeferredCorrections
  /\ exists rk' b peers',
      SDC.react_rank burner burn_state_decl dt rk = Ok (rk', b)
      /\ mapM (SDC.react_rank burner burn_state_decl dt) peers = Ok peers'
      /\ SDC.ranks_out out
         = SDC.fill_boundary FillBoundary (rk' :: map fst peers')
      /\ SDC.burn_success out
         = int_to_bool (ReduceIntMin b (map snd peers')).
Proof.
  intros H. unfold SDC.react_state in H.
  destruct (bool_decide_reflect
              (time_integration_method
               <> SimplifiedSpectralDeferredCorrections))
    as [|Hm]; [done|].
  apply dec_stable in Hm. split; [done|].
  destruct (SDC.react_rank _ _ _ rk) as [[rk' b]|]; [|done].
  cbn [mbind result_bind] in H.
  destruct (mapM _ peers) as [peers'|]; [|done].
  cbn [mbind result_bind] in H. injection H as <-.
  eexists _, _, _. repeat split; try done.
  simpl. by destruct (int_to_bool _).
Qed.

End SDCCallFacts.

(** ** The global success flag *)

(** C4.  For both couplers the success flag the call returns is false if
    and only if at least one cell of some tile of some rank reports an
    integrator failure, that is, the kernel runs on the cell and leaves
    [burn_state.success] false.  (The flag is the cross-rank minimum of
    the per-rank flags, each obtained from the sum of the 0/1 values the
    kernel returns.)  The Strang kernel runs when reactions are enabled,
    the zone gate lets the pass through and the level solves its own
    reactions; the tiles of a rank share no cell.  The SDC kernel always
    runs; the components are laid out in the standard order. *)
Theorem success_flag_iff_no_cell_failed {bld : Build} {par : Params} :
  (forall (burner : Strang.burn_t -> Real -> Strang.burn_t)
          (burn_state_decl : Strang.burn_t)
          (FillCoarsePatch : MultiFab -> Real -> MultiFab)
          (rk : Strang.Rank) (peers : list Strang.Rank) (time dt : Real)
          (out : Strang.Outcome),
      (forall r, r ∈ rk :: peers -> tiles_disjoint (Strang.mfiter r)) ->
      Strang.react_state burner burn_state_decl FillCoarsePatch rk peers
        time dt = Ok out ->
      (Strang.burn_success out = false
       <-> do_react = 1%Z
           /\ valid_zones_to_burn (Strang.s rk) (map Strang.s peers) = Ok true
           /\ (level <= reactions_max_solve_level)%Z
           /\ exists r idx bx c,
               r ∈ rk :: peers /\ (idx, bx) ∈ Strang.mfiter r
               /\ c ∈ box_cells bx
               /\ Strang.success
                    (strang_state_out burner burn_state_decl
                       (mf_val (Strang.s r) idx c) dt) = false))
  /\ (forall (burner : SDC.burn_t -> Real -> SDC.burn_t)
             (burn_state_decl : SDC.burn_t)
             (FillBoundary : list MultiFab -> MultiFab -> MultiFab)
             (rk : SDC.Rank) (peers : list SDC.Rank) (time dt : Real)
             (out : SDC.Outcome),
         layout_ok ->
         SDC.react_state burner burn_state_decl FillBoundary rk peers time dt
         = Ok out ->
         (SDC.burn_success out = false
          <-> exists r idx bx c,
              r ∈ rk :: peers /\ (idx, bx) ∈ SDC.mfiter r
              /\ c ∈ box_cells bx
              /\ SDC.success
                   (sdc_state_out burner burn_state_decl
                      (mf_val (SDC.S_old r) idx c) (mf_val (SDC.S_new r) idx c)
                      (mf_val (SDC.A_src r) idx c)
                      (mf_val (SDC.SDC_react_new r) idx c) c dt) = false)).
Proof.
  split.
  - intros burner decl FCP rk peers time dt out Hdis H.
    apply strang_call_inv in H as (_ & [[Hskip ->]|(Hr & Hg & H)]).
    { simpl. split; [done|]. intros (Hr & Hg & _). destruct Hskip as [|[_ ?]];
        congruence. }
    destruct H as (rk' & b & peers' & Hrk & Hpeers & _ & ->).
    apply strang_rank_flag in Hrk; [|apply Hdis, elem_of_cons; by left].
    apply mapM_result_inv in Hpeers.
    rewrite (Forall2_map_snd _
               (fun r => if (level <=? reactions_max_solve_level)%Z
                            && strang_rank_failed burner decl dt r
                         then 0%Z else 1%Z) _ _ Hpeers).
    2:{ intros r [r' b'] Hin Hr'. simpl.
        eapply strang_rank_flag; [|done]. apply Hdis, elem_of_cons. by right. }
    rewrite Hrk.
    rewrite <- (map_map
                  (fun r => (level <=? reactions_max_solve_level)%Z
                            && strang_rank_failed burner decl dt r)
                  (fun b : bool => if b then 0%Z else 1%Z)).
    rewrite ReduceIntMin_flags, negb_false_iff.
    change (?b || existsb id (map ?f peers) = true)
      with (existsb id (map f (rk :: peers)) = true).
    rewrite existsb_elem_of. split.
    + intros (x & Hx & Hid). change (map ?f ?l) with (f <$> l) in Hx.
      apply list_elem_of_fmap in Hx as (r & -> & Hin).
      unfold id in Hid. apply andb_true_iff in Hid as [Hlv Hf].
      apply Z.leb_le in Hlv. repeat split; try done.
      unfold strang_rank_failed in Hf.
      apply existsb_elem_of in Hf as ([idx c] & Hic & Hf).
      apply elem_of_tile_cells in Hic as (bx & Hbx & Hc).
      exists r, idx, bx, c. repeat split; try done.
      unfold strang_cell_failed in Hf. by apply negb_true_iff in Hf.
    + intros (_ & _ & Hlv & r & idx & bx & c & Hin & Hbx & Hc & Hf).
      exists true. split; [|done].
      change (map ?f ?l) with (f <$> l). apply list_elem_of_fmap.
      exists r. split; [|done]. symmetry. apply andb_true_iff.
      split; [by apply Z.leb_le|].
      unfold strang_rank_failed. apply existsb_elem_of.
      exists (idx, c). split; [apply elem_of_tile_cells; eauto|].
      unfold strang_cell_failed. simpl. by rewrite Hf.
  - intros burner decl FB rk peers time dt out Hlayout H.
    apply sdc_call_inv in H as (_ & rk' & b & peers' & Hrk & Hpeers & _ & ->).
    apply (sdc_rank_flag _ _ _ _ _ _ Hlayout) in Hrk.
    apply mapM_result_inv in Hpeers.
    rewrite (Forall2_map_snd _
               (fun r => if sdc_rank_failed burner decl dt r
                         then 0%Z else 1%Z) _ _ Hpeers).
    2:{ intros r [r' b'] Hin Hr'. simpl. by eapply sdc_rank_flag. }
    rewrite Hrk.
    rewrite <- (map_map (fun r => sdc_rank_failed burner decl dt r)
                  (fun b : bool => if b then 0%Z else 1%Z)).
    rewrite ReduceIntMin_flags, negb_false_iff.
    change (?b || existsb id (map ?f peers) = true)
      with (existsb id (map f (rk :: peers)) = true).
    rewrite existsb_elem_of. split.
    + intros (x & Hx & Hid). change (map ?f ?l) with (f <$> l) in Hx.
      apply list_elem_of_fmap in Hx as (r & -> & Hin).
      unfold id, sdc_rank_failed in Hid.
      apply existsb_elem_of in Hid as ([idx c] & Hic & Hf).
      apply elem_of_tile_cells in Hic as (bx & Hbx & Hc).
      exists r, idx, bx, c. repeat split; try done.
      unfold sdc_cell_failed in Hf. by apply negb_true_iff in Hf.
    + intros (r & idx & bx & c & Hin & Hbx & Hc & Hf).
      exists true. split; [|done].
      change (map ?f ?l) with (f <$> l). apply list_elem_of_fmap.
      exists r. split; [|done]. symmetry.
      unfold sdc_rank_failed. apply existsb_elem_of.
      exists (idx, c). split; [apply elem_of_tile_cells; eauto|].
      unfold sdc_cell_failed. simpl. by rewrite Hf.
Qed.

(** ** The new state after the SDC coupler *)

Lemma layout_ok_hydro {bld : Build} :
  layout_ok ->
  (URHO <> UEDEN /\ URHO <> UEINT /\ URHO < UFS
   /\ UMX <> UEDEN /\ UMX <> UEINT /\ UMX < UFS
   /\ UMY <> UEDEN /\ UMY <> UEINT /\ UMY < UFS
   /\ UMZ <> UEDEN /\ UMZ <> UEINT /\ UMZ < UFS)%nat.
Proof.
  intros (Hnd & Hlt & _).
  rewrite !list.NoDup_cons, !not_elem_of_cons in Hnd.
  destruct_and!. repeat split; done.
Qed.

Section SDCFrame.
Context {bld : Build} {par : Params}.
Hypothesis Hlayout : layout_ok.

Lemma sdc_stored_hydro out n old :
  (n <> UEDEN -> n <> UEINT -> n < UFS -> sdc_stored out n old = old)%nat.
Proof using Hlayout.
  intros H1 H2 H3. pose proof (layout_ok_energy Hlayout) as (_ & _ & _ & ?).
  unfold sdc_stored. repeat case_nat_test; done.
Qed.

Lemma sdc_stored_other out n old :
  n <> UEDEN -> n <> UEINT -> ~ (UFS <= n < UFS + NumSpec)%nat ->
  ~ (UFX <= n < UFX + NumAux)%nat -> sdc_stored out n old = old.
Proof. intros. unfold sdc_stored. repeat case_nat_test; done. Qed.

Lemma sdc_stored_eden out old : sdc_stored out UEDEN old = SDC.y out SEDEN.
Proof using Hlayout.
  pose proof (layout_ok_energy Hlayout) as (? & ? & ? & ?).
  unfold sdc_stored. repeat case_nat_test; done.
Qed.

Lemma sdc_stored_eint out old : sdc_stored out UEINT old = SDC.y out SEINT.
Proof using Hlayout.
  pose proof (layout_ok_energy Hlayout) as (? & ? & ? & ?).
  unfold sdc_stored. repeat case_nat_test; done.
Qed.

Lemma sdc_stored_spec out n old :
  (n < NumSpec)%nat -> sdc_stored out (UFS + n) old = SDC.y out (SFS + n).
Proof using Hlayout.
  intros Hn. pose proof (layout_ok_energy Hlayout) as (? & ? & ? & ?).
  unfold sdc_stored. repeat case_nat_test.
  all: by replace (UFS + n - UFS)%nat with n by lia.
Qed.

Lemma sdc_stored_aux out n old :
  (n < NumAux)%nat -> sdc_stored out (UFX + n) old = SDC.y out (SFX + n).
Proof.
  intros Hn. unfold sdc_stored. repeat case_nat_test.
  all: by replace (UFX + n - UFX)%nat with n by lia.
Qed.

Lemma sdc_rank_frame burner burn_state_decl dt rk rk' b :
  SDC.react_rank burner burn_state_decl dt rk = Ok (rk', b) ->
  mf_same_shape (SDC.S_new rk) (SDC.S_new rk')
  /\ forall idx c,
      sdc_cell_frame burner burn_state_decl dt rk (SDC.S_new rk') idx c.
Proof using Hlayout.
  intros (S' & R' & acc' & Hf & -> & _)%sdc_rank_inv.
  apply (sdc_tiles_inv _ _ _ _ _ _ Hlayout) in Hf
    as (_ & _ & Hshape & _ & HvS & _).
  split; [done|]. intros idx c. unfold sdc_cell_frame. cbn [SDC.S_new].
  pose proof (layout_ok_hydro Hlayout) as Hh. destruct_and!.
  split; [|split].
  - rewrite !HvS.
    destruct (_ && _); rewrite ?sdc_stored_hydro; done.
  - intros Hnot n. rewrite HvS.
    destruct Hnot as [->|Hnot]; [by rewrite andb_false_r|].
    by rewrite (bool_decide_eq_false_2 _ Hnot).
  - intros Hb Hin. rewrite !HvS, Hb, (bool_decide_eq_true_2 _ Hin).
    cbn [andb].
    split; [apply sdc_stored_eden|]. split; [apply sdc_stored_eint|].
    split; [intros n Hn; rewrite HvS, Hb, (bool_decide_eq_true_2 _ Hin);
            by apply sdc_stored_spec|].
    split; [intros n Hn; rewrite HvS, Hb, (bool_decide_eq_true_2 _ Hin);
            by apply sdc_stored_aux|].
    intros n ? ? ? ?. rewrite HvS, Hb, (bool_decide_eq_true_2 _ Hin).
    by apply sdc_stored_other.
Qed.

End SDCFrame.

Lemma mf_same_shape_valid mf mf' idx c :
  mf_same_shape mf mf' -> mf_valid mf' idx c = mf_valid mf idx c.
Proof.
  intros (_ & _ & H). unfold mf_valid.
  apply (f_equal (fun l => l !! idx)) in H.
  change (map ?f ?l) with (f <$> l) in H. rewrite !list_lookup_fmap in H.
  destruct (fabs mf' !! idx), (fabs mf !! idx); simpl in H; try done.
  by injection H as ->.
Qed.

Lemma sdc_cell_frame_ext {bld : Build} {par : Params} burner burn_state_decl
    dt rk S' S'' idx c :
  (forall n, mf_val S'' idx c n = mf_val S' idx c n) ->
  sdc_cell_frame burner burn_state_decl dt rk S' idx c ->
  sdc_cell_frame burner burn_state_decl dt rk S'' idx c.
Proof.
  intros Heq. unfold sdc_cell_frame. cbv zeta.
  by repeat setoid_rewrite Heq.
Qed.

(** The periodic exchange is a halo exchange in the sense assumed. *)
Lemma wrap_index_inside lo hi i :
  (lo <= i <= hi)%Z -> wrap_index lo hi i = i.
Proof. intros H. unfold wrap_index. rewrite Z.mod_small; lia. Qed.

Lemma periodic_image_inside b c :
  box_contains b c = true -> periodic_image b c = c.
Proof.
  destruct b as [[[li lj] lk] [[hi hj] hk]], c as [[i j] k].
  unfold box_contains, periodic_image. cbn [smallEnd bigEnd].
  rewrite !andb_true_iff, !Z.leb_le. intros ?. destruct_and!.
  by rewrite !wrap_index_inside by lia.
Qed.

Lemma periodic_fill_fills_ghost_cells_only :
  fills_ghost_cells_only periodic_fill.
Proof.
  intros all mf. split.
  - repeat split. unfold periodic_fill. cbn [fabs].
    rewrite map_map. apply map_ext. by intros f.
  - intros idx c n. unfold mf_valid, mf_val, periodic_fill. cbn [fabs].
    change (map ?f ?l) with (f <$> l). rewrite list_lookup_fmap.
    destruct (fabs mf !! idx) as [f|]; [|done].
    cbn [fmap option_fmap option_map fab_val validbox].
    intros Hc. rewrite (periodic_image_inside _ _ Hc).
    by destruct (box_contains (fabbox mf f) c).
Qed.



(** ** The early exits of the Strang coupler *)

(** C10.  When [do_react] is not 1, or when [valid_zones_to_burn] returns
    false, the Strang [react_state] (called under the CTU method)
    returns success, leaves the state of every rank as it was, and its
    outcome is the same whatever the integrator is: the integrator is
    not invoked on any cell. *)
Theorem strang_skip_returns_success_state_untouched
    {bld : Build} {par : Params}
    (burner : Strang.burn_t -> Real -> Strang.burn_t)
    (burn_state_decl : Strang.burn_t)
    (FillCoarsePatch : MultiFab -> Real -> MultiFab)
    (rk : Strang.Rank) (peers : list Strang.Rank) (time dt : Real) :
  time_integration_method = CornerTransportUpwind ->
  do_react <> 1%Z
  \/ valid_zones_to_burn (Strang.s rk) (map Strang.s peers) = Ok false ->
  exists out,
    Strang.react_state burner burn_state_decl FillCoarsePatch rk peers time dt
    = Ok out
    /\ Strang.burn_success out = true
    /\ map Strang.s (Strang.ranks_out out) = map Strang.s (rk :: peers)
    /\ forall burner' burn_state_decl' FillCoarsePatch',
        Strang.react_state burner' burn_state_decl' FillCoarsePatch' rk peers
          time dt = Ok out.
Proof.
  intros Hm Hskip.
  exists {| Strang.ranks_out := map Strang.skip_rank (rk :: peers);
            Strang.burn_success := true;
            Strang.e_added_printed := None |}.
  assert (forall b d F,
            Strang.react_state b d F rk peers time dt
            = Ok {| Strang.ranks_out := map Strang.skip_rank (rk :: peers);
                    Strang.burn_success := true;
                    Strang.e_added_printed := None |}) as Hall.
  { intros b d F. unfold Strang.react_state.
    rewrite bool_decide_eq_false_2 by (intros H; by apply H).
    destruct (bool_decide_reflect (do_react <> 1%Z)) as [|Hr]; [done|].
    destruct Hskip as [|Hg]; [done|]. by rewrite Hg. }
  split; [apply Hall|]. split; [done|]. split; [|apply Hall].
  cbn [Strang.ranks_out]. rewrite map_map. by apply map_ext.
Qed.

(** ** Where the rate array is reset *)

Lemma Forall2_fmap_r_weaken {A B C} (P : A -> B -> Prop) (Q : A -> C -> Prop)
    (g : B -> C) (l : list A) (l' : list B) :
  Forall2 P l l' -> (forall x y, P x y -> Q x (g y)) ->
  Forall2 Q l (map g l').
Proof.
  induction 1; intros HPQ; cbn [map]; constructor; auto.
Qed.

(** C7, amended.  The SDC coupler resets the rate array to zero over its
    full halo extent at the start of every call, before any per-cell
    write: after the call an entry of the allocated region is the rate
    the kernel stored over the zero if the cell is a burned cell of a
    tile, and zero otherwise; entries outside the allocated region are
    left as they were.  The Strang coupler resets the rate array to zero
    over its full halo extent on its two early exits ([do_react] not 1,
    zone gate false), which leave every entry of the allocated region
    zero.  On its main path the Strang coupler does not reset the array:
    an entry is rewritten only by the kernel, at the cells of the tile
    boxes that lie inside the rate array and when the level solves its
    own reactions, with the value the kernel stores (a rate, or 0 and
    the cost 1 at a cell that is not burned); every other entry keeps
    the value it had after the optional FillCoarsePatch. *)
Theorem rate_array_reset_by_path {bld : Build} {par : Params} :
  (forall (burner : SDC.burn_t -> Real -> SDC.burn_t)
          (burn_state_decl : SDC.burn_t)
          (FillBoundary : list MultiFab -> MultiFab -> MultiFab)
          (rk : SDC.Rank) (peers : list SDC.Rank) (time dt : Real)
          (out : SDC.Outcome),
      layout_ok ->
      SDC.react_state burner burn_state_decl FillBoundary rk peers time dt
      = Ok out ->
      Forall2
        (fun r r' =>
           forall idx c n,
             let uo := mf_val (SDC.S_old r) idx c in
             let un := mf_val (SDC.S_new r) idx c in
             let bs :=
               sdc_state_out burner burn_state_decl uo un
                 (mf_val (SDC.A_src r) idx c)
                 (mf_val (SDC.SDC_react_new r) idx c) c dt in
             (mf_contains (SDC.reactions r) idx c = true ->
              (n < nComp (SDC.reactions r))%nat ->
              mf_val (SDC.reactions r') idx c n
              = if bool_decide ((idx, c) ∈ tile_cells (SDC.mfiter r))
                   && sdc_do_burn uo un
                then sdc_rate uo (fun m => sdc_stored bs m (un m)) bs dt n 0
                else 0%Q)
             /\ (mf_contains (SDC.reactions r) idx c = false ->
                 mf_val (SDC.reactions r') idx c n
                 = mf_val (SDC.reactions r) idx c n))
        (rk :: peers) (SDC.ranks_out out))
  /\ (forall (burner : Strang.burn_t -> Real -> Strang.burn_t)
             (burn_state_decl : Strang.burn_t)
             (FillCoarsePatch : MultiFab -> Real -> MultiFab)
             (rk : Strang.Rank) (peers : list Strang.Rank) (time dt : Real)
             (out : Strang.Outcome),
         Strang.react_state burner burn_state_decl FillCoarsePatch rk peers
           time dt = Ok out ->
         (do_react <> 1%Z
          \/ valid_zones_to_burn (Strang.s rk) (map Strang.s peers) = Ok false
          ->
          Forall2
            (fun r r' =>
               forall idx c n,
                 mf_contains (Strang.r r) idx c = true ->
                 (n < nComp (Strang.r r))%nat ->
                 mf_val (Strang.r r') idx c n = 0%Q)
            (rk :: peers) (Strang.ranks_out out))
         /\ (do_react = 1%Z ->
             valid_zones_to_burn (Strang.s rk) (map Strang.s peers) = Ok true
             ->
             Forall2
               (fun r r' =>
                  tiles_disjoint (Strang.mfiter r) ->
                  let r0 :=
                    if (level >? reactions_max_solve_level)%Z && (level >? 0)%Z
                    then FillCoarsePatch (Strang.r r) time else Strang.r r in
                  forall idx c n,
                    mf_val (Strang.r r') idx c n
                    = if (level <=? reactions_max_solve_level)%Z
                         && bool_decide ((idx, c) ∈ tile_cells (Strang.mfiter r))
                         && mf_contains r0 idx c
                      then strang_rate burner burn_state_decl
                             (mf_val (Strang.s r) idx c) dt n
                             (mf_val r0 idx c n)
                      else mf_val r0 idx c n)
               (rk :: peers) (Strang.ranks_out out))).
Proof.
  split.
  - intros burner decl FB rk peers time dt out Hlayout H.
    apply sdc_call_inv in H as (_ & rk' & b & peers' & Hrk & Hpeers & -> & _).
    apply mapM_result_inv in Hpeers.
    assert (Forall2 (fun r (y : SDC.Rank * Z) =>
                       SDC.react_rank burner decl dt r = Ok y)
              (rk :: peers) ((rk', b) :: peers')) as Hall
      by (by constructor).
    change (rk' :: map fst peers') with (map fst ((rk', b) :: peers')).
    unfold SDC.fill_boundary. rewrite map_map.
    eapply Forall2_fmap_r_weaken; [exact Hall|].
    intros r [r1 b1] Hr idx c n. cbv zeta.
    assert (SDC.reactions
              (if (nGrow (SDC.S_new (r1, b1).1) >? 0)%Z
               then {| SDC.S_old := SDC.S_old (r1, b1).1;
                       SDC.S_new :=
                         FB (map SDC.S_new (map fst ((rk', b) :: peers')))
                           (SDC.S_new (r1, b1).1);
                       SDC.A_src := SDC.A_src (r1, b1).1;
                       SDC.reactions := SDC.reactions (r1, b1).1;
                       SDC.SDC_react_new := SDC.SDC_react_new (r1, b1).1;
                       SDC.mfiter := SDC.mfiter (r1, b1).1 |}
               else (r1, b1).1) = SDC.reactions r1) as ->
      by (by destruct (_ >? _)%Z).
    apply sdc_rank_inv in Hr as (S' & R' & acc' & Hf & -> & _).
    apply (sdc_tiles_inv _ _ _ _ _ _ Hlayout) in Hf
      as (_ & _ & _ & _ & _ & HvR).
    cbn [SDC.reactions]. rewrite HvR.
    rewrite (mf_same_shape_contains _ _ _ _ (setVal_same_shape _ _ _)).
    rewrite setVal_val. split.
    + intros Hc Hn. rewrite Hc, (proj2 (Nat.ltb_lt _ _) Hn). cbn [andb].
      by rewrite andb_true_r.
    + intros Hc. rewrite Hc. cbn [andb]. by rewrite !andb_false_r.
  - intros burner decl FCP rk peers time dt out H.
    apply strang_call_inv in H as (_ & [[Hskip ->]|(Hr & Hg & H)]).
    + split.
      * intros _. cbn [Strang.ranks_out].
        eapply Forall2_fmap_r_weaken; [apply Forall2_same_length_lookup_2;
                                       [done|intros i x y Hx Hy]|].
        { apply (eq_trans (eq_sym Hy)) in Hx. injection Hx as Hxy.
          exact Hxy. }
        intros r ? <- idx c n Hc Hn. cbn [Strang.skip_rank Strang.r].
        by rewrite setVal_val, Hc, (proj2 (Nat.ltb_lt _ _) Hn).
      * intros Hr Hg. destruct Hskip as [|[_ ?]]; congruence.
    + destruct H as (rk' & b & peers' & Hrk & Hpeers & -> & _).
      split; [intros [|]; congruence|]. intros _ _.
      apply mapM_result_inv in Hpeers.
      assert (Forall2 (fun r (y : Strang.Rank * Z) =>
                         Strang.react_rank burner decl FCP time dt r = Ok y)
                (rk :: peers) ((rk', b) :: peers')) as Hall
        by (by constructor).
      change (rk' :: map fst peers') with (map fst ((rk', b) :: peers')).
      eapply Forall2_fmap_r_weaken; [exact Hall|].
      intros r [r1 b1] Hr1 Hdis. cbv zeta. intros idx c n.
      apply strang_rank_inv in Hr1 as (s' & r' & acc' & Hf & -> & _).
      apply (strang_tiles_inv _ _ _ _ _ _ _ _ _ _ Hdis) in Hf
        as (_ & _ & _ & _ & _ & HvR).
      cbn [fst Strang.r]. apply HvR.
Qed.
(** ** Where the Strang kernel is defined *)



(** ** Claims settled by evaluating the code on the examples *)

(** The Strang coupler, in a pass over disjoint tiles: at a cell the
    kernel visits inside the rate array and does not burn, the species,
    auxiliary and energy rates are 0 and the cost is 1. *)
Lemma strang_unburned_cell_rates {bld : Build} {par : Params}
    (burner : Strang.burn_t -> Real -> Strang.burn_t)
    (burn_state_decl : Strang.burn_t)
    (FillCoarsePatch : MultiFab -> Real -> MultiFab)
    (time dt : Real) (rk rk' : Strang.Rank) (b : Z) (idx : nat) (c : Cell) :
  tiles_disjoint (Strang.mfiter rk) ->
  Strang.react_rank burner burn_state_decl FillCoarsePatch time dt rk
  = Ok (rk', b) ->
  (level <= reactions_max_solve_level)%Z ->
  (idx, c) ∈ tile_cells (Strang.mfiter rk) ->
  mf_contains (Strang.r rk) idx c = true ->
  strang_do_burn (mf_val (Strang.s rk) idx c) = false ->
  (forall n, (n <= NumSpec + NumAux)%nat -> mf_val (Strang.r rk') idx c n = 0%Q)
  /\ mf_val (Strang.r rk') idx c (NumSpec + NumAux + 1) = 1%Q.
Proof.
  intros Hdis (s' & r' & acc' & Hf & -> & _)%strang_rank_inv Hlv Hin Hc Hb.
  apply (strang_tiles_inv _ _ _ _ _ _ _ _ _ _ Hdis) in Hf
    as (_ & _ & _ & _ & _ & HvR).
  assert ((level >? reactions_max_solve_level)%Z = false) as Hgt
    by (destruct (Z.gtb_spec level reactions_max_solve_level); [lia|done]).
  rewrite Hgt in HvR. cbn [andb] in HvR. cbn [Strang.r].
  split; [intros n Hn|]; rewrite HvR, (proj2 (Z.leb_le _ _) Hlv),
    (bool_decide_eq_true_2 _ Hin), Hc; cbn [andb];
    unfold strang_rate; rewrite Hb.
  - by destruct (Nat.ltb_spec n (NumSpec + NumAux + 1)); [|lia].
  - destruct (Nat.ltb_spec (NumSpec + NumAux + 1) (NumSpec + NumAux + 1));
      [lia|].
    by rewrite Nat.eqb_refl.
Qed.

(** C1, evaluated where it fails.  In the SDC call of the example the
    first cell is colder than [react_T_min], so it is not burned; it lies
    inside the rate array, its species and energy rates are 0, and its
    cost entry is the 0 the reset left there, not 1.  (The second cell
    is burned and has cost 7.) *)
Theorem sdc_unburned_cell_cost_is_zero :
  @sdc_do_burn demo_build sdc_window_params
    (mf_val demo_state 0 (0, 0, 0)%Z) (mf_val demo_state 0 (0, 0, 0)%Z) = false
  /\ match demo_sdc_call sdc_window_params with
     | Ok out =>
         match SDC.ranks_out out with
         | [rk'] =>
             mf_contains (SDC.reactions rk') 0 (0, 0, 0)%Z = true
             /\ mf_val (SDC.reactions rk') 0 (0, 0, 0)%Z 0 = 0%Q
             /\ mf_val (SDC.reactions rk') 0 (0, 0, 0)%Z 1 = 0%Q
             /\ mf_val (SDC.reactions rk') 0 (0, 0, 0)%Z 2 = 0%Q
             /\ mf_val (SDC.reactions rk') 0 (0, 0, 0)%Z 3 = 0%Q
             /\ mf_val (SDC.reactions rk') 0 (1, 0, 0)%Z 3 = 7%Q
         | _ => False
         end
     | Err _ => False
     end.
Proof. vm_compute. repeat split. Qed.

(** The Strang call on the same cells and window leaves the cost 1 at
    the cell that is not burned. *)
Lemma strang_unburned_cell_cost_is_one :
  match demo_strang_call
          (castro_params CornerTransportUpwind 1 100 1e200%Q 0 1e200%Q false) 0
  with
  | Ok out =>
      match Strang.ranks_out out with
      | [rk'] =>
          mf_val (Strang.r rk') 0 (0, 0, 0)%Z 2 = 0%Q
          /\ mf_val (Strang.r rk') 0 (0, 0, 0)%Z 3 = 1%Q
      | _ => False
      end
  | Err _ => False
  end.
Proof. vm_compute. repeat split. Qed.

(** C6, evaluated where it fails.  The build of the example has no
    auxiliary variable, so the energy rate is component [NumSpec + NumAux]
    = 2 of the rate array and component [NumSpec + 1] = 3 is the cost.
    With the diagnostics on, the Strang call prints 14, the sum of the
    costs, while the energy rates sum to 18; the SDC call prints 7 while
    the energy rates sum to 2. *)
Theorem energy_diagnostic_sums_the_cost :
  match demo_strang_call (default_params CornerTransportUpwind true) 0 with
  | Ok out =>
      match Strang.e_added_printed out with
      | Some e_added =>
          (e_added == 14)%Q
          /\ (strang_rate_sum (Strang.ranks_out out)
                (@NumSpec demo_build + @NumAux demo_build) == 18)%Q
          /\ (strang_rate_sum (Strang.ranks_out out) (@NumSpec demo_build + 1)
              == 14)%Q
      | None => False
      end
  | Err _ => False
  end
  /\ match demo_sdc_call sdc_window_params with
     | Ok out =>
         match SDC.e_added_printed out with
         | Some e_added =>
             (e_added == 7)%Q
             /\ (sdc_rate_sum (SDC.ranks_out out)
                   (@NumSpec demo_build + @NumAux demo_build) == 2)%Q
         | None => False
         end
     | Err _ => False
     end.
Proof. vm_compute. repeat split. Qed.

(** The Strang call of the example on its main path, with a rate array
    that has one ghost cell more than the state. *)
Lemma demo_strang_ghost_call_eval :
  match demo_strang_call (default_params CornerTransportUpwind false) 1 with
  | Ok out =>
      match Strang.ranks_out out with
      | [rk'] =>
          Strang.mfiter rk' = [(0%nat, two_cells)]
          /\ nComp (Strang.r rk') = 4%nat
          /\ mf_contains (Strang.r rk') 0 (2, 0, 0)%Z = true
          /\ mf_val (Strang.r rk') 0 (2, 0, 0)%Z 0 = 7%Q
      | _ => False
      end
  | Err _ => False
  end.
Proof. vm_compute. repeat split. Qed.

(** C7, as stated, fails on the main path of the Strang coupler: the
    rate array is not reset there, so an entry of a cell the kernel does
    not visit (here a ghost cell of the rate array outside the tile box)
    is neither zero nor freshly computed; it still holds the 7 it held
    before the call. *)
Lemma strang_main_path_does_not_reset :
  match demo_strang_call (default_params CornerTransportUpwind false) 1 with
  | Ok out =>
      ~ (forall rk' idx c n,
           rk' ∈ Strang.ranks_out out ->
           mf_contains (Strang.r rk') idx c = true ->
           (n < nComp (Strang.r rk'))%nat ->
           (mf_val (Strang.r rk') idx c n == 0)%Q
           \/ (idx, c) ∈ tile_cells (Strang.mfiter rk'))
  | Err _ => False
  end.
Proof.
  pose proof demo_strang_ghost_call_eval as H.
  destruct (demo_strang_call _ _) as [out|]; [|done].
  destruct (Strang.ranks_out out) as [|rk' [|]]; try done.
  destruct H as (Hit & Hn & Hc & Hv). intros Hall.
  destruct (Hall rk' 0%nat (2, 0, 0)%Z 0%nat) as [H0|Hin].
  - apply elem_of_cons. by left.
  - done.
  - rewrite Hn. lia.
  - rewrite Hv in H0. discriminate H0.
  - rewrite Hit in Hin.
    apply elem_of_tile_cells in Hin as (bx & Hbx & Hin).
    apply elem_of_cons in Hbx as [[= ->]|Hbx];
      [|by apply elem_of_nil in Hbx].
    apply elem_of_box_cells in Hin. discriminate Hin.
Qed.

(** ** The theorems applied to the examples *)

Lemma demo_tiles_disjoint ng :
  forall r, r ∈ [demo_rank ng] -> tiles_disjoint (Strang.mfiter r).
Proof.
  intros r Hr. apply elem_of_cons in Hr as [->|Hr];
    [|by apply elem_of_nil in Hr].
  unfold tiles_disjoint. vm_compute.
  apply NoDup_cons_2; [|apply NoDup_singleton].
  intros H. apply elem_of_cons in H as [H|H]; [discriminate H|].
  by apply elem_of_nil in H.
Defined.

(** The success flag on the examples: the second cell is hotter than 100, the
    integrator fails on it, and both calls return failure. *)
Lemma success_flag_iff_no_cell_failed_witness :
  match demo_strang_call (default_params CornerTransportUpwind false) 0 with
  | Ok out => Strang.burn_success out = false
  | Err _ => False
  end
  /\ match demo_sdc_call sdc_window_params with
     | Ok out => SDC.burn_success out = false
     | Err _ => False
     end.
Proof.
  split.
  - destruct (demo_strang_call _ _) as [out|] eqn:E;
      [|vm_compute in E; discriminate E].
    unfold demo_strang_call in E.
    pose proof (proj1 (@success_flag_iff_no_cell_failed demo_build
                         (default_params CornerTransportUpwind false))
                  toy_burner blank_burn_state no_coarse_patch (demo_rank 0) []
                  0%Q (1 # 2)%Q out (demo_tiles_disjoint 0) E) as [_ Hif].
    apply Hif. clear Hif E.
    split; [reflexivity|]. split; [vm_compute; reflexivity|].
    split; [vm_compute; discriminate|].
    exists (demo_rank 0), 0%nat, two_cells, (1, 0, 0)%Z.
    split; [apply elem_of_cons; by left|].
    split; [apply elem_of_cons; by left|].
    split; [apply elem_of_box_cells; reflexivity|].
    vm_compute. reflexivity.
  - destruct (demo_sdc_call _) as [out|] eqn:E;
      [|vm_compute in E; discriminate E].
    unfold demo_sdc_call in E.
    pose proof (proj2 (@success_flag_iff_no_cell_failed demo_build
                         sdc_window_params)
                  toy_sdc_burner blank_sdc_burn_state no_fill_boundary
                  demo_sdc_rank [] 0%Q (1 # 2)%Q out
                  (castro_layout_ok _ _ _ _) E) as [_ Hif].
    apply Hif. clear Hif E.
    exists demo_sdc_rank, 0%nat, two_cells, (1, 0, 0)%Z.
    split; [apply elem_of_cons; by left|].
    split; [apply elem_of_cons; by left|].
    split; [apply elem_of_box_cells; reflexivity|].
    vm_compute. reflexivity.
Defined.


(** The early exit on the example with reactions switched off. *)
Lemma strang_skip_returns_success_state_untouched_witness :
  exists out,
    demo_strang_call no_react_params 0 = Ok out
    /\ Strang.burn_success out = true
    /\ map Strang.s (Strang.ranks_out out) = map Strang.s [demo_rank 0]
    /\ forall burner' burn_state_decl' FillCoarsePatch',
        @Strang.react_state demo_build no_react_params burner'
          burn_state_decl' FillCoarsePatch' (demo_rank 0) [] 0 (1 # 2)
        = Ok out.
Proof.
  apply (@strang_skip_returns_success_state_untouched demo_build
           no_react_params toy_burner blank_burn_state no_coarse_patch
           (demo_rank 0) [] 0%Q (1 # 2)%Q).
  - reflexivity.
  - left. vm_compute. discriminate.
Defined.

(** The reset on the examples: after the Strang call with reactions switched
    off the rate array is zero, and after the SDC call the entries of
    the cell that is not burned are zero. *)
Lemma rate_array_reset_by_path_witness :
  match demo_strang_call no_react_params 1 with
  | Ok out =>
      match Strang.ranks_out out with
      | [rk'] => mf_val (Strang.r rk') 0 (2, 0, 0)%Z 0 = 0%Q
      | _ => False
      end
  | Err _ => False
  end
  /\ match demo_sdc_call sdc_window_params with
     | Ok out =>
         match SDC.ranks_out out with
         | [rk'] => mf_val (SDC.reactions rk') 0 (0, 0, 0)%Z 3 = 0%Q
         | _ => False
         end
     | Err _ => False
     end.
Proof.
  split.
  - destruct (demo_strang_call _ _) as [out|] eqn:E;
      [|vm_compute in E; discriminate E].
    pose proof (proj1 (proj2 (@rate_array_reset_by_path demo_build
                                no_react_params)
                         toy_burner blank_burn_state no_coarse_patch
                         (demo_rank 1) [] 0%Q (1 # 2)%Q out E)
                  ltac:(left; vm_compute; discriminate)) as H.
    inversion H as [|r r' l l' Hz Hl]; subst. inversion Hl; subst.
    apply Hz; [vm_compute; reflexivity|vm_compute; lia].
  - destruct (demo_sdc_call _) as [out|] eqn:E;
      [|vm_compute in E; discriminate E].
    pose proof (proj1 (@rate_array_reset_by_path demo_build
                         sdc_window_params)
                  toy_sdc_burner blank_sdc_burn_state no_fill_boundary
                  demo_sdc_rank [] 0%Q (1 # 2)%Q out
                  (castro_layout_ok _ _ _ _) E) as H.
    inversion H as [|r r' l l' Hz Hl]; subst. inversion Hl; subst.
    destruct (Hz 0%nat (0, 0, 0)%Z 3%nat) as [H0 _].
    rewrite H0; [vm_compute; reflexivity|vm_compute; reflexivity
                |vm_compute; lia].
Defined.
(** ** The extremes the zone gate collects *)

Lemma real_le_iff x y : real_le x y = true <-> (x <= y)%Q.
Proof. apply Qle_bool_iff. Qed.

Lemma real_ge_iff x y : real_ge x y = true <-> (y <= x)%Q.
Proof. apply Qle_bool_iff. Qed.

Lemma real_lt_iff x y : real_lt x y = true <-> (x < y)%Q.
Proof.
  unfold real_lt. rewrite negb_true_iff, <- not_true_iff_false, Qle_bool_iff.
  split; [apply Qnot_le_lt|apply Qlt_not_le].
Qed.

Lemma real_gt_iff x y : real_gt x y = true <-> (y < x)%Q.
Proof. apply real_lt_iff. Qed.

Lemma amrex_min_le a b m :
  (amrex_min a b <= m)%Q <-> (a <= m)%Q \/ (b <= m)%Q.
Proof.
  unfold amrex_min. destruct (real_lt b a) eqn:E.
  - apply real_lt_iff in E. split; [auto|]. intros [H|H]; lra.
  - apply not_true_iff_false in E. rewrite real_lt_iff in E.
    split; [auto|]. intros [H|H]; lra.
Qed.

Lemma amrex_max_ge a b m :
  (m <= amrex_max a b)%Q <-> (m <= a)%Q \/ (m <= b)%Q.
Proof.
  unfold amrex_max. destruct (real_lt a b) eqn:E.
  - apply real_lt_iff in E. split; [auto|]. intros [H|H]; lra.
  - apply not_true_iff_false in E. rewrite real_lt_iff in E.
    split; [auto|]. intros [H|H]; lra.
Qed.

Lemma fold_amrex_min_le l a m :
  (fold_left amrex_min l a <= m)%Q
  <-> (a <= m)%Q \/ exists x, x ∈ l /\ (x <= m)%Q.
Proof.
  revert a. induction l as [|y l IH]; intros a; simpl.
  - split; [auto|]. intros [H|(x & Hx & _)]; [done|].
    by apply elem_of_nil in Hx.
  - rewrite IH, amrex_min_le. split.
    + intros [[H|H]|(x & Hx & H)]; [by left| |].
      * right. exists y. split; [apply elem_of_cons; by left|done].
      * right. exists x. split; [apply elem_of_cons; by right|done].
    + intros [H|(x & [->|Hx]%elem_of_cons & H)]; [by left; left| |].
      * left; by right.
      * right. by exists x.
Qed.

Lemma fold_amrex_max_ge l a m :
  (m <= fold_left amrex_max l a)%Q
  <-> (m <= a)%Q \/ exists x, x ∈ l /\ (m <= x)%Q.
Proof.
  revert a. induction l as [|y l IH]; intros a; simpl.
  - split; [auto|]. intros [H|(x & Hx & _)]; [done|].
    by apply elem_of_nil in Hx.
  - rewrite IH, amrex_max_ge. split.
    + intros [[H|H]|(x & Hx & H)]; [by left| |].
      * right. exists y. split; [apply elem_of_cons; by left|done].
      * right. exists x. split; [apply elem_of_cons; by right|done].
    + intros [H|(x & [->|Hx]%elem_of_cons & H)]; [by left; left| |].
      * left; by right.
      * right. by exists x.
Qed.

Lemma elem_of_valid_values mf comp x :
  x ∈ valid_values mf comp
  <-> exists f c, f ∈ fabs mf /\ box_contains (validbox f) c = true
                  /\ x = fab_val f c comp.
Proof.
  unfold valid_values.
  change (flat_map ?f ?l) with (l ≫= f). rewrite list_elem_of_bind.
  split.
  - intros (f & Hx & Hf). change (map ?g ?l) with (g <$> l) in Hx.
    apply list_elem_of_fmap in Hx as (c & -> & Hc).
    apply elem_of_box_cells in Hc. by exists f, c.
  - intros (f & c & Hf & Hc & ->). exists f. split; [|done].
    change (map ?g ?l) with (g <$> l). apply list_elem_of_fmap.
    exists c. split; [done|]. by apply elem_of_box_cells.
Qed.

Lemma mf_min_local_le mf comp m :
  (mf_min_local mf comp <= m)%Q
  <-> (Real_max <= m)%Q \/ exists u, valid_zone [mf] u /\ (u comp <= m)%Q.
Proof.
  unfold mf_min_local. rewrite fold_amrex_min_le.
  split; (intros [H|H]; [by left|right]).
  - destruct H as (x & (f & c & Hf & Hc & ->)%elem_of_valid_values & H).
    exists (fab_val f c). split; [|done].
    exists mf, f, c. split; [apply elem_of_cons; by left|done].
  - destruct H as (u & (S & f & c & HS & Hf & Hc & ->) & H).
    apply list_elem_of_singleton in HS as ->.
    exists (fab_val f c comp). split; [|done].
    apply elem_of_valid_values. by exists f, c.
Qed.

Lemma mf_max_local_ge mf comp m :
  (m <= mf_max_local mf comp)%Q
  <-> (m <= Real_lowest)%Q \/ exists u, valid_zone [mf] u /\ (m <= u comp)%Q.
Proof.
  unfold mf_max_local. rewrite fold_amrex_max_ge.
  split; (intros [H|H]; [by left|right]).
  - destruct H as (x & (f & c & Hf & Hc & ->)%elem_of_valid_values & H).
    exists (fab_val f c). split; [|done].
    exists mf, f, c. split; [apply elem_of_cons; by left|done].
  - destruct H as (u & (S & f & c & HS & Hf & Hc & ->) & H).
    apply list_elem_of_singleton in HS as ->.
    exists (fab_val f c comp). split; [|done].
    apply elem_of_valid_values. by exists f, c.
Qed.

Lemma valid_zone_cons S States u :
  valid_zone (S :: States) u <-> valid_zone [S] u \/ valid_zone States u.
Proof.
  split.
  - intros (S' & f & c & [->|HS]%elem_of_cons & H).
    + left. exists S, f, c. split; [apply elem_of_cons; by left|done].
    + right. by exists S', f, c.
  - intros [(S' & f & c & HS & H)|(S' & f & c & HS & H)].
    + apply list_elem_of_singleton in HS as ->.
      exists S, f, c. split; [apply elem_of_cons; by left|done].
    + exists S', f, c. split; [apply elem_of_cons; by right|done].
Qed.

Lemma valid_zone_perm States States' u :
  States ≡ₚ States' -> valid_zone States u -> valid_zone States' u.
Proof.
  intros Hp (S & f & c & HS & H). exists S, f, c.
  split; [by rewrite <- Hp|done].
Qed.

Section ExtremeFacts.
Context {bld : Build} {par : Params}.

Lemma global_min_le comp State peers m :
  (global_min comp State peers <= m)%Q
  <-> (Real_max <= m)%Q
      \/ exists u, valid_zone (State :: peers) u /\ (u comp <= m)%Q.
Proof.
  unfold global_min. rewrite fold_amrex_min_le, mf_min_local_le.
  split.
  - intros [[H|(u & Hu & H)]|(x & Hx & H)]; [by left| |].
    + right. exists u. split; [|done]. apply valid_zone_cons. by left.
    + change (map ?g ?l) with (g <$> l) in Hx.
      apply list_elem_of_fmap in Hx as (S & -> & HS).
      apply mf_min_local_le in H as [H|(u & Hu & H)]; [by left|].
      right. exists u. split; [|done].
      destruct Hu as (S' & f & c & HS' & Hu).
      apply list_elem_of_singleton in HS' as ->.
      exists S, f, c. split; [apply elem_of_cons; by right|done].
  - intros [H|(u & [Hu|Hu]%valid_zone_cons & H)];
      [by left; left|left; right; by exists u|].
    right. destruct Hu as (S & f & c & HS & Hu).
    exists (mf_min_local S comp). split.
    + change (map ?g ?l) with (g <$> l). apply list_elem_of_fmap. by exists S.
    + apply mf_min_local_le. right. exists u. split; [|done].
      exists S, f, c. split; [apply elem_of_cons; by left|done].
Qed.

Lemma global_max_ge comp State peers m :
  (m <= global_max comp State peers)%Q
  <-> (m <= Real_lowest)%Q
      \/ exists u, valid_zone (State :: peers) u /\ (m <= u comp)%Q.
Proof.
  unfold global_max. rewrite fold_amrex_max_ge, mf_max_local_ge.
  split.
  - intros [[H|(u & Hu & H)]|(x & Hx & H)]; [by left| |].
    + right. exists u. split; [|done]. apply valid_zone_cons. by left.
    + change (map ?g ?l) with (g <$> l) in Hx.
      apply list_elem_of_fmap in Hx as (S & -> & HS).
      apply mf_max_local_ge in H as [H|(u & Hu & H)]; [by left|].
      right. exists u. split; [|done].
      destruct Hu as (S' & f & c & HS' & Hu).
      apply list_elem_of_singleton in HS' as ->.
      exists S, f, c. split; [apply elem_of_cons; by right|done].
  - intros [H|(u & [Hu|Hu]%valid_zone_cons & H)];
      [by left; left|left; right; by exists u|].
    right. destruct Hu as (S & f & c & HS & Hu).
    exists (mf_max_local S comp). split.
    + change (map ?g ?l) with (g <$> l). apply list_elem_of_fmap. by exists S.
    + apply mf_max_local_ge. right. exists u. split; [|done].
      exists S, f, c. split; [apply elem_of_cons; by left|done].
Qed.

(** The extremes bound the value of every valid zone. *)
Lemma global_min_lower comp State peers u :
  valid_zone (State :: peers) u -> (global_min comp State peers <= u comp)%Q.
Proof. intros Hu. apply global_min_le. right. exists u. split; [done|lra]. Qed.

Lemma global_max_upper comp State peers u :
  valid_zone (State :: peers) u -> (u comp <= global_max comp State peers)%Q.
Proof. intros Hu. apply global_max_ge. right. exists u. split; [done|lra]. Qed.

End ExtremeFacts.
(** ** More about the zone gate *)

Section GateFacts.
Context {bld : Build} {par : Params}.

Lemma limit_large_T_limit : limit_large_T = true -> limit = true.
Proof.
  intros H. unfold limit, limit_T. rewrite H. by rewrite !orb_true_r.
Qed.

(** The three ways the gate returns. *)
Lemma valid_zones_to_burn_cases State peers :
  (limit = false /\ valid_zones_to_burn State peers = Ok true)
  \/ (limit = true /\ limit_large_rho = false /\ limit_large_T = true
      /\ valid_zones_to_burn State peers = Err IndexOutOfRange)
  \/ (limit = true /\ (limit_large_T = true -> limit_large_rho = true)
      /\ valid_zones_to_burn State peers
         = Ok (compared_overlap_test State peers)).
Proof.
  destruct limit eqn:Hl.
  2:{ left. split; [done|]. by apply valid_zones_to_burn_unlimited. }
  right. destruct limit_large_rho eqn:Hr.
  { right. split; [done|]. split; [done|].
    by apply valid_zones_to_burn_in_range. }
  destruct limit_large_T eqn:HT.
  - left. split; [done|]. split; [done|]. split; [done|].
    by apply valid_zones_to_burn_out_of_range.
  - right. split; [done|]. split; [congruence|].
    apply valid_zones_to_burn_in_range; [done|congruence].
Qed.

(** A zone outside the window is burned by neither kernel. *)
Lemma outside_window_not_burned u :
  (u UTEMP < react_T_min)%Q \/ (react_T_max < u UTEMP)%Q
  \/ (u URHO < react_rho_min)%Q \/ (react_rho_max < u URHO)%Q ->
  strang_do_burn u = false /\ forall un, sdc_do_burn u un = false.
Proof.
  intros H.
  assert (real_lt (u UTEMP) react_T_min || real_gt (u UTEMP) react_T_max
          || real_lt (u URHO) react_rho_min
          || real_gt (u URHO) react_rho_max = true) as Hw.
  { destruct H as [H|[H|[H|H]]].
    - apply real_lt_iff in H. by rewrite H.
    - apply real_gt_iff in H. rewrite H. by rewrite orb_true_r.
    - apply real_lt_iff in H. rewrite H. by rewrite !orb_true_r.
    - apply real_gt_iff in H. rewrite H. by rewrite !orb_true_r. }
  unfold strang_do_burn, sdc_do_burn. rewrite Hw.
  split; [|intros un]; by rewrite andb_false_r.
Qed.

(** The compared values, as bounds of the valid zones. *)
Lemma compared_largedens_lt State peers u m :
  (m <= large)%Q -> valid_zone (State :: peers) u ->
  real_ge (compared_largedens State peers) m = false -> (u URHO < m)%Q.
Proof.
  intros Hm Hu H. apply not_true_iff_false in H. rewrite real_ge_iff in H.
  unfold compared_largedens in H. destruct limit_large_rho; [|done].
  pose proof (global_max_upper URHO State peers u Hu). lra.
Qed.

Lemma compared_large_T_lt State peers u m :
  (m <= large)%Q -> valid_zone (State :: peers) u ->
  real_ge (compared_large_T State peers) m = false -> (u UTEMP < m)%Q.
Proof.
  intros Hm Hu H. apply not_true_iff_false in H. rewrite real_ge_iff in H.
  unfold compared_large_T in H. destruct limit_large_T; [|done].
  pose proof (global_max_upper UTEMP State peers u Hu). lra.
Qed.

Lemma compared_smalldens_gt State peers u m :
  (small <= m)%Q -> valid_zone (State :: peers) u ->
  real_le (compared_smalldens State peers) m = false -> (m < u URHO)%Q.
Proof.
  intros Hm Hu H. apply not_true_iff_false in H. rewrite real_le_iff in H.
  unfold compared_smalldens in H. destruct limit_small_rho; [|done].
  pose proof (global_min_lower URHO State peers u Hu). lra.
Qed.

Lemma compared_small_T_gt State peers u m :
  (small <= m)%Q -> valid_zone (State :: peers) u ->
  real_le (compared_small_T State peers) m = false -> (m < u UTEMP)%Q.
Proof.
  intros Hm Hu H. apply not_true_iff_false in H. rewrite real_le_iff in H.
  unfold compared_small_T in H. destruct limit_small_T; [|done].
  pose proof (global_min_lower UTEMP State peers u Hu). lra.
Qed.

(** The comparisons of the gate see the ranks as a set. *)
Lemma bool_eq_iff (b1 b2 : bool) : (b1 = true <-> b2 = true) -> b1 = b2.
Proof. destruct b1, b2; intuition. Qed.

Lemma global_min_perm comp State peers State' peers' m :
  State :: peers ≡ₚ State' :: peers' ->
  real_le (global_min comp State peers) m
  = real_le (global_min comp State' peers') m.
Proof.
  intros Hp. apply bool_eq_iff. rewrite !real_le_iff, !global_min_le.
  split; (intros [H|(u & Hu & H)]; [by left|right; exists u; split; [|done]]).
  - by apply (valid_zone_perm _ _ _ Hp).
  - symmetry in Hp. by apply (valid_zone_perm _ _ _ Hp).
Qed.

Lemma global_max_perm comp State peers State' peers' m :
  State :: peers ≡ₚ State' :: peers' ->
  real_ge (global_max comp State peers) m
  = real_ge (global_max comp State' peers') m.
Proof.
  intros Hp. apply bool_eq_iff. rewrite !real_ge_iff, !global_max_ge.
  split; (intros [H|(u & Hu & H)]; [by left|right; exists u; split; [|done]]).
  - by apply (valid_zone_perm _ _ _ Hp).
  - symmetry in Hp. by apply (valid_zone_perm _ _ _ Hp).
Qed.

Lemma compared_overlap_test_perm State peers State' peers' :
  State :: peers ≡ₚ State' :: peers' ->
  compared_overlap_test State peers = compared_overlap_test State' peers'.
Proof.
  intros Hp. unfold compared_overlap_test, compared_largedens,
    compared_smalldens, compared_large_T, compared_small_T.
  f_equal; [f_equal; [f_equal|]|].
  - destruct limit_large_rho; [by apply global_max_perm|done].
  - destruct limit_small_rho; [by apply global_min_perm|done].
  - destruct limit_large_T; [by apply global_max_perm|done].
  - destruct limit_small_T; [by apply global_min_perm|done].
Qed.

Lemma large_lt_Real_max : (large < Real_max)%Q.
Proof. vm_compute. reflexivity. Qed.

Lemma Real_lowest_lt_small : (Real_lowest < small)%Q.
Proof. vm_compute. reflexivity. Qed.

(** An active bound lies strictly between the values the reductions
    start from. *)
Lemma active_upper_bound_lt_Real_max m :
  real_le m large = true -> ~ (Real_max <= m)%Q.
Proof.
  intros H1%real_le_iff H2. apply (Qlt_irrefl large).
  eapply Qlt_le_trans; [apply large_lt_Real_max|]. by eapply Qle_trans.
Qed.

Lemma active_lower_bound_gt_Real_lowest m :
  real_ge m small = true -> ~ (m <= Real_lowest)%Q.
Proof.
  intros H1%real_ge_iff H2. apply (Qlt_irrefl small).
  eapply Qle_lt_trans; [|apply Real_lowest_lt_small]. by eapply Qle_trans.
Qed.

End GateFacts.

(** X1.  The gate fails in one way only, the read past the end of the
    vector of large limiters, and it does so exactly when the upper
    temperature bound is active while the upper density bound is not.
    With every other setting of the four bounds each read of the two
    vectors is in range (the read-back of the small limiters always is)
    and the gate returns a truth value. *)
Theorem gate_fails_iff_upper_T_bound_alone {bld : Build} {par : Params}
    (State : MultiFab) (peers : list MultiFab) :
  (forall e, valid_zones_to_burn State peers = Err e -> e = IndexOutOfRange)
  /\ ((exists e, valid_zones_to_burn State peers = Err e)
      <-> limit_large_rho = false /\ limit_large_T = true).
Proof.
  destruct (valid_zones_to_burn_cases State peers)
    as [[Hl ->]|[(Hl & Hr & HT & ->)|(Hl & Hin & ->)]].
  - split; [done|]. split; [by intros [e ?]|].
    intros [_ HT]. apply limit_large_T_limit in HT. congruence.
  - split; [by intros e [= <-]|]. split; [done|]. by eexists.
  - split; [done|]. split; [by intros [e ?]|].
    intros [Hr HT]. apply Hin in HT. congruence.
Qed.

(** X2.  The gate is sound for the valid zones.  With lower bounds that
    do not exceed 1e199 and upper bounds that are not below 1e-10 (the
    defaults the inactive sides are compared with), a gate that returns
    false means that no valid cell of any rank lies in the burn window:
    neither kernel would have burned any of them. *)
Theorem gate_false_excludes_every_valid_zone {bld : Build} {par : Params}
    (State : MultiFab) (peers : list MultiFab) :
  (react_rho_min <= large)%Q -> (react_T_min <= large)%Q ->
  (small <= react_rho_max)%Q -> (small <= react_T_max)%Q ->
  valid_zones_to_burn State peers = Ok false ->
  forall u, valid_zone (State :: peers) u ->
    strang_do_burn u = false /\ forall un, sdc_do_burn u un = false.
Proof.
  intros Hrmin HTmin Hrmax HTmax Hg u Hu.
  destruct (valid_zones_to_burn_cases State peers)
    as [[_ H]|[(_ & _ & _ & H)|(_ & _ & H)]]; rewrite H in Hg; try done.
  injection Hg as Hg. unfold compared_overlap_test in Hg.
  apply outside_window_not_burned.
  apply andb_false_iff in Hg as [Hg|Hg];
    [apply andb_false_iff in Hg as [Hg|Hg];
     [apply andb_false_iff in Hg as [Hg|Hg]|]|].
  - right; right; left. by eapply compared_largedens_lt.
  - right; right; right. by eapply compared_smalldens_gt.
  - left. by eapply compared_large_T_lt.
  - right; left. by eapply compared_small_T_gt.
Qed.

Lemma gate_false_excludes_every_valid_zone_witness :
  ((@react_rho_min rho_window_params <= large)%Q
   /\ (@react_T_min rho_window_params <= large)%Q
   /\ (small <= @react_rho_max rho_window_params)%Q
   /\ (small <= @react_T_max rho_window_params)%Q
   /\ @valid_zones_to_burn demo_build rho_window_params
        (one_cell_state 10 1) [] = Ok false)
  /\ forall u, valid_zone [one_cell_state 10 1] u ->
       @strang_do_burn demo_build rho_window_params u = false
       /\ forall un, @sdc_do_burn demo_build rho_window_params u un = false.
Proof.
  assert ((@react_rho_min rho_window_params <= large)%Q) as H1
    by (vm_compute; discriminate).
  assert ((@react_T_min rho_window_params <= large)%Q) as H2
    by (vm_compute; discriminate).
  assert ((small <= @react_rho_max rho_window_params)%Q) as H3
    by (vm_compute; discriminate).
  assert ((small <= @react_T_max rho_window_params)%Q) as H4
    by (vm_compute; discriminate).
  assert (@valid_zones_to_burn demo_build rho_window_params
            (one_cell_state 10 1) [] = Ok false) as H5
    by (vm_compute; reflexivity).
  split; [exact (conj H1 (conj H2 (conj H3 (conj H4 H5))))|].
  exact (@gate_false_excludes_every_valid_zone demo_build rho_window_params
           (one_cell_state 10 1) [] H1 H2 H3 H4 H5).
Defined.

(** X3.  With all four bounds active the gate returns a truth value,
    and it returns true exactly when some valid zone has a density of
    at least [react_rho_min], some valid zone a density of at most
    [react_rho_max], some valid zone a temperature of at least
    [react_T_min] and some valid zone a temperature of at most
    [react_T_max]; the four zones need not be the same, and the zones
    are the valid cells of all ranks.  In particular the gate returns
    false when no rank has a valid cell. *)
Theorem gate_all_limiters_tests_extremes {bld : Build} {par : Params}
    (State : MultiFab) (peers : list MultiFab) :
  limit_small_rho = true -> limit_large_rho = true ->
  limit_small_T = true -> limit_large_T = true ->
  exists b,
    valid_zones_to_burn State peers = Ok b
    /\ (b = true
        <-> (exists u, valid_zone (State :: peers) u
                       /\ (react_rho_min <= u URHO)%Q)
            /\ (exists u, valid_zone (State :: peers) u
                          /\ (u URHO <= react_rho_max)%Q)
            /\ (exists u, valid_zone (State :: peers) u
                          /\ (react_T_min <= u UTEMP)%Q)
            /\ (exists u, valid_zone (State :: peers) u
                          /\ (u UTEMP <= react_T_max)%Q)).
Proof.
  intros Hsr Hlr HsT HlT. eexists. split.
  { apply valid_zones_to_burn_in_range; [by apply limit_large_T_limit|done]. }
  unfold compared_overlap_test, compared_largedens, compared_smalldens,
    compared_large_T, compared_small_T.
  rewrite Hsr, Hlr, HsT, HlT, !andb_true_iff.
  rewrite !real_ge_iff, !real_le_iff, !global_max_ge, !global_min_le.
  pose proof (active_lower_bound_gt_Real_lowest _ Hsr).
  pose proof (active_lower_bound_gt_Real_lowest _ HsT).
  pose proof (active_upper_bound_lt_Real_max _ Hlr).
  pose proof (active_upper_bound_lt_Real_max _ HlT).
  split.
  - intros [[[[?|?] [?|?]] [?|?]] [?|?]]; done.
  - intros (? & ? & ? & ?). repeat split; by right.
Qed.

Lemma gate_all_limiters_tests_extremes_witness :
  (@limit_small_rho full_window_params = true
   /\ @limit_large_rho full_window_params = true
   /\ @limit_small_T full_window_params = true
   /\ @limit_large_T full_window_params = true)
  /\ exists b,
      @valid_zones_to_burn demo_build full_window_params
        (one_cell_state 100 50) [one_cell_state (1 # 2) 50] = Ok b
      /\ (b = true
          <-> (exists u, valid_zone [one_cell_state 100 50;
                                     one_cell_state (1 # 2) 50] u
                         /\ (@react_rho_min full_window_params
                             <= u (@URHO demo_build))%Q)
              /\ (exists u, valid_zone [one_cell_state 100 50;
                                        one_cell_state (1 # 2) 50] u
                            /\ (u (@URHO demo_build)
                                <= @react_rho_max full_window_params)%Q)
              /\ (exists u, valid_zone [one_cell_state 100 50;
                                        one_cell_state (1 # 2) 50] u
                            /\ (@react_T_min full_window_params
                                <= u (@UTEMP demo_build))%Q)
              /\ (exists u, valid_zone [one_cell_state 100 50;
                                        one_cell_state (1 # 2) 50] u
                            /\ (u (@UTEMP demo_build)
                                <= @react_T_max full_window_params)%Q)).
Proof.
  split; [repeat split; vm_compute; reflexivity|].
  apply (@gate_all_limiters_tests_extremes demo_build full_window_params);
    vm_compute; reflexivity.
Defined.

(** X4.  Every rank obtains the same answer from the gate: its result
    (the truth value, or the out-of-range failure) does not depend on which
    rank is the caller nor on the order of the others, since the
    reductions see the valid cells of all ranks as one set. *)
Theorem gate_same_on_every_rank {bld : Build} {par : Params}
    (State State' : MultiFab) (peers peers' : list MultiFab) :
  State :: peers ≡ₚ State' :: peers' ->
  valid_zones_to_burn State peers = valid_zones_to_burn State' peers'.
Proof.
  intros Hp.
  destruct (valid_zones_to_burn_cases State peers)
    as [[Hl ->]|[(Hl & Hr & HT & ->)|(Hl & Hin & ->)]];
    destruct (valid_zones_to_burn_cases State' peers')
      as [[Hl' ->]|[(Hl' & Hr' & HT' & ->)|(Hl' & Hin' & ->)]];
    try congruence.
  - apply Hin' in HT. congruence.
  - apply Hin in HT'. congruence.
  - f_equal. by apply compared_overlap_test_perm.
Qed.

Lemma gate_same_on_every_rank_witness :
  [one_cell_state 100 50; one_cell_state (1 # 2) 50]
    ≡ₚ [one_cell_state (1 # 2) 50; one_cell_state 100 50]
  /\ @valid_zones_to_burn demo_build full_window_params
       (one_cell_state 100 50) [one_cell_state (1 # 2) 50]
     = @valid_zones_to_burn demo_build full_window_params
         (one_cell_state (1 # 2) 50) [one_cell_state 100 50].
Proof.
  split; [apply Permutation_swap|].
  apply (@gate_same_on_every_rank demo_build full_window_params).
  apply Permutation_swap.
Defined.
(** ** The state the Strang coupler leaves behind *)

Section StrangStateFacts.
Context {bld : Build} {par : Params}.
Variable burner : Strang.burn_t -> Real -> Strang.burn_t.
Variable burn_state_decl : Strang.burn_t.
Variable dt : Real.
Hypothesis Hlayout : layout_ok.

Local Abbreviation lv := (level <=? reactions_max_solve_level)%Z.

(** One tile: the update pass reads the rates the reduction pass left. *)
Lemma strang_mfi_state s r acc idx bx s' r' acc' :
  Strang.react_mfi burner burn_state_decl dt (s, r, acc) (idx, bx)
  = Ok (s', r', acc') ->
  forall idx' c n,
    mf_val s' idx' c n
    = if bool_decide (idx' = idx) && bool_decide (c ∈ box_cells bx)
         && (mf_contains s idx' c && mf_contains r idx' c)
      then strang_updated (mf_val r' idx' c) dt n (mf_val s idx' c n)
      else mf_val s idx' c n.
Proof using Hlayout.
  unfold Strang.react_mfi.
  destruct (mf_array s idx) as [U|] eqn:E1; [|done].
  destruct (mf_array r idx) as [reactions|] eqn:E2; [|done].
  cbn [mbind result_bind]. unfold Strang.react_tile, ReduceOpSum_eval.
  assert (idx < length (fabs s)) as Hls by (apply mf_array_is_Ok; eauto).
  assert (idx < length (fabs r)) as Hlr by (apply mf_array_is_Ok; eauto).
  assert (forall R1 a,
            a_box R1 = a_box reactions ->
            Ok (mf_store s idx
                  (ParallelFor bx (Strang.update_kernel R1 dt) U),
                mf_store r idx R1, a) = Ok (s', r', acc') ->
            forall idx' c n,
              mf_val s' idx' c n
              = if bool_decide (idx' = idx) && bool_decide (c ∈ box_cells bx)
                   && (mf_contains s idx' c && mf_contains r idx' c)
                then strang_updated (mf_val r' idx' c) dt n (mf_val s idx' c n)
                else mf_val s idx' c n) as Hmain.
  { intros R1 a HbR [= <- <- <-] idx' c n. rewrite !mf_store_val.
    rewrite (bool_decide_eq_true_2 _ Hls), (bool_decide_eq_true_2 _ Hlr),
      !andb_true_r.
    destruct (bool_decide_reflect (idx' = idx)) as [->|Hne]; [|done].
    cbn [andb]. unfold ParallelFor.
    rewrite (strang_pass2_val _ _ _ _ _ _ Hlayout (NoDup_box_cells bx)).
    rewrite (mf_array_contains _ _ _ c E1).
    replace (contains R1 c) with (mf_contains r idx c)
      by (rewrite <- (mf_array_contains _ _ _ c E2); unfold contains;
          by rewrite HbR).
    by rewrite (mf_array_val _ _ _ E1). }
  destruct lv.
  - destruct (ReduceOpSum_cells _ _ _) as [[a R1]|] eqn:Hp; [|done].
    cbn [mbind result_bind].
    apply strang_pass1_inv in Hp as (_ & _ & HbR & _). by apply Hmain.
  - cbn [mbind result_bind]. by apply Hmain.
Qed.

(** The components the update never touches. *)
Lemma strang_updated_other rt n old :
  n <> UEDEN -> n <> UEINT -> ~ (UFS <= n < UFS + NumSpec)%nat ->
  ~ (UFX <= n < UFX + NumAux)%nat -> strang_updated rt dt n old = old.
Proof.
  intros H1 H2 H3 H4. unfold strang_updated. repeat case_nat_test; done.
Qed.

Lemma strang_updated_spec rt n old :
  (n < NumSpec)%nat ->
  strang_updated rt dt (UFS + n) old = (old + rt n * dt)%Q.
Proof using Hlayout.
  intros Hn. unfold strang_updated. repeat case_nat_test.
  all: by replace (UFS + n - UFS)%nat with n by lia.
Qed.

Lemma strang_updated_aux rt n old :
  (n < NumAux)%nat ->
  strang_updated rt dt (UFX + n) old = (old + rt (n + NumSpec)%nat * dt)%Q.
Proof using Hlayout.
  intros Hn. layout_facts Hlayout.
  unfold strang_updated. repeat case_nat_test.
  all: by replace (UFX + n - UFX)%nat with n by lia.
Qed.

Lemma strang_updated_eint rt old :
  strang_updated rt dt UEINT old = (old + rt (NumSpec + NumAux)%nat * dt)%Q.
Proof using Hlayout.
  layout_facts Hlayout. unfold strang_updated. repeat case_nat_test; done.
Qed.

Lemma strang_updated_eden rt old :
  strang_updated rt dt UEDEN old = (old + rt (NumSpec + NumAux)%nat * dt)%Q.
Proof using Hlayout.
  layout_facts Hlayout. unfold strang_updated. repeat case_nat_test; done.
Qed.

Lemma strang_updated_ext rt rt' n old :
  (forall m, rt m = rt' m) ->
  strang_updated rt dt n old = strang_updated rt' dt n old.
Proof. intros H. unfold strang_updated. by rewrite !H. Qed.

(** The loop over the tiles, whatever its tiles share: the frame. *)
Lemma strang_tiles_frame tiles s r acc s' r' acc' :
  foldM (Strang.react_mfi burner burn_state_decl dt) tiles (s, r, acc)
  = Ok (s', r', acc') ->
  mf_same_shape s s' /\ mf_same_shape r r'
  /\ forall idx c n,
      n <> UEDEN -> n <> UEINT -> ~ (UFS <= n < UFS + NumSpec)%nat ->
      ~ (UFX <= n < UFX + NumAux)%nat ->
      mf_val s' idx c n = mf_val s idx c n.
Proof using Hlayout.
  revert s r acc.
  induction tiles as [|[idx0 bx0] tiles IH]; intros s r acc H.
  { injection H as <- <- <-. done. }
  cbn [foldM] in H.
  destruct (Strang.react_mfi _ _ _ (s, r, acc) (idx0, bx0))
    as [[[s1 r1] acc1]|] eqn:Hk;
    [|cbn [mbind result_bind] in H; discriminate].
  cbn [mbind result_bind] in H.
  pose proof (strang_mfi_state _ _ _ _ _ _ _ _ Hk) as Hst.
  apply strang_mfi_inv in Hk as (_ & _ & Hss & Hsr & _).
  apply IH in H as (Hss' & Hsr' & Hfr).
  split; [by eapply mf_same_shape_trans|].
  split; [by eapply mf_same_shape_trans|].
  intros idx c n H1 H2 H3 H4. rewrite Hfr, Hst by done.
  destruct (_ && _ && _); [|done]. by apply strang_updated_other.
Qed.

(** The loop over disjoint tiles: every cell is updated at most once,
    with the rates the loop returns. *)
Lemma strang_tiles_state tiles s r acc s' r' acc' :
  tiles_disjoint tiles ->
  foldM (Strang.react_mfi burner burn_state_decl dt) tiles (s, r, acc)
  = Ok (s', r', acc') ->
  forall idx c n,
    mf_val s' idx c n
    = if bool_decide ((idx, c) ∈ tile_cells tiles)
         && (mf_contains s idx c && mf_contains r idx c)
      then strang_updated (mf_val r' idx c) dt n (mf_val s idx c n)
      else mf_val s idx c n.
Proof using Hlayout.
  revert s r acc.
  induction tiles as [|[idx0 bx0] tiles IH]; intros s r acc Hdis H.
  { injection H as <- <- <-. done. }
  apply tiles_disjoint_cons in Hdis as [Hdis Hfresh].
  cbn [foldM] in H.
  destruct (Strang.react_mfi _ _ _ (s, r, acc) (idx0, bx0))
    as [[[s1 r1] acc1]|] eqn:Hk;
    [|cbn [mbind result_bind] in H; discriminate].
  cbn [mbind result_bind] in H.
  pose proof (strang_mfi_state _ _ _ _ _ _ _ _ Hk) as Hst.
  apply strang_mfi_inv in Hk as (_ & _ & Hss & Hsr & Hfs & _).
  pose proof (IH _ _ _ Hdis H) as Hst'.
  apply (strang_tiles_inv _ _ _ _ _ _ _ _ _ _ Hdis) in H
    as (_ & _ & _ & _ & Hfs' & Hvr').
  intros idx c n. rewrite bool_decide_tile_cells_cons.
  destruct (bool_decide_reflect ((idx, c) ∈ tile_cells tiles)) as [Hin|Hin].
  - assert (bool_decide (idx = idx0) && bool_decide (c ∈ box_cells bx0)
            = false) as Hhd.
    { apply andb_false_iff.
      destruct (bool_decide_reflect (idx = idx0)) as [->|]; [|by left].
      right. apply bool_decide_eq_false_2. intros Hc.
      by apply (Hfresh c Hc). }
    rewrite Hhd. cbn [orb]. rewrite Hst', (bool_decide_eq_true_2 _ Hin).
    rewrite (mf_same_shape_contains _ _ _ _ Hss),
      (mf_same_shape_contains _ _ _ _ Hsr).
    by rewrite Hst, Hhd.
  - rewrite orb_false_r, (Hfs' _ _ _ Hin), Hst.
    destruct (_ && _ && _); [|done].
    apply strang_updated_ext. intros m.
    by rewrite Hvr', (bool_decide_eq_false_2 _ Hin), andb_false_r.
Qed.

End StrangStateFacts.
(** ** The Strang call, rank by rank *)

Lemma foldM_ext {S A} (f g : S -> A -> result S) l s :
  (forall s x, f s x = g s x) -> foldM f l s = foldM g l s.
Proof.
  intros H. revert s. induction l as [|x l IH]; intros s; [done|].
  cbn [foldM]. rewrite H. destruct (g s x); [|done].
  cbn [mbind result_bind]. apply IH.
Qed.

Lemma mapM_result_ext {A B} (f g : A -> result B) l :
  (forall x, f x = g x) -> mapM f l = mapM g l.
Proof.
  intros H. induction l as [|x l IH]; [done|].
  cbn [mapM]. by rewrite H, IH.
Qed.

Lemma ReduceIntMin_all_one (bs : list Z) :
  Forall (fun b => b = 1%Z) bs -> ReduceIntMin 1 bs = 1%Z.
Proof.
  unfold ReduceIntMin. induction 1 as [|b bs -> _ IH]; [done|]. exact IH.
Qed.

Lemma layout_ok_temp {bld : Build} :
  layout_ok -> (UTEMP <> UEDEN /\ UTEMP <> UEINT /\ UTEMP < UFS)%nat.
Proof.
  intros (Hnd & Hlt & _).
  rewrite !list.NoDup_cons, !not_elem_of_cons in Hnd.
  destruct_and!. auto.
Qed.

Section StrangCallMore.
Context {bld : Build} {par : Params}.
Variable burner : Strang.burn_t -> Real -> Strang.burn_t.
Variable burn_state_decl : Strang.burn_t.
Variable FillCoarsePatch : MultiFab -> Real -> MultiFab.

Local Abbreviation lv := (level <=? reactions_max_solve_level)%Z.
Local Abbreviation rank_pass :=
  (Strang.react_rank burner burn_state_decl FillCoarsePatch).
Local Abbreviation r0 rk time :=
  (if (level >? reactions_max_solve_level)%Z && (level >? 0)%Z
   then FillCoarsePatch (Strang.r rk) time else Strang.r rk).

(** On the main path every rank runs its pass. *)
Lemma strang_call_ranks rk peers time dt out :
  Strang.react_state burner burn_state_decl FillCoarsePatch rk peers time dt
  = Ok out ->
  do_react = 1%Z ->
  valid_zones_to_burn (Strang.s rk) (map Strang.s peers) = Ok true ->
  Forall2 (fun r r' => exists b, rank_pass time dt r = Ok (r', b))
    (rk :: peers) (Strang.ranks_out out).
Proof.
  intros H Hr Hg.
  apply strang_call_inv in H as (_ & [[Hskip _]|(_ & _ & H)]).
  { destruct Hskip as [|[_ ?]]; congruence. }
  destruct H as (rk' & b & peers' & Hrk & Hpeers & -> & _).
  apply mapM_result_inv in Hpeers.
  assert (Forall2 (fun r (y : Strang.Rank * Z) => rank_pass time dt r = Ok y)
            (rk :: peers) ((rk', b) :: peers')) as Hall
    by (by constructor).
  change (rk' :: map fst peers') with (map fst ((rk', b) :: peers')).
  eapply Forall2_fmap_r_weaken; [exact Hall|].
  intros r [r1 b1] Hr1. by exists b1.
Qed.

(** On the early exits every rank resets its rates. *)
Lemma strang_call_skips rk peers time dt out :
  Strang.react_state burner burn_state_decl FillCoarsePatch rk peers time dt
  = Ok out ->
  do_react <> 1%Z
  \/ valid_zones_to_burn (Strang.s rk) (map Strang.s peers) = Ok false ->
  out = {| Strang.ranks_out := map Strang.skip_rank (rk :: peers);
           Strang.burn_success := true;
           Strang.e_added_printed := None |}.
Proof.
  intros H Hs.
  apply strang_call_inv in H as (_ & [[_ ->]|(Hr & Hg & _)]); [done|].
  destruct Hs; congruence.
Qed.

(** The reduction of a level that does not solve its reactions. *)
Lemma strang_tiles_unsolved dt tiles s r acc s' r' acc' :
  lv = false ->
  foldM (Strang.react_mfi burner burn_state_decl dt) tiles (s, r, acc)
  = Ok (s', r', acc') ->
  acc' = acc.
Proof.
  intros Hlv. revert s r acc.
  induction tiles as [|[idx0 bx0] tiles IH]; intros s r acc H.
  { by injection H as <- <- <-. }
  cbn [foldM] in H.
  destruct (Strang.react_mfi _ _ _ (s, r, acc) (idx0, bx0))
    as [[[s1 r1] acc1]|] eqn:Hk;
    [|cbn [mbind result_bind] in H; discriminate].
  cbn [mbind result_bind] in H.
  apply strang_mfi_inv in Hk as (_ & Hacc & _).
  apply IH in H as ->. rewrite Hacc. by rewrite Hlv.
Qed.

Lemma strang_mfi_above burner' burn_state_decl' dt st mfi :
  lv = false ->
  Strang.react_mfi burner burn_state_decl dt st mfi
  = Strang.react_mfi burner' burn_state_decl' dt st mfi.
Proof.
  intros Hlv. destruct st as [[s r] acc], mfi as [idx bx].
  unfold Strang.react_mfi, Strang.react_tile. by rewrite Hlv.
Qed.

(** One rank: the tiles and the shapes are kept, and under the standard
    ordering of the components the state is advanced with the rates the
    pass returns. *)
Lemma strang_rank_state time dt rk rk' b :
  layout_ok ->
  rank_pass time dt rk = Ok (rk', b) ->
  Strang.mfiter rk' = Strang.mfiter rk
  /\ mf_same_shape (Strang.s rk) (Strang.s rk')
  /\ mf_same_shape (r0 rk time) (Strang.r rk')
  /\ (forall idx c n,
        n <> UEDEN -> n <> UEINT -> ~ (UFS <= n < UFS + NumSpec)%nat ->
        ~ (UFX <= n < UFX + NumAux)%nat ->
        mf_val (Strang.s rk') idx c n = mf_val (Strang.s rk) idx c n)
  /\ (tiles_disjoint (Strang.mfiter rk) ->
      forall idx c n,
        mf_val (Strang.s rk') idx c n
        = if bool_decide ((idx, c) ∈ tile_cells (Strang.mfiter rk))
             && (mf_contains (Strang.s rk) idx c
                 && mf_contains (Strang.r rk') idx c)
          then strang_updated (mf_val (Strang.r rk') idx c) dt n
                 (mf_val (Strang.s rk) idx c n)
          else mf_val (Strang.s rk) idx c n).
Proof.
  intros Hlayout (s' & r' & acc' & Hf & -> & _)%strang_rank_inv.
  cbn [Strang.s Strang.r Strang.mfiter]. split; [done|].
  destruct (strang_tiles_frame _ _ _ Hlayout _ _ _ _ _ _ _ Hf)
    as (Hss & Hsr & Hfr).
  split; [done|]. split; [done|]. split; [done|].
  intros Hdis idx c n.
  rewrite (strang_tiles_state _ _ _ Hlayout _ _ _ _ _ _ _ Hdis Hf).
  by rewrite (mf_same_shape_contains _ _ _ _ Hsr).
Qed.

(** One rank: the rates the pass returns. *)
Lemma strang_rank_rates time dt rk rk' b :
  tiles_disjoint (Strang.mfiter rk) ->
  rank_pass time dt rk = Ok (rk', b) ->
  forall idx c n,
    mf_val (Strang.r rk') idx c n
    = if lv && bool_decide ((idx, c) ∈ tile_cells (Strang.mfiter rk))
         && mf_contains (Strang.r rk') idx c
      then strang_rate burner burn_state_decl (mf_val (Strang.s rk) idx c)
             dt n (mf_val (r0 rk time) idx c n)
      else mf_val (r0 rk time) idx c n.
Proof.
  intros Hdis (s' & r' & acc' & Hf & -> & _)%strang_rank_inv.
  apply (strang_tiles_inv _ _ _ _ _ _ _ _ _ _ Hdis) in Hf
    as (_ & _ & _ & Hsr & _ & HvR).
  intros idx c n. cbn [Strang.r].
  by rewrite HvR, (mf_same_shape_contains _ _ _ _ Hsr).
Qed.

End StrangCallMore.
(** ** More about the Strang coupler *)

Lemma Forall2_map_self {A B} (P : A -> B -> Prop) (g : A -> B) (l : list A) :
  (forall x, P x (g x)) -> Forall2 P l (map g l).
Proof. intros H. induction l; cbn [map]; constructor; auto. Qed.

(** A hydrodynamic slot is neither a species nor an auxiliary slot. *)
Lemma layout_ok_below_UFS {bld : Build} n :
  layout_ok -> (n < UFS)%nat ->
  ~ (UFS <= n < UFS + NumSpec)%nat /\ ~ (UFX <= n < UFX + NumAux)%nat.
Proof. intros (_ & _ & Hfx & _) Hn. lia. Qed.

Section StrangPaths.
Context {bld : Build} {par : Params}.
Variable burner : Strang.burn_t -> Real -> Strang.burn_t.
Variable burn_state_decl : Strang.burn_t.
Variable FillCoarsePatch : MultiFab -> Real -> MultiFab.

(** The call either takes an early exit or runs the pass on every rank. *)
Lemma strang_call_paths rk peers time dt out :
  Strang.react_state burner burn_state_decl FillCoarsePatch rk peers time dt
  = Ok out ->
  out = {| Strang.ranks_out := map Strang.skip_rank (rk :: peers);
           Strang.burn_success := true;
           Strang.e_added_printed := None |}
  \/ (do_react = 1%Z
      /\ valid_zones_to_burn (Strang.s rk) (map Strang.s peers) = Ok true
      /\ Forall2
           (fun r r' =>
              exists b,
                Strang.react_rank burner burn_state_decl FillCoarsePatch
                  time dt r = Ok (r', b))
           (rk :: peers) (Strang.ranks_out out)).
Proof.
  intros H. pose proof H as H'.
  apply strang_call_inv in H' as (_ & [[_ ->]|(Hr & Hg & _)]); [by left|].
  right. split; [done|]. split; [done|]. by eapply strang_call_ranks.
Qed.

End StrangPaths.

(** X5.  On its main path the Strang coupler advances the state with
    the rates it returns.  For every rank (whose tiles share no cell),
    at every cell of a tile that lies inside both the state and the
    returned rate array, each species and auxiliary partial density and
    the internal and the total energy are the old value plus [dt] times
    the returned rate of that quantity (the energies share one rate);
    this holds on every level, whether the rates were computed by the
    kernel or interpolated by FillCoarsePatch.  At every other cell no
    component of the state changes. *)
Theorem strang_state_advanced_by_returned_rates {bld : Build} {par : Params}
    (burner : Strang.burn_t -> Real -> Strang.burn_t)
    (burn_state_decl : Strang.burn_t)
    (FillCoarsePatch : MultiFab -> Real -> MultiFab)
    (rk : Strang.Rank) (peers : list Strang.Rank) (time dt : Real)
    (out : Strang.Outcome) :
  layout_ok ->
  do_react = 1%Z ->
  valid_zones_to_burn (Strang.s rk) (map Strang.s peers) = Ok true ->
  Strang.react_state burner burn_state_decl FillCoarsePatch rk peers time dt
  = Ok out ->
  Forall2
    (fun r r' =>
       tiles_disjoint (Strang.mfiter r) ->
       forall idx c,
         let u := mf_val (Strang.s r) idx c in
         let u' := mf_val (Strang.s r') idx c in
         let rate := mf_val (Strang.r r') idx c in
         ((idx, c) ∈ tile_cells (Strang.mfiter r) ->
          mf_contains (Strang.s r) idx c = true ->
          mf_contains (Strang.r r') idx c = true ->
          (forall n, (n < NumSpec)%nat ->
             u' (UFS + n)%nat = (u (UFS + n)%nat + rate n * dt)%Q)
          /\ (forall n, (n < NumAux)%nat ->
                u' (UFX + n)%nat
                = (u (UFX + n)%nat + rate (n + NumSpec)%nat * dt)%Q)
          /\ u' UEINT = (u UEINT + rate (NumSpec + NumAux)%nat * dt)%Q
          /\ u' UEDEN = (u UEDEN + rate (NumSpec + NumAux)%nat * dt)%Q)
         /\ ((idx, c) ∉ tile_cells (Strang.mfiter r)
             \/ mf_contains (Strang.s r) idx c = false
             \/ mf_contains (Strang.r r') idx c = false ->
             forall n, u' n = u n))
    (rk :: peers) (Strang.ranks_out out).
Proof.
  intros Hlayout Hr Hg H.
  pose proof (strang_call_ranks _ _ _ _ _ _ _ _ H Hr Hg) as Hall.
  revert Hall. apply Forall2_impl.
  intros r r' [b Hp] Hdis idx c. cbv zeta.
  destruct (strang_rank_state _ _ _ _ _ _ _ _ Hlayout Hp)
    as (_ & _ & _ & _ & Hst).
  specialize (Hst Hdis idx c). split.
  - intros Hin Hcs Hcr.
    rewrite (bool_decide_eq_true_2 _ Hin), Hcs, Hcr in Hst. cbn [andb] in Hst.
    split; [intros n Hn; rewrite Hst; by apply strang_updated_spec|].
    split; [intros n Hn; rewrite Hst; by apply strang_updated_aux|].
    split; [rewrite Hst; by apply strang_updated_eint|].
    rewrite Hst; by apply strang_updated_eden.
  - intros Hnot n. rewrite Hst.
    destruct Hnot as [Hnot|[->| ->]];
      [by rewrite (bool_decide_eq_false_2 _ Hnot)| |];
      by rewrite ?andb_false_r.
Qed.

Lemma strang_state_advanced_by_returned_rates_witness :
  exists out,
    @Strang.react_state demo_build
      (default_params CornerTransportUpwind false) toy_burner
      blank_burn_state no_coarse_patch (demo_rank 0) [] 0 (1 # 2) = Ok out
    /\ Forall2
         (fun r r' =>
            tiles_disjoint (Strang.mfiter r) ->
            forall idx c,
              let u := mf_val (Strang.s r) idx c in
              let u' := mf_val (Strang.s r') idx c in
              let rate := mf_val (Strang.r r') idx c in
              ((idx, c) ∈ tile_cells (Strang.mfiter r) ->
               mf_contains (Strang.s r) idx c = true ->
               mf_contains (Strang.r r') idx c = true ->
               (forall n, (n < @NumSpec demo_build)%nat ->
                  u' (@UFS demo_build + n)%nat
                  = (u (@UFS demo_build + n)%nat + rate n * (1 # 2))%Q)
               /\ (forall n, (n < @NumAux demo_build)%nat ->
                     u' (@UFX demo_build + n)%nat
                     = (u (@UFX demo_build + n)%nat
                        + rate (n + @NumSpec demo_build)%nat * (1 # 2))%Q)
               /\ u' (@UEINT demo_build)
                  = (u (@UEINT demo_build)
                     + rate (@NumSpec demo_build + @NumAux demo_build)%nat
                       * (1 # 2))%Q
               /\ u' (@UEDEN demo_build)
                  = (u (@UEDEN demo_build)
                     + rate (@NumSpec demo_build + @NumAux demo_build)%nat
                       * (1 # 2))%Q)
              /\ ((idx, c) ∉ tile_cells (Strang.mfiter r)
                  \/ mf_contains (Strang.s r) idx c = false
                  \/ mf_contains (Strang.r r') idx c = false ->
                  forall n, u' n = u n))
         [demo_rank 0] (Strang.ranks_out out).
Proof.
  assert (exists out,
            @Strang.react_state demo_build
              (default_params CornerTransportUpwind false) toy_burner
              blank_burn_state no_coarse_patch (demo_rank 0) [] 0 (1 # 2)
            = Ok out) as [out E]
    by (vm_compute; eexists; reflexivity).
  exists out. split; [exact E|].
  refine (@strang_state_advanced_by_returned_rates demo_build
            (default_params CornerTransportUpwind false) toy_burner
            blank_burn_state no_coarse_patch (demo_rank 0) [] 0%Q (1 # 2)%Q
            out (castro_layout_ok _ _ _ _) eq_refl _ E).
  vm_compute. reflexivity.
Defined.

(** X6.  Whatever path it takes, the Strang coupler leaves the tiles and
    the boxes of the state as they were, and it never changes the
    density, the momenta or the temperature of any cell: under the
    standard ordering of the components only the species, the
    auxiliaries and the two energies can differ after the call. *)
Theorem strang_keeps_hydrodynamic_state {bld : Build} {par : Params}
    (burner : Strang.burn_t -> Real -> Strang.burn_t)
    (burn_state_decl : Strang.burn_t)
    (FillCoarsePatch : MultiFab -> Real -> MultiFab)
    (rk : Strang.Rank) (peers : list Strang.Rank) (time dt : Real)
    (out : Strang.Outcome) :
  layout_ok ->
  Strang.react_state burner burn_state_decl FillCoarsePatch rk peers time dt
  = Ok out ->
  Forall2
    (fun r r' =>
       Strang.mfiter r' = Strang.mfiter r
       /\ mf_same_shape (Strang.s r) (Strang.s r')
       /\ forall idx c,
           let u := mf_val (Strang.s r) idx c in
           let u' := mf_val (Strang.s r') idx c in
           u' URHO = u URHO /\ u' UMX = u UMX /\ u' UMY = u UMY
           /\ u' UMZ = u UMZ /\ u' UTEMP = u UTEMP
           /\ forall n,
               n <> UEDEN -> n <> UEINT ->
               ~ (UFS <= n < UFS + NumSpec)%nat ->
               ~ (UFX <= n < UFX + NumAux)%nat -> u' n = u n)
    (rk :: peers) (Strang.ranks_out out).
Proof.
  intros Hlayout H.
  apply strang_call_paths in H as [->|(_ & _ & H)].
  { cbn [Strang.ranks_out]. apply Forall2_map_self. intros r.
    cbn [Strang.skip_rank Strang.s Strang.mfiter].
    split; [done|]. split; [apply mf_same_shape_refl|]. done. }
  revert H. apply Forall2_impl.
  intros r r' [b Hp].
  destruct (strang_rank_state _ _ _ _ _ _ _ _ Hlayout Hp)
    as (Hm & Hs & _ & Hfr & _).
  split; [done|]. split; [done|]. intros idx c. cbv zeta.
  pose proof (layout_ok_hydro Hlayout) as Hh.
  pose proof (layout_ok_temp Hlayout) as Ht.
  destruct_and!.
  repeat split;
    try (apply Hfr; [done|done|by apply layout_ok_below_UFS..]).
  apply Hfr.
Qed.

Lemma strang_keeps_hydrodynamic_state_witness :
  exists out,
    @Strang.react_state demo_build
      (default_params CornerTransportUpwind false) toy_burner
      blank_burn_state no_coarse_patch (demo_rank 0) [] 0 (1 # 2) = Ok out
    /\ Forall2
         (fun r r' =>
            Strang.mfiter r' = Strang.mfiter r
            /\ mf_same_shape (Strang.s r) (Strang.s r')
            /\ forall idx c,
                let u := mf_val (Strang.s r) idx c in
                let u' := mf_val (Strang.s r') idx c in
                u' (@URHO demo_build) = u (@URHO demo_build)
                /\ u' (@UMX demo_build) = u (@UMX demo_build)
                /\ u' (@UMY demo_build) = u (@UMY demo_build)
                /\ u' (@UMZ demo_build) = u (@UMZ demo_build)
                /\ u' (@UTEMP demo_build) = u (@UTEMP demo_build)
                /\ forall n,
                    n <> @UEDEN demo_build -> n <> @UEINT demo_build ->
                    ~ (@UFS demo_build <= n
                       < @UFS demo_build + @NumSpec demo_build)%nat ->
                    ~ (@UFX demo_build <= n
                       < @UFX demo_build + @NumAux demo_build)%nat ->
                    u' n = u n)
         [demo_rank 0] (Strang.ranks_out out).
Proof.
  assert (exists out,
            @Strang.react_state demo_build
              (default_params CornerTransportUpwind false) toy_burner
              blank_burn_state no_coarse_patch (demo_rank 0) [] 0 (1 # 2)
            = Ok out) as [out E]
    by (vm_compute; eexists; reflexivity).
  exists out. split; [exact E|].
  exact (@strang_keeps_hydrodynamic_state demo_build
           (default_params CornerTransportUpwind false) toy_burner
           blank_burn_state no_coarse_patch (demo_rank 0) [] 0%Q (1 # 2)%Q
           out (castro_layout_ok _ _ _ _) E).
Defined.
(** ** The Strang coupler on cells that are not burned, the cost metric,
    and the levels that do not solve their reactions *)

Section StrangCellFacts.
Context {bld : Build} {par : Params}.
Variable burner : Strang.burn_t -> Real -> Strang.burn_t.
Variable burn_state_decl : Strang.burn_t.

Lemma strang_updated_zero rt dt n old :
  (forall m, (m < NumSpec + NumAux + 1)%nat -> rt m = 0%Q) ->
  (strang_updated rt dt n old == old)%Q.
Proof.
  intros H. unfold strang_updated.
  repeat case_nat_test; rewrite ?H by lia; lra.
Qed.

Lemma strang_rate_unburned u dt n old :
  strang_do_burn u = false -> (n < NumSpec + NumAux + 1)%nat ->
  strang_rate burner burn_state_decl u dt n old = 0%Q.
Proof.
  intros Hb Hn. unfold strang_rate. rewrite Hb.
  by rewrite (proj2 (Nat.ltb_lt _ _) Hn).
Qed.

Lemma strang_rate_cost u dt old :
  (1 <= strang_rate burner burn_state_decl u dt (NumSpec + NumAux + 1) old)%Q.
Proof.
  unfold strang_rate. destruct (strang_do_burn u); repeat case_nat_test.
  - apply amrex_max_ge. left. lra.
  - lra.
Qed.

End StrangCellFacts.

(** X7.  The Strang coupler does not change the state of a cell it does
    not burn.  On a level that solves its own reactions, at every cell
    that is outside the burn window or excluded by the shock flag, every
    component of the state has after the call the value it had before
    (in the arithmetic of the rationals: inside a tile the update adds
    [0 * dt]); this holds on every path of the call and for every rank
    whose tiles share no cell. *)
Theorem strang_unburned_cell_keeps_state {bld : Build} {par : Params}
    (burner : Strang.burn_t -> Real -> Strang.burn_t)
    (burn_state_decl : Strang.burn_t)
    (FillCoarsePatch : MultiFab -> Real -> MultiFab)
    (rk : Strang.Rank) (peers : list Strang.Rank) (time dt : Real)
    (out : Strang.Outcome) :
  layout_ok ->
  (level <= reactions_max_solve_level)%Z ->
  Strang.react_state burner burn_state_decl FillCoarsePatch rk peers time dt
  = Ok out ->
  Forall2
    (fun r r' =>
       tiles_disjoint (Strang.mfiter r) ->
       forall idx c,
         strang_do_burn (mf_val (Strang.s r) idx c) = false ->
         forall n,
           (mf_val (Strang.s r') idx c n == mf_val (Strang.s r) idx c n)%Q)
    (rk :: peers) (Strang.ranks_out out).
Proof.
  intros Hlayout Hlv H.
  apply strang_call_paths in H as [->|(_ & _ & H)].
  { cbn [Strang.ranks_out]. apply Forall2_map_self. by intros r _ idx c _ n. }
  revert H. apply Forall2_impl.
  intros r r' [b Hp] Hdis idx c Hb n.
  destruct (strang_rank_state _ _ _ _ _ _ _ _ Hlayout Hp)
    as (_ & _ & _ & _ & Hst).
  rewrite (Hst Hdis).
  destruct (bool_decide_reflect ((idx, c) ∈ tile_cells (Strang.mfiter r)))
    as [Hin|Hin]; [|done].
  destruct (mf_contains (Strang.s r) idx c); [|done].
  destruct (mf_contains (Strang.r r') idx c) eqn:Hcr; [|done].
  cbn [andb]. apply strang_updated_zero. intros m Hm.
  rewrite (strang_rank_rates _ _ _ _ _ _ _ _ Hdis Hp).
  rewrite (proj2 (Z.leb_le _ _) Hlv), (bool_decide_eq_true_2 _ Hin), Hcr.
  cbn [andb]. by apply strang_rate_unburned.
Qed.

Lemma strang_unburned_cell_keeps_state_witness :
  (@level (castro_params CornerTransportUpwind 1 100 1e200 0 1e200 false)
   <= @reactions_max_solve_level
        (castro_params CornerTransportUpwind 1 100 1e200 0 1e200 false))%Z
  /\ exists out,
      @Strang.react_state demo_build
        (castro_params CornerTransportUpwind 1 100 1e200 0 1e200 false)
        toy_burner blank_burn_state no_coarse_patch (demo_rank 0) [] 0 (1 # 2)
      = Ok out
      /\ Forall2
           (fun r r' =>
              tiles_disjoint (Strang.mfiter r) ->
              forall idx c,
                @strang_do_burn demo_build
                  (castro_params CornerTransportUpwind 1 100 1e200 0 1e200
                     false) (mf_val (Strang.s r) idx c) = false ->
                forall n,
                  (mf_val (Strang.s r') idx c n
                   == mf_val (Strang.s r) idx c n)%Q)
           [demo_rank 0] (Strang.ranks_out out).
Proof.
  split; [vm_compute; discriminate|].
  assert (exists out,
            @Strang.react_state demo_build
              (castro_params CornerTransportUpwind 1 100 1e200 0 1e200 false)
              toy_burner blank_burn_state no_coarse_patch (demo_rank 0) []
              0 (1 # 2) = Ok out) as [out E]
    by (vm_compute; eexists; reflexivity).
  exists out. split; [exact E|].
  refine (@strang_unburned_cell_keeps_state demo_build
            (castro_params CornerTransportUpwind 1 100 1e200 0 1e200 false)
            toy_burner blank_burn_state no_coarse_patch (demo_rank 0) []
            0%Q (1 # 2)%Q out (castro_layout_ok _ _ _ _) _ E).
  vm_compute. discriminate.
Defined.

(** X8.  On the main path of the Strang coupler, on a level that
    solves its own reactions, the cost entry (component
    [NumSpec + NumAux + 1] of the rate array) is at least 1 at every
    cell of a tile that lies inside the returned rate array, burned or
    not, for every rank whose tiles share no cell. *)
Theorem strang_cost_at_least_one {bld : Build} {par : Params}
    (burner : Strang.burn_t -> Real -> Strang.burn_t)
    (burn_state_decl : Strang.burn_t)
    (FillCoarsePatch : MultiFab -> Real -> MultiFab)
    (rk : Strang.Rank) (peers : list Strang.Rank) (time dt : Real)
    (out : Strang.Outcome) :
  do_react = 1%Z ->
  valid_zones_to_burn (Strang.s rk) (map Strang.s peers) = Ok true ->
  (level <= reactions_max_solve_level)%Z ->
  Strang.react_state burner burn_state_decl FillCoarsePatch rk peers time dt
  = Ok out ->
  Forall2
    (fun r r' =>
       tiles_disjoint (Strang.mfiter r) ->
       forall idx c,
         (idx, c) ∈ tile_cells (Strang.mfiter r) ->
         mf_contains (Strang.r r') idx c = true ->
         (1 <= mf_val (Strang.r r') idx c (NumSpec + NumAux + 1))%Q)
    (rk :: peers) (Strang.ranks_out out).
Proof.
  intros Hr Hg Hlv H.
  pose proof (strang_call_ranks _ _ _ _ _ _ _ _ H Hr Hg) as Hall.
  revert Hall. apply Forall2_impl.
  intros r r' [b Hp] Hdis idx c Hin Hcr.
  rewrite (strang_rank_rates _ _ _ _ _ _ _ _ Hdis Hp).
  rewrite (proj2 (Z.leb_le _ _) Hlv), (bool_decide_eq_true_2 _ Hin), Hcr.
  cbn [andb]. apply strang_rate_cost.
Qed.

Lemma strang_cost_at_least_one_witness :
  exists out,
    @Strang.react_state demo_build
      (default_params CornerTransportUpwind false) toy_burner
      blank_burn_state no_coarse_patch (demo_rank 0) [] 0 (1 # 2) = Ok out
    /\ Forall2
         (fun r r' =>
            tiles_disjoint (Strang.mfiter r) ->
            forall idx c,
              (idx, c) ∈ tile_cells (Strang.mfiter r) ->
              mf_contains (Strang.r r') idx c = true ->
              (1 <= mf_val (Strang.r r') idx c
                      (@NumSpec demo_build + @NumAux demo_build + 1))%Q)
         [demo_rank 0] (Strang.ranks_out out).
Proof.
  assert (exists out,
            @Strang.react_state demo_build
              (default_params CornerTransportUpwind false) toy_burner
              blank_burn_state no_coarse_patch (demo_rank 0) [] 0 (1 # 2)
            = Ok out) as [out E]
    by (vm_compute; eexists; reflexivity).
  exists out. split; [exact E|].
  refine (@strang_cost_at_least_one demo_build
            (default_params CornerTransportUpwind false) toy_burner
            blank_burn_state no_coarse_patch (demo_rank 0) [] 0%Q (1 # 2)%Q
            out eq_refl _ _ E).
  - vm_compute. reflexivity.
  - vm_compute. discriminate.
Defined.

(** X9.  On a level above [reactions_max_solve_level] the Strang
    coupler never invokes the integrator: the outcome of the call (the
    arrays of every rank, the flag, the diagnostic, or the failure) is
    the same for every integrator and every initial content of
    [burn_state], and a call that returns reports success. *)
Theorem strang_unsolved_level_skips_integrator {bld : Build} {par : Params}
    (burner burner' : Strang.burn_t -> Real -> Strang.burn_t)
    (burn_state_decl burn_state_decl' : Strang.burn_t)
    (FillCoarsePatch : MultiFab -> Real -> MultiFab)
    (rk : Strang.Rank) (peers : list Strang.Rank) (time dt : Real) :
  (reactions_max_solve_level < level)%Z ->
  Strang.react_state burner burn_state_decl FillCoarsePatch rk peers time dt
  = Strang.react_state burner' burn_state_decl' FillCoarsePatch rk peers
      time dt
  /\ forall out,
      Strang.react_state burner burn_state_decl FillCoarsePatch rk peers
        time dt = Ok out ->
      Strang.burn_success out = true.
Proof.
  intros Hlv.
  assert ((level <=? reactions_max_solve_level)%Z = false) as Hlv'
    by (apply Z.leb_gt; lia).
  assert (forall r,
            Strang.react_rank burner burn_state_decl FillCoarsePatch time dt r
            = Strang.react_rank burner' burn_state_decl' FillCoarsePatch
                time dt r) as Hrank.
  { intros r. unfold Strang.react_rank.
    rewrite (foldM_ext _ (Strang.react_mfi burner' burn_state_decl' dt));
      [done|].
    intros st mfi. by apply strang_mfi_above. }
  split.
  - unfold Strang.react_state.
    by rewrite Hrank, (mapM_result_ext _ _ _ Hrank).
  - intros out H.
    apply strang_call_inv in H as (_ & [[_ ->]|(_ & _ & H)]); [done|].
    destruct H as (rk' & b & peers' & Hrk & Hpeers & _ & ->).
    assert (forall r r' b',
              Strang.react_rank burner burn_state_decl FillCoarsePatch time
                dt r = Ok (r', b') -> b' = 1%Z) as Hone.
    { intros r r' b' (s' & r1 & acc' & Hf & _ & ->)%strang_rank_inv.
      by rewrite (strang_tiles_unsolved _ _ _ _ _ _ _ _ _ _ Hlv' Hf). }
    rewrite (Hone _ _ _ Hrk), ReduceIntMin_all_one; [done|].
    apply mapM_result_inv in Hpeers.
    apply Forall_forall. intros b' Hb'%list_elem_of_In.
    change (map ?f ?l) with (f <$> l) in Hb'.
    apply list_elem_of_fmap in Hb' as ([r' b''] & -> & Hin).
    apply list_elem_of_lookup in Hin as [i Hi].
    destruct (Forall2_lookup_r _ _ _ _ _ Hpeers Hi) as (r & _ & Hr).
    by apply (Hone _ _ _ Hr).
Qed.

Lemma strang_unsolved_level_skips_integrator_witness :
  (@reactions_max_solve_level unsolved_level_params
   < @level unsolved_level_params)%Z
  /\ @Strang.react_state demo_build unsolved_level_params failing_burner
       blank_burn_state no_coarse_patch (demo_rank 0) [] 0 (1 # 2)
     = @Strang.react_state demo_build unsolved_level_params toy_burner
         blank_burn_state no_coarse_patch (demo_rank 0) [] 0 (1 # 2)
  /\ forall out,
      @Strang.react_state demo_build unsolved_level_params failing_burner
        blank_burn_state no_coarse_patch (demo_rank 0) [] 0 (1 # 2) = Ok out ->
      Strang.burn_success out = true.
Proof.
  split; [reflexivity|].
  apply (@strang_unsolved_level_skips_integrator demo_build
           unsolved_level_params).
  reflexivity.
Defined.
(** ** When the couplers return *)

Section StrangTotal.
Context {bld : Build} {par : Params}.
Variable burner : Strang.burn_t -> Real -> Strang.burn_t.
Variable burn_state_decl : Strang.burn_t.
Variable FillCoarsePatch : MultiFab -> Real -> MultiFab.
Variable dt : Real.

Local Abbreviation lv := (level <=? reactions_max_solve_level)%Z.

Lemma strang_mfi_ok s r acc idx bx :
  idx < length (fabs s) -> idx < length (fabs r) ->
  (lv = true -> forall c, c ∈ box_cells bx ->
     strang_cell_defined (mf_val s idx c) dt (mf_contains r idx c)) ->
  exists res,
    Strang.react_mfi burner burn_state_decl dt (s, r, acc) (idx, bx) = Ok res.
Proof.
  intros [U E1]%mf_array_is_Ok [R E2]%mf_array_is_Ok Hdef.
  unfold Strang.react_mfi. rewrite E1, E2. cbn [mbind result_bind].
  unfold Strang.react_tile, ReduceOpSum_eval.
  destruct lv.
  - destruct (strang_pass1_ok burner burn_state_decl U dt (box_cells bx) acc R)
      as [[a R1] ->].
    { intros c Hc.
      rewrite (mf_array_val _ _ _ E1), (mf_array_contains _ _ _ c E2).
      by apply Hdef. }
    cbn [mbind result_bind]. by eexists.
  - cbn [mbind result_bind]. by eexists.
Qed.

Lemma strang_tiles_ok tiles s r acc :
  tiles_disjoint tiles ->
  (forall idx bx, (idx, bx) ∈ tiles ->
     idx < length (fabs s) /\ idx < length (fabs r)) ->
  (lv = true -> forall idx c, (idx, c) ∈ tile_cells tiles ->
     strang_cell_defined (mf_val s idx c) dt (mf_contains r idx c)) ->
  exists res,
    foldM (Strang.react_mfi burner burn_state_decl dt) tiles (s, r, acc)
    = Ok res.
Proof.
  revert s r acc.
  induction tiles as [|[idx0 bx0] tiles IH]; intros s r acc Hdis Hidx Hdef;
    [by eexists|].
  apply tiles_disjoint_cons in Hdis as [Hdis Hfresh].
  destruct (Hidx idx0 bx0) as [Hs Hr]; [apply elem_of_cons; by left|].
  destruct (strang_mfi_ok s r acc idx0 bx0 Hs Hr) as [[[s1 r1] acc1] Hk].
  { intros Hlv c Hc. apply (Hdef Hlv). apply elem_of_tile_cells_cons.
    by left. }
  cbn [foldM]. rewrite Hk. cbn [mbind result_bind].
  apply strang_mfi_inv in Hk as (_ & _ & Hss & Hsr & Hfs & _).
  apply IH; [done| |].
  - intros idx bx Hin.
    rewrite (mf_same_shape_length _ _ Hss), (mf_same_shape_length _ _ Hsr).
    apply (Hidx idx bx). apply elem_of_cons. by right.
  - intros Hlv idx c Hin.
    rewrite (mf_same_shape_contains _ _ _ _ Hsr).
    apply (strang_cell_defined_ext dt (mf_val s idx c)).
    + intros n. symmetry. apply Hfs. intros [-> Hc]. by apply (Hfresh c Hc).
    + apply (Hdef Hlv). apply elem_of_tile_cells_cons. by right.
Qed.

Lemma strang_rank_ok time rk :
  (forall mf t, mf_same_shape mf (FillCoarsePatch mf t)) ->
  ~ (dt == 0)%Q ->
  tiles_disjoint (Strang.mfiter rk) ->
  (forall idx bx, (idx, bx) ∈ Strang.mfiter rk ->
     idx < length (fabs (Strang.s rk)) /\ idx < length (fabs (Strang.r rk))) ->
  (forall idx c, (idx, c) ∈ tile_cells (Strang.mfiter rk) ->
     ~ (mf_val (Strang.s rk) idx c URHO == 0)%Q) ->
  exists res,
    Strang.react_rank burner burn_state_decl FillCoarsePatch time dt rk
    = Ok res.
Proof.
  intros Hfcp Hdt Hdis Hidx Hrho. unfold Strang.react_rank. cbv zeta.
  set (r0 := if (level >? reactions_max_solve_level)%Z && (level >? 0)%Z
             then FillCoarsePatch (Strang.r rk) time else Strang.r rk).
  assert (length (fabs r0) = length (fabs (Strang.r rk))) as Hlen.
  { unfold r0. destruct (_ && _); [|done].
    apply mf_same_shape_length, Hfcp. }
  destruct (strang_tiles_ok (Strang.mfiter rk) (Strang.s rk) r0 0%Q Hdis)
    as [res Hres].
  - intros idx bx Hin. rewrite Hlen. by apply (Hidx idx bx).
  - intros _ idx c Hin. split; [by apply Hrho|by left].
  - destruct (foldM _ _ _) as [[[s' r'] acc']|e] eqn:E.
    + cbn [mbind result_bind]. by eexists.
    + discriminate Hres.
Qed.

End StrangTotal.

(** X10.  The Strang coupler returns: called under the CTU method, with
    limiters that do not make the zone gate read out of range, a
    FillCoarsePatch that keeps the boxes of the rate array, a nonzero
    [dt] and, on every rank, tiles that share no cell and name FABs of
    the state and of the rate array, and a nonzero density at every
    cell of every tile, the call ends without an abort, a division by
    zero or a bad index, and yields an outcome. *)
Theorem strang_call_returns {bld : Build} {par : Params}
    (burner : Strang.burn_t -> Real -> Strang.burn_t)
    (burn_state_decl : Strang.burn_t)
    (FillCoarsePatch : MultiFab -> Real -> MultiFab)
    (rk : Strang.Rank) (peers : list Strang.Rank) (time dt : Real) :
  time_integration_method = CornerTransportUpwind ->
  (limit_large_T = true -> limit_large_rho = true) ->
  (forall mf t, mf_same_shape mf (FillCoarsePatch mf t)) ->
  ~ (dt == 0)%Q ->
  (forall r, r ∈ rk :: peers ->
     tiles_disjoint (Strang.mfiter r)
     /\ (forall idx bx, (idx, bx) ∈ Strang.mfiter r ->
           idx < length (fabs (Strang.s r))
           /\ idx < length (fabs (Strang.r r)))
     /\ (forall idx c, (idx, c) ∈ tile_cells (Strang.mfiter r) ->
           ~ (mf_val (Strang.s r) idx c URHO == 0)%Q)) ->
  exists out,
    Strang.react_state burner burn_state_decl FillCoarsePatch rk peers time dt
    = Ok out.
Proof.
  intros Hm Hlim Hfcp Hdt Hranks.
  assert (forall r, r ∈ rk :: peers ->
            exists res,
              Strang.react_rank burner burn_state_decl FillCoarsePatch time
                dt r = Ok res) as Hok.
  { intros r (Hdis & Hidx & Hrho)%Hranks. by apply strang_rank_ok. }
  destruct (Hok rk) as [[rk' b] Hrk]; [apply elem_of_cons; by left|].
  destruct (mapM_result_ok
              (Strang.react_rank burner burn_state_decl FillCoarsePatch time
                 dt) peers) as [peers' Hpeers].
  { apply Forall_forall. intros r Hr%list_elem_of_In. apply Hok.
    apply elem_of_cons. by right. }
  unfold Strang.react_state.
  rewrite bool_decide_eq_false_2 by (intros H; by apply H).
  destruct (bool_decide (do_react <> 1%Z)); [by eexists|].
  rewrite Hrk, Hpeers.
  destruct (valid_zones_to_burn_cases (Strang.s rk) (map Strang.s peers))
    as [[_ ->]|[(_ & Hr & HT & _)|(_ & _ & ->)]].
  - cbn [mbind result_bind negb]. by eexists.
  - apply Hlim in HT. congruence.
  - destruct (compared_overlap_test _ _); cbn [mbind result_bind negb];
      by eexists.
Qed.

Lemma strang_call_returns_witness :
  exists out,
    @Strang.react_state demo_build
      (default_params CornerTransportUpwind false) toy_burner
      blank_burn_state no_coarse_patch (demo_rank 0) [] 0 (1 # 2) = Ok out.
Proof.
  apply (@strang_call_returns demo_build
           (default_params CornerTransportUpwind false)).
  - reflexivity.
  - intros H. vm_compute in H. discriminate H.
  - intros mf t. apply mf_same_shape_refl.
  - intros H. discriminate H.
  - intros r Hr. split; [by apply (demo_tiles_disjoint 0)|].
    apply list_elem_of_singleton in Hr as ->. split.
    + intros idx bx [= -> ->]%list_elem_of_singleton. cbn. lia.
    + intros idx c Hin H. vm_compute in Hin.
      apply elem_of_cons in Hin as [[= -> ->]|Hin]; [discriminate H|].
      apply list_elem_of_singleton in Hin as [= -> ->]. discriminate H.
Defined.

Section SDCTotal.
Context {bld : Build} {par : Params}.
Variable burner : SDC.burn_t -> Real -> SDC.burn_t.
Variable burn_state_decl : SDC.burn_t.
Variables (S_old A_src Iq : MultiFab) (dt : Real).
Hypothesis Hdt : ~ (dt == 0)%Q.

Lemma sdc_pass_total U_old asrc Iqa cells acc U R :
  exists res,
    ReduceOpSum_cells cells
      (SDC.react_kernel burner burn_state_decl U_old asrc Iqa sdc_iteration dt)
      (acc, (U, R)) = Ok res.
Proof using Hdt.
  revert acc U R.
  induction cells as [|c cells IH]; intros acc U R; [by eexists|].
  rewrite ReduceOpSum_cells_cons.
  destruct (sdc_kernel_ok burner burn_state_decl U_old asrc Iqa dt c U R)
    as (U1 & R1 & -> & _); [by left|].
  cbn [mbind result_bind]. apply IH.
Qed.

Lemma sdc_mfi_ok S R acc idx bx :
  idx < length (fabs S_old) -> idx < length (fabs S) ->
  idx < length (fabs A_src) -> idx < length (fabs R) ->
  (NSE_THERMO = true -> idx < length (fabs Iq)) ->
  exists S' R' acc',
    SDC.react_mfi burner burn_state_decl S_old A_src Iq dt (S, R, acc)
      (idx, bx) = Ok (S', R', acc')
    /\ length (fabs S') = length (fabs S)
    /\ length (fabs R') = length (fabs R).
Proof using Hdt.
  intros [U_old E1]%mf_array_is_Ok [U E2]%mf_array_is_Ok
    [asrc E3]%mf_array_is_Ok [Ra E4]%mf_array_is_Ok HIq.
  assert (exists Iqa,
            (if NSE_THERMO then mf_array Iq idx else Ok no_view) = Ok Iqa)
    as [Iqa E5].
  { destruct NSE_THERMO; [by apply mf_array_is_Ok, HIq|by eexists]. }
  unfold SDC.react_mfi. rewrite E1, E2, E3, E4, E5.
  cbn [mbind result_bind]. unfold ReduceOpSum_eval.
  destruct (sdc_pass_total U_old asrc Iqa (box_cells bx) acc U Ra)
    as [[a [U1 R1]] ->].
  cbn [mbind result_bind]. eexists _, _, _. split; [done|].
  by rewrite !mf_store_length.
Qed.

Lemma sdc_tiles_ok tiles S R acc :
  (forall idx bx, (idx, bx) ∈ tiles ->
     idx < length (fabs S_old) /\ idx < length (fabs S)
     /\ idx < length (fabs A_src) /\ idx < length (fabs R)
     /\ (NSE_THERMO = true -> idx < length (fabs Iq))) ->
  exists res,
    foldM (SDC.react_mfi burner burn_state_decl S_old A_src Iq dt) tiles
      (S, R, acc) = Ok res.
Proof using Hdt.
  revert S R acc.
  induction tiles as [|[idx0 bx0] tiles IH]; intros S R acc Hidx;
    [by eexists|].
  destruct (Hidx idx0 bx0) as (H1 & H2 & H3 & H4 & H5);
    [apply elem_of_cons; by left|].
  destruct (sdc_mfi_ok S R acc idx0 bx0 H1 H2 H3 H4 H5)
    as (S1 & R1 & acc1 & Hk & HlS & HlR).
  cbn [foldM]. rewrite Hk. cbn [mbind result_bind].
  apply IH. intros idx bx Hin. rewrite HlS, HlR.
  apply (Hidx idx bx). apply elem_of_cons. by right.
Qed.

End SDCTotal.

(** X11.  The simplified-SDC coupler returns: called under the
    simplified-SDC method with a nonzero [dt] and, on every rank, tiles
    that name FABs of the arrays it reads (the reactive sources are
    read under NSE_THERMO only), the call yields an outcome.  Unlike
    the Strang coupler it asks nothing of the density (its kernel does
    not divide by it) and it does not consult the zone gate. *)
Theorem sdc_call_returns {bld : Build} {par : Params}
    (burner : SDC.burn_t -> Real -> SDC.burn_t) (burn_state_decl : SDC.burn_t)
    (FillBoundary : list MultiFab -> MultiFab -> MultiFab)
    (rk : SDC.Rank) (peers : list SDC.Rank) (time dt : Real) :
  time_integration_method = SimplifiedSpectralDeferredCorrections ->
  ~ (dt == 0)%Q ->
  (forall r idx bx, r ∈ rk :: peers -> (idx, bx) ∈ SDC.mfiter r ->
     idx < length (fabs (SDC.S_old r)) /\ idx < length (fabs (SDC.S_new r))
     /\ idx < length (fabs (SDC.A_src r))
     /\ idx < length (fabs (SDC.reactions r))
     /\ (NSE_THERMO = true -> idx < length (fabs (SDC.SDC_react_new r)))) ->
  exists out,
    SDC.react_state burner burn_state_decl FillBoundary rk peers time dt
    = Ok out.
Proof.
  intros Hm Hdt Hidx.
  assert (forall r, r ∈ rk :: peers ->
            exists res, SDC.react_rank burner burn_state_decl dt r = Ok res)
    as Hok.
  { intros r Hr. unfold SDC.react_rank. cbv zeta.
    destruct (sdc_tiles_ok burner burn_state_decl (SDC.S_old r) (SDC.A_src r)
                (SDC.SDC_react_new r) dt Hdt (SDC.mfiter r) (SDC.S_new r)
                (setVal (SDC.reactions r) 0 (nGrow (SDC.reactions r))) 0%Q)
      as [res Hres].
    - intros idx bx Hin.
      rewrite (mf_same_shape_length _ _ (setVal_same_shape _ _ _)).
      by apply (Hidx r idx bx).
    - destruct (foldM _ _ _) as [[[S' R'] acc']|e] eqn:E.
      + cbn [mbind result_bind]. by eexists.
      + discriminate Hres. }
  destruct (Hok rk) as [[rk' b] Hrk]; [apply elem_of_cons; by left|].
  destruct (mapM_result_ok (SDC.react_rank burner burn_state_decl dt) peers)
    as [peers' Hpeers].
  { apply Forall_forall. intros r Hr%list_elem_of_In. apply Hok.
    apply elem_of_cons. by right. }
  unfold SDC.react_state.
  rewrite bool_decide_eq_false_2 by (intros H; by apply H).
  rewrite Hrk, Hpeers. cbn [mbind result_bind]. by eexists.
Qed.

Lemma sdc_call_returns_witness :
  exists out,
    @SDC.react_state demo_build sdc_window_params toy_sdc_burner
      blank_sdc_burn_state no_fill_boundary demo_sdc_rank [] 0 (1 # 2)
    = Ok out.
Proof.
  apply (@sdc_call_returns demo_build sdc_window_params).
  - reflexivity.
  - intros H. discriminate H.
  - intros r idx bx ->%list_elem_of_singleton
      [= -> ->]%list_elem_of_singleton.
    cbn. lia.
Defined.
(** ** More about the simplified-SDC coupler *)

Lemma Q_rate_times_dt (a b d : Q) :
  ~ (d == 0)%Q -> (a == b + (a - b) / d * d)%Q.
Proof. intros Hd. field. exact Hd. Qed.

Section SDCCallMore.
Context {bld : Build} {par : Params}.
Variable burner : SDC.burn_t -> Real -> SDC.burn_t.
Variable burn_state_decl : SDC.burn_t.
Variable FillBoundary : list MultiFab -> MultiFab -> MultiFab.

(** Every rank runs its pass; the halo exchange that follows touches
    the new state only, and only where it has ghost cells. *)
Lemma sdc_call_ranks rk peers time dt out :
  SDC.react_state burner burn_state_decl FillBoundary rk peers time dt
  = Ok out ->
  Forall2
    (fun r r' =>
       exists r1 b,
         SDC.react_rank burner burn_state_decl dt r = Ok (r1, b)
         /\ SDC.S_old r' = SDC.S_old r1 /\ SDC.A_src r' = SDC.A_src r1
         /\ SDC.reactions r' = SDC.reactions r1
         /\ SDC.SDC_react_new r' = SDC.SDC_react_new r1
         /\ SDC.mfiter r' = SDC.mfiter r1
         /\ ((nGrow (SDC.S_new r1) <= 0)%Z -> r' = r1))
    (rk :: peers) (SDC.ranks_out out).
Proof.
  intros H.
  apply sdc_call_inv in H as (_ & rk' & b & peers' & Hrk & Hpeers & -> & _).
  apply mapM_result_inv in Hpeers.
  assert (Forall2 (fun r (y : SDC.Rank * Z) =>
                     SDC.react_rank burner burn_state_decl dt r = Ok y)
            (rk :: peers) ((rk', b) :: peers')) as Hall
    by (by constructor).
  change (rk' :: map fst peers') with (map fst ((rk', b) :: peers')).
  clear Hrk Hpeers. unfold SDC.fill_boundary.
  generalize (map SDC.S_new (map fst ((rk', b) :: peers'))) as all.
  intros all.
  induction Hall as [|r [r1 b1] l l' Hr _ IH]; [constructor|].
  cbn [map]. constructor; [|apply IH].
  exists r1, b1. split; [done|]. cbn [fst].
  destruct (Z.gtb_spec (nGrow (SDC.S_new r1)) 0);
    cbn [SDC.S_old SDC.A_src SDC.reactions SDC.SDC_react_new SDC.mfiter];
    repeat split; try done; lia.
Qed.

Lemma sdc_rank_shapes dt rk rk' b :
  layout_ok ->
  SDC.react_rank burner burn_state_decl dt rk = Ok (rk', b) ->
  mf_same_shape (SDC.S_new rk) (SDC.S_new rk')
  /\ mf_same_shape (SDC.reactions rk) (SDC.reactions rk').
Proof.
  intros Hlayout (S' & R' & acc' & Hf & -> & _)%sdc_rank_inv.
  apply (sdc_tiles_inv _ _ _ _ _ _ Hlayout) in Hf
    as (_ & _ & HsS & HsR & _).
  split; [done|]. cbn [SDC.reactions].
  eapply mf_same_shape_trans; [apply setVal_same_shape|done].
Qed.

End SDCCallMore.

(** X12.  The rates the simplified-SDC coupler stores reproduce the
    change of the state.  With [dt] nonzero, after a call that returns,
    on every rank whose new state has no ghost cells (so that no halo
    exchange follows the pass), at every burned cell of a tile that
    lies inside the rate array, each species and auxiliary partial
    density and the internal energy of the new state equal the value of
    the old state plus [dt] times the stored rate of that quantity, in
    the arithmetic of the rationals.  The stored rate is therefore the
    total rate of change from the old to the new state, the
    non-reacting sources included. *)
Theorem sdc_rates_reproduce_state_change {bld : Build} {par : Params}
    (burner : SDC.burn_t -> Real -> SDC.burn_t) (burn_state_decl : SDC.burn_t)
    (FillBoundary : list MultiFab -> MultiFab -> MultiFab)
    (rk : SDC.Rank) (peers : list SDC.Rank) (time dt : Real)
    (out : SDC.Outcome) :
  layout_ok ->
  ~ (dt == 0)%Q ->
  SDC.react_state burner burn_state_decl FillBoundary rk peers time dt
  = Ok out ->
  Forall2
    (fun r r' =>
       (nGrow (SDC.S_new r) <= 0)%Z ->
       forall idx c,
         (idx, c) ∈ tile_cells (SDC.mfiter r) ->
         sdc_do_burn (mf_val (SDC.S_old r) idx c) (mf_val (SDC.S_new r) idx c)
         = true ->
         mf_contains (SDC.reactions r) idx c = true ->
         let uo := mf_val (SDC.S_old r) idx c in
         let un' := mf_val (SDC.S_new r') idx c in
         let rate := mf_val (SDC.reactions r') idx c in
         (forall n, (n < NumSpec)%nat ->
            (un' (UFS + n)%nat == uo (UFS + n)%nat + rate n * dt)%Q)
         /\ (forall n, (n < NumAux)%nat ->
               (un' (UFX + n)%nat
                == uo (UFX + n)%nat + rate (n + NumSpec)%nat * dt)%Q)
         /\ (un' UEINT == uo UEINT + rate (NumSpec + NumAux)%nat * dt)%Q)
    (rk :: peers) (SDC.ranks_out out).
Proof.
  intros Hlayout Hdt H. apply sdc_call_ranks in H. revert H.
  apply Forall2_impl.
  intros r r' (r1 & b & Hp & _ & _ & _ & _ & _ & Hsame) Hng idx c Hin Hb Hc.
  cbv zeta.
  destruct (sdc_rank_shapes _ _ _ _ _ _ Hlayout Hp) as [(Hg & _) _].
  rewrite Hsame by lia. clear Hsame r'.
  apply sdc_rank_inv in Hp as (S' & R' & acc' & Hf & -> & _).
  apply (sdc_tiles_inv _ _ _ _ _ _ Hlayout) in Hf
    as (_ & _ & _ & _ & HvS & HvR).
  cbn [SDC.S_new SDC.reactions].
  assert (mf_contains
            (setVal (SDC.reactions r) 0 (nGrow (SDC.reactions r))) idx c
          = true) as Hc'
    by (by rewrite (mf_same_shape_contains _ _ _ _ (setVal_same_shape _ _ _))).
  assert (forall m,
            mf_val S' idx c m
            = sdc_stored
                (sdc_state_out burner burn_state_decl
                   (mf_val (SDC.S_old r) idx c) (mf_val (SDC.S_new r) idx c)
                   (mf_val (SDC.A_src r) idx c)
                   (mf_val (SDC.SDC_react_new r) idx c) c dt) m
                (mf_val (SDC.S_new r) idx c m)) as HS.
  { intros m. by rewrite HvS, (bool_decide_eq_true_2 _ Hin), Hb. }
  assert (forall n,
            mf_val R' idx c n
            = sdc_rate (mf_val (SDC.S_old r) idx c) (mf_val S' idx c)
                (sdc_state_out burner burn_state_decl
                   (mf_val (SDC.S_old r) idx c) (mf_val (SDC.S_new r) idx c)
                   (mf_val (SDC.A_src r) idx c)
                   (mf_val (SDC.SDC_react_new r) idx c) c dt) dt n
                (mf_val (setVal (SDC.reactions r) 0
                           (nGrow (SDC.reactions r))) idx c n)) as HR.
  { intros n. rewrite HvR, (bool_decide_eq_true_2 _ Hin), Hb, Hc'.
    cbn [andb]. apply sdc_rate_ext. intros m. by rewrite HS. }
  split; [|split].
  - intros n Hn. rewrite HR. unfold sdc_rate.
    rewrite (proj2 (Nat.ltb_lt _ _) Hn). by apply Q_rate_times_dt.
  - intros n Hn. rewrite HR. unfold sdc_rate.
    rewrite (proj2 (Nat.ltb_ge _ _)) by lia.
    rewrite (proj2 (Nat.ltb_lt _ _)) by lia.
    replace (n + NumSpec - NumSpec)%nat with n by lia.
    by apply Q_rate_times_dt.
  - rewrite HR. unfold sdc_rate.
    rewrite (proj2 (Nat.ltb_ge _ _)) by lia.
    rewrite (proj2 (Nat.ltb_ge _ _)) by lia.
    rewrite Nat.eqb_refl. by apply Q_rate_times_dt.
Qed.

Lemma sdc_rates_reproduce_state_change_witness :
  exists out,
    @SDC.react_state demo_build sdc_window_params toy_sdc_burner
      blank_sdc_burn_state no_fill_boundary demo_sdc_rank [] 0 (1 # 2)
    = Ok out
    /\ Forall2
         (fun r r' =>
            (nGrow (SDC.S_new r) <= 0)%Z ->
            forall idx c,
              (idx, c) ∈ tile_cells (SDC.mfiter r) ->
              @sdc_do_burn demo_build sdc_window_params
                (mf_val (SDC.S_old r) idx c) (mf_val (SDC.S_new r) idx c)
              = true ->
              mf_contains (SDC.reactions r) idx c = true ->
              let uo := mf_val (SDC.S_old r) idx c in
              let un' := mf_val (SDC.S_new r') idx c in
              let rate := mf_val (SDC.reactions r') idx c in
              (forall n, (n < @NumSpec demo_build)%nat ->
                 (un' (@UFS demo_build + n)%nat
                  == uo (@UFS demo_build + n)%nat + rate n * (1 # 2))%Q)
              /\ (forall n, (n < @NumAux demo_build)%nat ->
                    (un' (@UFX demo_build + n)%nat
                     == uo (@UFX demo_build + n)%nat
                        + rate (n + @NumSpec demo_build)%nat * (1 # 2))%Q)
              /\ (un' (@UEINT demo_build)
                  == uo (@UEINT demo_build)
                     + rate (@NumSpec demo_build + @NumAux demo_build)%nat
                       * (1 # 2))%Q)
         [demo_sdc_rank] (SDC.ranks_out out).
Proof.
  assert (exists out,
            @SDC.react_state demo_build sdc_window_params toy_sdc_burner
              blank_sdc_burn_state no_fill_boundary demo_sdc_rank [] 0
              (1 # 2) = Ok out) as [out E]
    by (vm_compute; eexists; reflexivity).
  exists out. split; [exact E|].
  exact (@sdc_rates_reproduce_state_change demo_build sdc_window_params
           toy_sdc_burner blank_sdc_burn_state no_fill_boundary demo_sdc_rank
           [] 0%Q (1 # 2)%Q out (castro_layout_ok _ _ _ _)
           ltac:(vm_compute; discriminate) E).
Defined.
(** ** The rates of a level that does not solve its reactions, the gate
    under more ranks, and where the SDC reduction is defined *)

Section StrangUnsolved.
Context {bld : Build} {par : Params}.
Variable burner : Strang.burn_t -> Real -> Strang.burn_t.
Variable burn_state_decl : Strang.burn_t.

Lemma strang_tiles_unsolved_rates dt tiles s r acc s' r' acc' :
  (level <=? reactions_max_solve_level)%Z = false ->
  foldM (Strang.react_mfi burner burn_state_decl dt) tiles (s, r, acc)
  = Ok (s', r', acc') ->
  mf_same_shape r r' /\ forall idx c n, mf_val r' idx c n = mf_val r idx c n.
Proof.
  intros Hlv. revert s r acc.
  induction tiles as [|[idx0 bx0] tiles IH]; intros s r acc H.
  { by injection H as <- <- <-. }
  cbn [foldM] in H.
  destruct (Strang.react_mfi _ _ _ (s, r, acc) (idx0, bx0))
    as [[[s1 r1] acc1]|] eqn:Hk;
    [|cbn [mbind result_bind] in H; discriminate].
  cbn [mbind result_bind] in H.
  apply strang_mfi_inv in Hk as (_ & _ & _ & Hsr & _ & HvR).
  apply IH in H as (Hsr' & HvR').
  split; [by eapply mf_same_shape_trans|].
  intros idx c n. by rewrite HvR', HvR, Hlv.
Qed.

End StrangUnsolved.

(** X14.  On a level above [reactions_max_solve_level] the main path of
    the Strang coupler computes no rate: the rate array it returns is,
    entry for entry and over the same boxes, the one FillCoarsePatch
    produced when the level is above 0, and the very array it received
    when the level is 0 (nothing interpolates then, and the state is
    advanced with the rates the caller passed in). *)
Theorem strang_unsolved_level_returns_given_rates
    {bld : Build} {par : Params}
    (burner : Strang.burn_t -> Real -> Strang.burn_t)
    (burn_state_decl : Strang.burn_t)
    (FillCoarsePatch : MultiFab -> Real -> MultiFab)
    (rk : Strang.Rank) (peers : list Strang.Rank) (time dt : Real)
    (out : Strang.Outcome) :
  (reactions_max_solve_level < level)%Z ->
  do_react = 1%Z ->
  valid_zones_to_burn (Strang.s rk) (map Strang.s peers) = Ok true ->
  Strang.react_state burner burn_state_decl FillCoarsePatch rk peers time dt
  = Ok out ->
  Forall2
    (fun r r' =>
       let given :=
         if (level >? 0)%Z then FillCoarsePatch (Strang.r r) time
         else Strang.r r in
       mf_same_shape given (Strang.r r')
       /\ forall idx c n, mf_val (Strang.r r') idx c n = mf_val given idx c n)
    (rk :: peers) (Strang.ranks_out out).
Proof.
  intros Hlv Hr Hg H.
  pose proof (strang_call_ranks _ _ _ _ _ _ _ _ H Hr Hg) as Hall.
  revert Hall. apply Forall2_impl.
  intros r r' [b (s' & r1 & acc' & Hf & -> & _)%strang_rank_inv]. cbv zeta.
  rewrite (proj2 (Z.gtb_lt _ _) Hlv) in Hf. cbn [andb] in Hf.
  cbn [Strang.r].
  apply (strang_tiles_unsolved_rates burner burn_state_decl dt
           (Strang.mfiter r) (Strang.s r) _ 0%Q s' r1 acc'); [|exact Hf].
  apply Z.leb_gt. lia.
Qed.

Lemma strang_unsolved_level_returns_given_rates_witness :
  exists out,
    @Strang.react_state demo_build unsolved_level_params toy_burner
      blank_burn_state no_coarse_patch (demo_rank 1) [] 0 (1 # 2) = Ok out
    /\ Forall2
         (fun r r' =>
            let given :=
              if (@level unsolved_level_params >? 0)%Z
              then no_coarse_patch (Strang.r r) 0
              else Strang.r r in
            mf_same_shape given (Strang.r r')
            /\ forall idx c n,
                mf_val (Strang.r r') idx c n = mf_val given idx c n)
         [demo_rank 1] (Strang.ranks_out out).
Proof.
  assert (exists out,
            @Strang.react_state demo_build unsolved_level_params toy_burner
              blank_burn_state no_coarse_patch (demo_rank 1) [] 0 (1 # 2)
            = Ok out) as [out E]
    by (vm_compute; eexists; reflexivity).
  exists out. split; [exact E|].
  refine (@strang_unsolved_level_returns_given_rates demo_build
            unsolved_level_params toy_burner blank_burn_state no_coarse_patch
            (demo_rank 1) [] 0%Q (1 # 2)%Q out _ eq_refl _ E).
  - reflexivity.
  - vm_compute. reflexivity.
Defined.

Section GateMonotone.
Context {bld : Build} {par : Params}.

Lemma valid_zone_more State peers more u :
  valid_zone (State :: peers) u -> valid_zone (State :: peers ++ more) u.
Proof.
  intros (S & f & c & HS & H). exists S, f, c. split; [|done].
  apply elem_of_cons in HS as [->|HS]; [apply elem_of_cons; by left|].
  apply elem_of_cons. right. apply elem_of_app. by left.
Qed.

Lemma global_max_more comp State peers more m :
  real_ge (global_max comp State peers) m = true ->
  real_ge (global_max comp State (peers ++ more)) m = true.
Proof.
  rewrite !real_ge_iff, !global_max_ge.
  intros [H|(u & Hu & H)]; [by left|right]. exists u.
  split; [by apply valid_zone_more|done].
Qed.

Lemma global_min_more comp State peers more m :
  real_le (global_min comp State peers) m = true ->
  real_le (global_min comp State (peers ++ more)) m = true.
Proof.
  rewrite !real_le_iff, !global_min_le.
  intros [H|(u & Hu & H)]; [by left|right]. exists u.
  split; [by apply valid_zone_more|done].
Qed.

Lemma compared_overlap_test_more State peers more :
  compared_overlap_test State peers = true ->
  compared_overlap_test State (peers ++ more) = true.
Proof.
  unfold compared_overlap_test, compared_largedens, compared_smalldens,
    compared_large_T, compared_small_T.
  rewrite !andb_true_iff. intros [[[H1 H2] H3] H4].
  repeat split.
  - destruct limit_large_rho; [by apply global_max_more|done].
  - destruct limit_small_rho; [by apply global_min_more|done].
  - destruct limit_large_T; [by apply global_max_more|done].
  - destruct limit_small_T; [by apply global_min_more|done].
Qed.

End GateMonotone.

(** X15.  More zones never close the gate: if the gate returns true
    for the caller and some ranks, it returns true when further ranks
    take part in the reductions, whatever their states hold. *)
Theorem gate_true_stays_true_with_more_ranks {bld : Build} {par : Params}
    (State : MultiFab) (peers more : list MultiFab) :
  valid_zones_to_burn State peers = Ok true ->
  valid_zones_to_burn State (peers ++ more) = Ok true.
Proof.
  intros H.
  destruct (valid_zones_to_burn_cases State peers)
    as [[Hl Hg]|[(_ & _ & _ & Hg)|(Hl & Hin & Hg)]].
  - by apply valid_zones_to_burn_unlimited.
  - rewrite Hg in H. discriminate H.
  - rewrite Hg in H. injection H as H.
    rewrite valid_zones_to_burn_in_range by done.
    f_equal. by apply compared_overlap_test_more.
Qed.

Lemma gate_true_stays_true_with_more_ranks_witness :
  @valid_zones_to_burn demo_build full_window_params
    (one_cell_state 10 50) [] = Ok true
  /\ @valid_zones_to_burn demo_build full_window_params
       (one_cell_state 10 50) ([] ++ [one_cell_state 1000 1]) = Ok true.
Proof.
  assert (@valid_zones_to_burn demo_build full_window_params
            (one_cell_state 10 50) [] = Ok true) as H
    by (vm_compute; reflexivity).
  split; [exact H|].
  exact (@gate_true_stays_true_with_more_ranks demo_build full_window_params
           (one_cell_state 10 50) [] [one_cell_state 1000 1] H).
Defined.
(** ** The Strang update reproduces the burn *)

Lemma Q_partial_density_round_trip (u rho x d : Q) :
  ~ (rho == 0)%Q -> ~ (d == 0)%Q ->
  (u + rho * (x - u * (1 / rho)) / d * d == rho * x)%Q.
Proof. intros Hrho Hd. field. by split. Qed.

Lemma Q_energy_round_trip (e0 rho e d : Q) :
  ~ (d == 0)%Q -> (e0 + rho * e / d * d == e0 + rho * e)%Q.
Proof. intros Hd. field. exact Hd. Qed.

(** C5.  The cells the Strang coupler burns are the cells of the tiles
    of a call that takes its main path (reactions enabled, zone gate
    true) on a level that solves its own reactions, where [do_burn] is
    true.  For every such cell that lies inside the state and inside
    the rate array, with [dt] nonzero and the density of the cell
    nonzero (the mass fractions are quotients by it), the state the
    call returns reproduces the integrator's post-burn values: each
    species partial density is [rho * xn], each auxiliary partial
    density is [rho * aux], and the internal and the total energy are
    those the call received plus [rho * e], where [rho] is the density
    of the cell and [xn], [aux], [e] are what the integrator left in
    [burn_state]; the equalities are exact in the arithmetic of the
    rationals.  (The components are laid out in the standard order and
    the tiles of a rank share no cell.) *)
Theorem strang_update_reproduces_burn {bld : Build} {par : Params}
    (burner : Strang.burn_t -> Real -> Strang.burn_t)
    (burn_state_decl : Strang.burn_t)
    (FillCoarsePatch : MultiFab -> Real -> MultiFab)
    (rk : Strang.Rank) (peers : list Strang.Rank) (time dt : Real)
    (out : Strang.Outcome) :
  layout_ok ->
  ~ (dt == 0)%Q ->
  do_react = 1%Z ->
  valid_zones_to_burn (Strang.s rk) (map Strang.s peers) = Ok true ->
  (level <= reactions_max_solve_level)%Z ->
  Strang.react_state burner burn_state_decl FillCoarsePatch rk peers time dt
  = Ok out ->
  Forall2
    (fun r r' =>
       tiles_disjoint (Strang.mfiter r) ->
       forall idx c,
         (idx, c) ∈ tile_cells (Strang.mfiter r) ->
         strang_do_burn (mf_val (Strang.s r) idx c) = true ->
         mf_contains (Strang.s r) idx c = true ->
         mf_contains (Strang.r r) idx c = true ->
         ~ (mf_val (Strang.s r) idx c URHO == 0)%Q ->
         let u := mf_val (Strang.s r) idx c in
         let u' := mf_val (Strang.s r') idx c in
         let post := burner (strang_state_in burn_state_decl u) dt in
         (forall n, (n < NumSpec)%nat ->
            (u' (UFS + n)%nat == u URHO * Strang.xn post n)%Q)
         /\ (forall n, (n < NumAux)%nat ->
               (u' (UFX + n)%nat == u URHO * Strang.aux post n)%Q)
         /\ (u' UEINT == u UEINT + u URHO * Strang.e post)%Q
         /\ (u' UEDEN == u UEDEN + u URHO * Strang.e post)%Q)
    (rk :: peers) (Strang.ranks_out out).
Proof.
  intros Hlayout Hdt Hr Hg Hlv H.
  pose proof (strang_call_ranks _ _ _ _ _ _ _ _ H Hr Hg) as Hall.
  revert Hall. apply Forall2_impl.
  intros r r' [b Hp] Hdis idx c Hin Hb HcU HcR Hrho. cbv zeta.
  destruct (strang_rank_state _ _ _ _ _ _ _ _ Hlayout Hp)
    as (_ & _ & Hshape & _ & Hst).
  specialize (Hst Hdis idx c).
  pose proof (strang_rank_rates _ _ _ _ _ _ _ _ Hdis Hp idx c) as HR.
  assert ((level >? reactions_max_solve_level)%Z = false) as Hgt
    by (rewrite Z.gtb_ltb; apply Z.ltb_ge; lia).
  rewrite Hgt in Hshape, HR. cbn [andb] in Hshape, HR.
  assert (mf_contains (Strang.r r') idx c = true) as HcR'
    by (by rewrite (mf_same_shape_contains _ _ _ _ Hshape)).
  rewrite (bool_decide_eq_true_2 _ Hin), HcU, HcR' in Hst. cbn [andb] in Hst.
  rewrite (proj2 (Z.leb_le _ _) Hlv), (bool_decide_eq_true_2 _ Hin), HcR'
    in HR.
  cbn [andb] in HR.
  assert (strang_state_out burner burn_state_decl
            (mf_val (Strang.s r) idx c) dt
          = burner (strang_state_in burn_state_decl
                      (mf_val (Strang.s r) idx c)) dt) as Hout
    by (unfold strang_state_out; by rewrite Hb).
  split; [|split; [|split]].
  - intros n Hn. rewrite Hst, (strang_updated_spec _ Hlayout) by done.
    rewrite HR. unfold strang_rate.
    rewrite Hb, Hout, (proj2 (Nat.ltb_lt _ _) Hn).
    by apply Q_partial_density_round_trip.
  - intros n Hn. rewrite Hst, (strang_updated_aux _ Hlayout) by done.
    rewrite HR. unfold strang_rate. rewrite Hb, Hout.
    rewrite (proj2 (Nat.ltb_ge _ _)) by lia.
    rewrite (proj2 (Nat.ltb_lt _ _)) by lia.
    replace (n + NumSpec - NumSpec)%nat with n by lia.
    by apply Q_partial_density_round_trip.
  - rewrite Hst, (strang_updated_eint _ Hlayout).
    rewrite HR. unfold strang_rate. rewrite Hb, Hout.
    rewrite (proj2 (Nat.ltb_ge _ _)) by lia.
    rewrite (proj2 (Nat.ltb_ge _ _)) by lia.
    rewrite Nat.eqb_refl. by apply Q_energy_round_trip.
  - rewrite Hst, (strang_updated_eden _ Hlayout).
    rewrite HR. unfold strang_rate. rewrite Hb, Hout.
    rewrite (proj2 (Nat.ltb_ge _ _)) by lia.
    rewrite (proj2 (Nat.ltb_ge _ _)) by lia.
    rewrite Nat.eqb_refl. by apply Q_energy_round_trip.
Qed.

Lemma strang_update_reproduces_burn_witness :
  exists out,
    @Strang.react_state (castro_build 2 1 false false)
      (default_params CornerTransportUpwind false) toy_burner
      blank_burn_state no_coarse_patch (demo_rank 0) [] 0 (1 # 2) = Ok out
    /\ Forall2
         (fun r r' =>
            tiles_disjoint (Strang.mfiter r) ->
            forall idx c,
              (idx, c) ∈ tile_cells (Strang.mfiter r) ->
              @strang_do_burn (castro_build 2 1 false false)
                (default_params CornerTransportUpwind false)
                (mf_val (Strang.s r) idx c) = true ->
              mf_contains (Strang.s r) idx c = true ->
              mf_contains (Strang.r r) idx c = true ->
              ~ (mf_val (Strang.s r) idx c 0 == 0)%Q ->
              let u := mf_val (Strang.s r) idx c in
              let u' := mf_val (Strang.s r') idx c in
              let post :=
                toy_burner
                  (@strang_state_in (castro_build 2 1 false false)
                     blank_burn_state u) (1 # 2) in
              (forall n, (n < 2)%nat ->
                 (u' (7 + n)%nat == u 0%nat * Strang.xn post n)%Q)
              /\ (forall n, (n < 1)%nat ->
                    (u' (9 + n)%nat == u 0%nat * Strang.aux post n)%Q)
              /\ (u' 5%nat == u 5%nat + u 0%nat * Strang.e post)%Q
              /\ (u' 4%nat == u 4%nat + u 0%nat * Strang.e post)%Q)
         [demo_rank 0] (Strang.ranks_out out).
Proof.
  assert (exists out,
            @Strang.react_state (castro_build 2 1 false false)
              (default_params CornerTransportUpwind false) toy_burner
              blank_burn_state no_coarse_patch (demo_rank 0) [] 0 (1 # 2)
            = Ok out) as [out E]
    by (vm_compute; eexists; reflexivity).
  exists out. split; [exact E|].
  refine (@strang_update_reproduces_burn (castro_build 2 1 false false)
            (default_params CornerTransportUpwind false) toy_burner
            blank_burn_state no_coarse_patch (demo_rank 0) [] 0%Q (1 # 2)%Q
            out (castro_layout_ok _ _ _ _) _ eq_refl _ _ E).
  - intros Hd. discriminate Hd.
  - vm_compute. reflexivity.
  - vm_compute. discriminate.
Defined.
